(** * A number-guessing game: navigation stack, rounds and snapshots

    Shallow embedding of [src/main.py].  Python integers are [Z], the floor
    division [//] is [Z.div] guarded against a zero divisor, dictionaries
    keyed by integers are [gmap Z _], the objects that Python shares by
    reference (the states on the navigation stack, the bound methods handed
    to child states) live in a store indexed by locations, and every method
    that has effects is a function in a state-and-exception monad over that
    store, the file system and the controller. *)

From Stdlib Require Import ZArith Lia DecimalString.
From stdpp Require Import gmap strings list fin_maps.

Local Open Scope Z_scope.

(** ** Static tables and plain data *)

Module Difficulty.
Inductive t := EASY | MEDIUM | HARD.
End Difficulty.

#[global] Instance Difficulty_eq_dec : EqDecision Difficulty.t.
Proof. solve_decision. Defined.

(** [DIFFICULTY_SECRET_NUMBER]: the dictionary has the three tiers as keys,
    so the subscript never raises [KeyError]. *)
Definition DIFFICULTY_SECRET_NUMBER (d : Difficulty.t) : Z :=
  match d with
  | Difficulty.EASY => 100
  | Difficulty.MEDIUM => 1000
  | Difficulty.HARD => 100000
  end.

(** [DIFFICULTY_WIN_SCORE] *)
Definition DIFFICULTY_WIN_SCORE (d : Difficulty.t) : Z :=
  match d with
  | Difficulty.EASY => 10
  | Difficulty.MEDIUM => 100
  | Difficulty.HARD => 1000
  end.

Module GameSettings.
Record t := mk { difficulty : Difficulty.t }.
Definition default : t := mk Difficulty.MEDIUM.
End GameSettings.

Module GameReport.
Record t := mk { guess_count : Z; score : Z }.
Definition default : t := mk 0 0.
(* assignments to one field *)
Definition with_guess_count (n : Z) (r : t) : t := mk n (score r).
Definition with_score (n : Z) (r : t) : t := mk (guess_count r) n.
End GameReport.

(** The exceptions the modelled code can raise.  None of them is caught by
    the program (the only handler, in [_ask], catches the [ValueError] of
    the conversion it has just tried), so an exception ends the run. *)
Inductive Exception :=
| ZeroDivisionError   (* [//] with a zero divisor *)
| IndexError          (* [list.pop] on an empty list *)
| FileNotFoundError   (* [open(path, "rb")] on a missing file *)
| UnpicklingError     (* [pickle.loads] on bytes it does not accept *)
| AttributeError      (* a field read on an object of another class *)
| KeyError            (* a dictionary subscript on a missing key *)
| ValueError          (* [random.randint] on an empty range *)
| EOFError.           (* console input exhausted *)

#[global] Instance Exception_eq_dec : EqDecision Exception.
Proof. solve_decision. Defined.

(** [compute_score]: Python's [//] rounds towards minus infinity, as [Z.div]
    does, and raises on a zero divisor. *)
Definition compute_score (settings : GameSettings.t) (report : GameReport.t)
  : Exception + Z :=
  if decide (GameReport.guess_count report = 0) then inl ZeroDivisionError
  else inr (DIFFICULTY_WIN_SCORE (GameSettings.difficulty settings)
            / GameReport.guess_count report).

(** ** Events and actions *)

Inductive GameEvent :=
| GuessTooHigh
| GuessTooLow
| PlayerWin (report : GameReport.t).

Inductive NewGameSetupEvent :=
| NewGameSettingsValidated (settings : GameSettings.t).

(** [Event] is the common base class of both families. *)
Inductive Event :=
| OfGame (e : GameEvent)
| OfNewGameSetup (e : NewGameSetupEvent).

Module GameAction.
Inductive t := GUESS | QUIT.
End GameAction.

Module NewGameSetupAction.
Inductive t := VALIDATE.
End NewGameSetupAction.

Module LobbyAction.
Inductive t := NEW_GAME | LOAD_GAME | QUIT.
End LobbyAction.

Module MainMenuAction.
Inductive t := NEW_LOBBY | LOAD_LOBBY | CREDITS | QUIT.
End MainMenuAction.

#[global] Instance GameAction_eq_dec : EqDecision GameAction.t.
Proof. solve_decision. Defined.
#[global] Instance NewGameSetupAction_eq_dec : EqDecision NewGameSetupAction.t.
Proof. solve_decision. Defined.
#[global] Instance LobbyAction_eq_dec : EqDecision LobbyAction.t.
Proof. solve_decision. Defined.
#[global] Instance MainMenuAction_eq_dec : EqDecision MainMenuAction.t.
Proof. solve_decision. Defined.

(** ** The data of a round and of a lobby *)

Module Player.
Record t := mk { guess : Z; action : option GameAction.t }.
Definition default : t := mk 0 None.
End Player.

Module GameState.
Record t := mk {
  secret_number : Z;
  player : Player.t;
  settings : GameSettings.t;
  report : GameReport.t }.
Definition default : t :=
  mk 0 Player.default GameSettings.default GameReport.default.
(* assignments to one field *)
Definition with_secret_number (n : Z) (s : t) : t :=
  mk n (player s) (settings s) (report s).
Definition with_player (p : Player.t) (s : t) : t :=
  mk (secret_number s) p (settings s) (report s).
Definition with_settings (x : GameSettings.t) (s : t) : t :=
  mk (secret_number s) (player s) x (report s).
Definition with_report (r : GameReport.t) (s : t) : t :=
  mk (secret_number s) (player s) (settings s) r.
End GameState.

Module LobbyState.
Record t := mk { score : Z }.
Definition default : t := mk 0.
End LobbyState.

(** ** The states of the navigation stack

    A state is a Python object: the stack, the running method and the
    callbacks of its children all hold the same reference.  [loc] is that
    reference.  Every state also holds [_controller]; the program creates a
    single controller in [main] and hands it from state to state, so the
    embedding keeps it once, beside the store. *)

Definition loc := nat.

(** A handler is [NO_HANDLER] or a method of [Lobby] bound to the lobby that
    created the child. *)
Inductive EventHandler :=
| NO_HANDLER
| bound_on_game_event (self : loc)
| bound_on_new_game_setup_event (self : loc).

Module Game.
(** [_action] is not a field of the dataclass: it is the attribute that
    [update] assigns; [None] here means it has not been assigned yet, and
    [Some None] that it holds Python's [None]. *)
Record t := mk {
  _state : GameState.t;
  _event_handler : EventHandler;
  _action : option (option GameAction.t) }.
Definition player (self : t) : Player.t := GameState.player (_state self).
Definition secret_number (self : t) : Z := GameState.secret_number (_state self).
Definition settings (self : t) : GameSettings.t := GameState.settings (_state self).
Definition state (self : t) : GameState.t := _state self.
(* assignments to one field *)
Definition with_state (s : GameState.t) (self : t) : t :=
  mk s (_event_handler self) (_action self).
Definition with_action (a : option GameAction.t) (self : t) : t :=
  mk (_state self) (_event_handler self) (Some a).
End Game.

Module NewGameSetup.
Record t := mk {
  _settings : GameSettings.t;
  _event_handler : EventHandler;
  _action : option NewGameSetupAction.t }.
Definition set_action (action : NewGameSetupAction.t) (self : t) : t :=
  mk (_settings self) (_event_handler self) (Some action).
Definition settings (self : t) : GameSettings.t := _settings self.
Definition with_action (a : option NewGameSetupAction.t) (self : t) : t :=
  mk (_settings self) (_event_handler self) a.
End NewGameSetup.

Module Lobby.
Record t := mk {
  _state : LobbyState.t;
  _action : option LobbyAction.t;
  _game_settings : GameSettings.t;
  _create_game : bool;
  _enabled : bool }.
Definition set_action (action : LobbyAction.t) (self : t) : t :=
  mk (_state self) (Some action) (_game_settings self) (_create_game self)
     (_enabled self).
Definition state (self : t) : LobbyState.t := _state self.
(* assignments to one field *)
Definition with_state (s : LobbyState.t) (self : t) : t :=
  mk s (_action self) (_game_settings self) (_create_game self) (_enabled self).
Definition with_action (a : option LobbyAction.t) (self : t) : t :=
  mk (_state self) a (_game_settings self) (_create_game self) (_enabled self).
Definition with_game_settings (x : GameSettings.t) (self : t) : t :=
  mk (_state self) (_action self) x (_create_game self) (_enabled self).
Definition with_create_game (b : bool) (self : t) : t :=
  mk (_state self) (_action self) (_game_settings self) b (_enabled self).
Definition with_enabled (b : bool) (self : t) : t :=
  mk (_state self) (_action self) (_game_settings self) (_create_game self) b.
(** [Lobby(controller)] followed by nothing: the dataclass defaults. *)
Definition new : t := mk LobbyState.default None GameSettings.default false true.
End Lobby.

Module MainMenu.
Record t := mk { _action : option MainMenuAction.t }.
Definition set_action (action : MainMenuAction.t) (self : t) : t :=
  mk (Some action).
Definition with_action (a : option MainMenuAction.t) (self : t) : t := mk a.
Definition new : t := mk None.
End MainMenu.

Module Victory.
Record t := mk {
  _settings : GameSettings.t;
  _report : GameReport.t;
  _go_next : bool }.
Definition settings (self : t) : GameSettings.t := _settings self.
Definition report (self : t) : GameReport.t := _report self.
Definition go_next (self : t) : t := mk (_settings self) (_report self) true.
End Victory.

Module Credits.
Record t := mk { _go_next : bool }.
Definition go_next (self : t) : t := mk true.
Definition new : t := mk false.
End Credits.

Inductive State :=
| AGame (s : Game.t)
| ANewGameSetup (s : NewGameSetup.t)
| ALobby (s : Lobby.t)
| AMainMenu (s : MainMenu.t)
| AVictory (s : Victory.t)
| ACredits (s : Credits.t).

(** ** What the program takes from Python and its libraries

    The file system is a finite map from path to contents; the two snapshot
    files are the relative paths of the source. *)

Abbreviation bytes := (list Byte.byte).
Abbreviation Files := (gmap string bytes).

Definition SAVED_LOBBY_PATH : string := "lobby.json".
Definition SAVED_GAME_PATH : string := "game.json".

(** [Path.exists] *)
Definition exists_ (path : string) (fs : Files) : bool :=
  match fs !! path with Some _ => true | None => false end.

(** The two kinds of object the program pickles. *)
Inductive Picklable :=
| PGameState (s : GameState.t)
| PLobbyState (s : LobbyState.t).

(** [pickle], [random] and the builtin [int] are not part of the
    repository: they are parameters.  [randint a b] draws from the
    generator state; [pickle_loads] and [int] answer [None] where Python
    raises ([UnpicklingError], [ValueError]). *)
Class Platform := {
  Rng : Type;
  randint : Z → Z → Rng → Z * Rng;
  pickle_dumps : Picklable → bytes;
  pickle_loads : bytes → option Picklable;
  int : string → option Z }.

(** The contracts of [random.randint] and of [pickle] that the properties
    below rely on. *)
Definition randint_in_range `{Platform} : Prop :=
  ∀ a b r, a ≤ b → a ≤ (randint a b r).1 ≤ b.

Definition pickle_round_trip `{Platform} : Prop :=
  ∀ o, pickle_loads (pickle_dumps o) = Some o.

(** ** Controller

    [Controller] is the interface of the source: [update] acts on the state
    object it is handed (and on the controller itself), [draw] and
    [on_event] on the controller only.  The class has one [update] per
    concrete state because an object never changes its class;
    [Controller_update] below puts them together as the [isinstance]
    ladder of [HumanController.update] does.  A controller holds no
    reference to the [MainLoop]. *)
Class Controller (C : Type) := {
  update_Game : Game.t → Files → C → Exception + (Game.t * C);
  update_NewGameSetup :
    NewGameSetup.t → Files → C → Exception + (NewGameSetup.t * C);
  update_Lobby : Lobby.t → Files → C → Exception + (Lobby.t * C);
  update_MainMenu : MainMenu.t → Files → C → Exception + (MainMenu.t * C);
  update_Victory : Victory.t → Files → C → Exception + (Victory.t * C);
  update_Credits : Credits.t → Files → C → Exception + (Credits.t * C);
  draw : State → Files → C → C;
  on_event : Event → C → C }.

(** [controller.update(state)], for a state of any class: the method of
    the class of [state] is the one that runs, and the object that comes
    back is the same object. *)
Definition Controller_update `{Controller C} (state : State) (fs : Files)
    (c : C) : Exception + (State * C) :=
  let same {T} (inj : T → State) (r : Exception + (T * C)) :=
    match r with
    | inl e => inl e
    | inr (s', c') => inr (inj s', c')
    end in
  match state with
  | AGame g => same AGame (update_Game g fs c)
  | ANewGameSetup g => same ANewGameSetup (update_NewGameSetup g fs c)
  | ALobby g => same ALobby (update_Lobby g fs c)
  | AMainMenu g => same AMainMenu (update_MainMenu g fs c)
  | AVictory g => same AVictory (update_Victory g fs c)
  | ACredits g => same ACredits (update_Credits g fs c)
  end.

(** ** HumanController

    [_console] is the console seen from the program: the lines the player
    is going to type.  What the console prints is not modelled. *)
Module HumanController.
Record t := mk {
  _console : list string;
  _event_logs : list string;
  _lobby_actions : gmap Z LobbyAction.t;
  _main_menu_actions : gmap Z MainMenuAction.t }.

(** [__init__], on a console that will deliver [input]. *)
Definition new (input : list string) : t := mk input [] ∅ ∅.

Definition with_console (c : list string) (self : t) : t :=
  mk c (_event_logs self) (_lobby_actions self) (_main_menu_actions self).

Definition _create_lobby_actions (fs : Files) : gmap Z LobbyAction.t :=
  if exists_ SAVED_GAME_PATH fs then
    {[ 0 := LobbyAction.LOAD_GAME;
       1 := LobbyAction.NEW_GAME;
       99 := LobbyAction.QUIT ]}
  else
    {[ 0 := LobbyAction.NEW_GAME;
       99 := LobbyAction.QUIT ]}.

Definition _create_main_menu_actions (fs : Files) : gmap Z MainMenuAction.t :=
  if exists_ SAVED_LOBBY_PATH fs then
    {[ 0 := MainMenuAction.LOAD_LOBBY;
       1 := MainMenuAction.NEW_LOBBY;
       2 := MainMenuAction.CREDITS;
       99 := MainMenuAction.QUIT ]}
  else
    {[ 0 := MainMenuAction.NEW_LOBBY;
       2 := MainMenuAction.CREDITS;
       99 := MainMenuAction.QUIT ]}.

(** [_ask]: read lines until one converts and validates.  The prompt is
    output only.  [type_] answers [None] for the [ValueError] that the
    source catches; running out of input is [EOFError]. *)
Fixpoint _ask {T} (type_ : string → option T) (validator : T → bool)
    (console : list string) : Exception + (T * list string) :=
  match console with
  | [] => inl EOFError
  | input :: console' =>
      match type_ input with
      | None => _ask type_ validator console'
      | Some value =>
          if validator value then inr (value, console')
          else _ask type_ validator console'
      end
  end.

Definition ALL_VALID {T} (_ : T) : bool := true.

Section WithPlatform.
Context `{Platform}.

(** [_select]: the validator has checked the key, so the subscript
    [choices[value]] is a successful lookup. *)
Definition _select {T} (choices : gmap Z T) (console : list string)
  : Exception + (T * list string) :=
  match _ask int (λ value, bool_decide (is_Some (choices !! value))) console with
  | inl e => inl e
  | inr (value, console') =>
      match choices !! value with
      | Some a => inr (a, console')
      | None => inl KeyError
      end
  end.

Definition update_Game (state : Game.t) (_ : Files) (self : t)
  : Exception + (Game.t * t) :=
  match _ask int ALL_VALID (_console self) with
  | inl e => inl e
  | inr (value, console') =>
      let p := Player.mk value (Some GameAction.GUESS) in
      inr (Game.with_state (GameState.with_player p (Game.state state)) state,
           with_console console' self)
  end.

Definition update_NewGameSetup (state : NewGameSetup.t) (_ : Files) (self : t)
  : Exception + (NewGameSetup.t * t) :=
  let difficulties : gmap Z Difficulty.t :=
    {[ 0 := Difficulty.EASY; 1 := Difficulty.MEDIUM; 2 := Difficulty.HARD ]} in
  match _select difficulties (_console self) with
  | inl e => inl e
  | inr (d, console') =>
      inr (NewGameSetup.set_action NewGameSetupAction.VALIDATE
             (NewGameSetup.mk (GameSettings.mk d)
                (NewGameSetup._event_handler state)
                (NewGameSetup._action state)),
           with_console console' self)
  end.

Definition update_Lobby (state : Lobby.t) (_ : Files) (self : t)
  : Exception + (Lobby.t * t) :=
  match _select (_lobby_actions self) (_console self) with
  | inl e => inl e
  | inr (a, console') =>
      inr (Lobby.set_action a state, with_console console' self)
  end.

Definition update_MainMenu (state : MainMenu.t) (_ : Files) (self : t)
  : Exception + (MainMenu.t * t) :=
  match _select (_main_menu_actions self) (_console self) with
  | inl e => inl e
  | inr (a, console') =>
      inr (MainMenu.set_action a state, with_console console' self)
  end.

(** [console.input] consumes one line, whatever it holds. *)
Definition input (console : list string) : Exception + (string * list string) :=
  match console with
  | [] => inl EOFError
  | line :: console' => inr (line, console')
  end.

Definition update_Victory (state : Victory.t) (_ : Files) (self : t)
  : Exception + (Victory.t * t) :=
  match input (_console self) with
  | inl e => inl e
  | inr (_, console') => inr (Victory.go_next state, with_console console' self)
  end.

Definition update_Credits (state : Credits.t) (_ : Files) (self : t)
  : Exception + (Credits.t * t) :=
  match input (_console self) with
  | inl e => inl e
  | inr (_, console') => inr (Credits.go_next state, with_console console' self)
  end.

End WithPlatform.

(** [draw]: the panels go to the console; what stays in the controller is
    the drained event log ([draw_Game]) and the menu just offered
    ([draw_Lobby], [draw_MainMenu]). *)
Definition draw (state : State) (fs : Files) (self : t) : t :=
  match state with
  | AGame _ =>
      mk (_console self) [] (_lobby_actions self) (_main_menu_actions self)
  | ALobby _ =>
      mk (_console self) (_event_logs self) (_create_lobby_actions fs)
         (_main_menu_actions self)
  | AMainMenu _ =>
      mk (_console self) (_event_logs self) (_lobby_actions self)
         (_create_main_menu_actions fs)
  | ANewGameSetup _ | AVictory _ | ACredits _ => self
  end.

Definition log_line (line : string) (self : t) : t :=
  mk (_console self) (_event_logs self ++ [line]) (_lobby_actions self)
     (_main_menu_actions self).

Definition on_event (event : Event) (self : t) : t :=
  match event with
  | OfGame GuessTooHigh => log_line "[orange](v)[/orange] Guess is too high" self
  | OfGame GuessTooLow => log_line "[orange](^)[/orange] Guess is too low" self
  | _ => self
  end.
End HumanController.

#[global] Instance HumanController_Controller `{Platform}
  : Controller HumanController.t := {
  update_Game := HumanController.update_Game;
  update_NewGameSetup := HumanController.update_NewGameSetup;
  update_Lobby := HumanController.update_Lobby;
  update_MainMenu := HumanController.update_MainMenu;
  update_Victory := HumanController.update_Victory;
  update_Credits := HumanController.update_Credits;
  draw := HumanController.draw;
  on_event := HumanController.on_event }.

(** ** The running program

    [Effect] is the record of what a run did to its surroundings, in order:
    the state objects handed to [Controller.update] (as they were at the
    call), the notices given to the controller, the handler calls, the pops
    and pushes of the navigation stack and the files written.  It is kept
    in the world for the properties about "exactly one", "before" and "in
    that order"; no method reads it. *)
Inductive Effect :=
| Asked (state : loc) (seen : State)
| Notified (event : Event)
| Handled (handler : EventHandler) (event : Event)
| Popped (state : loc)
| Pushed (state : loc)
| Written (path : string) (data : bytes).

Section Program.
Context `{Platform} {C : Type} `{!Controller C}.

Record World := mkWorld {
  heap : gmap loc State;      (* the state objects, by reference *)
  _states : list loc;         (* [MainLoop._states], top last *)
  files : Files;
  controller : C;
  rng : Rng;
  log : list Effect }.

Inductive Outcome (A : Type) :=
| Raise (e : Exception)
| Return (a : A) (w : World).
Arguments Raise {A} e.
Arguments Return {A} a w.

Definition M (A : Type) : Type := World → Outcome A.

Definition ret {A} (a : A) : M A := λ w, Return a w.
Definition bind {A B} (m : M A) (k : A → M B) : M B :=
  λ w, match m w with Raise e => Raise e | Return a w' => k a w' end.
Definition raise {A} (e : Exception) : M A := λ _, Raise e.
Definition get : M World := λ w, Return w w.
Definition put (w : World) : M unit := λ _, Return tt w.
Definition lift {A} (r : Exception + A) : M A :=
  match r with inl e => raise e | inr a => ret a end.
Definition when (b : bool) (m : M unit) : M unit := if b then m else ret tt.

Notation "x <~ m ;; k" := (bind m (λ x, k))
  (at level 100, m at next level, right associativity).
Notation "m ;;; k" := (bind m (λ _, k))
  (at level 100, right associativity).

Definition emit (e : Effect) : M unit := λ w,
  Return tt (mkWorld (heap w) (_states w) (files w) (controller w) (rng w)
               (log w ++ [e])).

(** *** The store *)

(** A reference that the program holds always has its object; the
    embedding answers [AttributeError] for a reference without one, as for
    an object of another class than the method expects. *)
Definition read (l : loc) : M State := λ w,
  match heap w !! l with
  | Some s => Return s w
  | None => Raise AttributeError
  end.

Definition write (l : loc) (s : State) : M unit := λ w,
  Return tt (mkWorld (<[l := s]> (heap w)) (_states w) (files w)
               (controller w) (rng w) (log w)).

(** A constructor call: a new object at a reference not yet in use. *)
Definition alloc (s : State) : M loc := λ w,
  let l := fresh (dom (heap w)) in
  Return l (mkWorld (<[l := s]> (heap w)) (_states w) (files w)
              (controller w) (rng w) (log w)).

Definition as_Game (l : loc) : M Game.t :=
  s <~ read l ;; match s with AGame g => ret g | _ => raise AttributeError end.
Definition as_NewGameSetup (l : loc) : M NewGameSetup.t :=
  s <~ read l ;;
  match s with ANewGameSetup g => ret g | _ => raise AttributeError end.
Definition as_Lobby (l : loc) : M Lobby.t :=
  s <~ read l ;; match s with ALobby g => ret g | _ => raise AttributeError end.
Definition as_MainMenu (l : loc) : M MainMenu.t :=
  s <~ read l ;; match s with AMainMenu g => ret g | _ => raise AttributeError end.
Definition as_Victory (l : loc) : M Victory.t :=
  s <~ read l ;; match s with AVictory g => ret g | _ => raise AttributeError end.
Definition as_Credits (l : loc) : M Credits.t :=
  s <~ read l ;; match s with ACredits g => ret g | _ => raise AttributeError end.

(** *** Files, pickle and random *)

(** [open(path, "wb")] then [write]: the file holds exactly [data]. *)
Definition write_file (path : string) (data : bytes) : M unit := λ w,
  Return tt (mkWorld (heap w) (_states w) (<[path := data]> (files w))
               (controller w) (rng w) (log w ++ [Written path data])).

(** [open(path, "rb")] then [read] *)
Definition read_file (path : string) : M bytes := λ w,
  match files w !! path with
  | Some data => Return data w
  | None => Raise FileNotFoundError
  end.

Definition loads (data : bytes) : M Picklable :=
  match pickle_loads data with
  | Some o => ret o
  | None => raise UnpicklingError
  end.

(** [random.randint(a, b)] raises [ValueError] on an empty range. *)
Definition random_randint (a b : Z) : M Z := λ w,
  if decide (a ≤ b) then
    let '(n, r) := randint a b (rng w) in
    Return n (mkWorld (heap w) (_states w) (files w) (controller w) r (log w))
  else Raise ValueError.

(** *** MainLoop: the stack *)

(** [list.pop()]: the last element and the list without it. *)
Definition list_pop {A} (l : list A) : option (list A * A) :=
  match reverse l with
  | [] => None
  | x :: r => Some (reverse r, x)
  end.

Definition MainLoop_pop_state : M loc := λ w,
  match list_pop (_states w) with
  | None => Raise IndexError
  | Some (rest, state) =>
      Return state (mkWorld (heap w) rest (files w) (controller w) (rng w)
                      (log w ++ [Popped state]))
  end.

Definition MainLoop_push_state (state : loc) : M unit := λ w,
  Return tt (mkWorld (heap w) (_states w ++ [state]) (files w) (controller w)
               (rng w) (log w ++ [Pushed state])).

(** *** Calls into the controller *)

Definition set_controller (c : C) : M unit := λ w,
  Return tt (mkWorld (heap w) (_states w) (files w) c (rng w) (log w)).

(** [self._controller.update(self)]: the controller works on the object
    behind [self]. *)
Definition controller_update (self : loc) : M unit :=
  s <~ read self ;;
  emit (Asked self s) ;;;
  w <~ get ;;
  match Controller_update s (files w) (controller w) with
  | inl e => raise e
  | inr (s', c') => write self s' ;;; set_controller c'
  end.

(** [self._controller.draw(self)] *)
Definition controller_draw (self : loc) : M unit :=
  s <~ read self ;;
  w <~ get ;;
  set_controller (draw s (files w) (controller w)).

(** [self._controller.on_event(event)] *)
Definition controller_on_event (event : Event) : M unit :=
  emit (Notified event) ;;;
  w <~ get ;;
  set_controller (on_event event (controller w)).

(** *** Lobby: the handlers it gives to its children *)

(** [Lobby._on_game_event] *)
Definition Lobby_on_game_event (self : loc) (event : Event) : M unit :=
  match event with
  | OfGame (PlayerWin report) =>
      lb <~ as_Lobby self ;;
      let st := Lobby._state lb in
      write self
        (ALobby (Lobby.with_state
                   (LobbyState.mk (LobbyState.score st + GameReport.score report))
                   lb))
  | _ => ret tt
  end.

(** [Lobby._on_new_game_setup_event] *)
Definition Lobby_on_new_game_setup_event (self : loc) (event : Event) : M unit :=
  match event with
  | OfNewGameSetup (NewGameSettingsValidated settings) =>
      lb <~ as_Lobby self ;;
      write self
        (ALobby (Lobby.with_enabled false
                   (Lobby.with_create_game true
                      (Lobby.with_game_settings settings lb))))
  | _ => ret tt
  end.

(** [self._event_handler(event)] *)
Definition call_handler (handler : EventHandler) (event : Event) : M unit :=
  emit (Handled handler event) ;;;
  match handler with
  | NO_HANDLER => ret tt
  | bound_on_game_event l => Lobby_on_game_event l event
  | bound_on_new_game_setup_event l => Lobby_on_new_game_setup_event l event
  end.

(** *** Game *)

(** [Game.initialize] *)
Definition Game_initialize (self : loc) (settings : GameSettings.t) : M unit :=
  g <~ as_Game self ;;
  write self (AGame (Game.with_state GameState.default g)) ;;;
  g <~ as_Game self ;;
  write self
    (AGame (Game.with_state (GameState.with_settings settings (Game._state g)) g)) ;;;
  n <~ random_randint 0
         (DIFFICULTY_SECRET_NUMBER (GameSettings.difficulty settings)) ;;
  g <~ as_Game self ;;
  write self
    (AGame (Game.with_state (GameState.with_secret_number n (Game._state g)) g)).

(** [Game.save_state] *)
Definition Game_save_state (self : loc) : M unit :=
  g <~ as_Game self ;;
  write_file SAVED_GAME_PATH (pickle_dumps (PGameState (Game._state g))).

(** [Game.load_state].  An unpickled object of another class would be
    stored as it is and fail at the first field read; the embedding reports
    it here. *)
Definition Game_load_state (self : loc) : M unit :=
  data <~ read_file SAVED_GAME_PATH ;;
  o <~ loads data ;;
  match o with
  | PGameState s => g <~ as_Game self ;; write self (AGame (Game.with_state s g))
  | PLobbyState _ => raise AttributeError
  end.

(** [Game._check_guess] *)
Definition Game_check_guess (self : loc) : M unit :=
  g <~ as_Game self ;;
  when (bool_decide (Player.guess (Game.player g) > Game.secret_number g))
    (controller_on_event (OfGame GuessTooHigh)) ;;;
  g <~ as_Game self ;;
  when (bool_decide (Player.guess (Game.player g) < Game.secret_number g))
    (controller_on_event (OfGame GuessTooLow)) ;;;
  g <~ as_Game self ;;
  when (bool_decide (Player.guess (Game.player g) = Game.secret_number g))
    (let st := Game._state g in
     score <~ lift (compute_score (GameState.settings st) (GameState.report st)) ;;
     write self
       (AGame (Game.with_state
                 (GameState.with_report
                    (GameReport.with_score score (GameState.report st)) st) g)) ;;;
     g <~ as_Game self ;;
     call_handler (Game._event_handler g)
       (OfGame (PlayerWin (GameState.report (Game._state g)))) ;;;
     MainLoop_pop_state ;;;
     g <~ as_Game self ;;
     victory <~ alloc (AVictory (Victory.mk (GameState.settings (Game._state g))
                                   (GameState.report (Game._state g)) false)) ;;
     MainLoop_push_state victory).

(** [Game._handle_action] *)
Definition Game_handle_action (self : loc) : M unit :=
  g <~ as_Game self ;;
  when (bool_decide (Player.action (Game.player g) = Some GameAction.GUESS))
    (let st := Game._state g in
     let r := GameState.report st in
     write self
       (AGame (Game.with_state
                 (GameState.with_report
                    (GameReport.with_guess_count (GameReport.guess_count r + 1) r)
                    st) g)) ;;;
     Game_check_guess self) ;;;
  g <~ as_Game self ;;
  when (bool_decide (Player.action (Game.player g) = Some GameAction.QUIT))
    (Game_save_state self ;;;
     MainLoop_pop_state ;;;
     ret tt).

(** [Game.update].  The first statement assigns the attribute [_action] of
    the [Game] object; the intent that [_handle_action] reads is
    [self._state.player.action]. *)
Definition Game_update (self : loc) : M unit :=
  g <~ as_Game self ;;
  write self (AGame (Game.with_action None g)) ;;;
  controller_update self ;;;
  Game_handle_action self.

(** *** NewGameSetup *)

Definition NewGameSetup_handle_action (self : loc) : M unit :=
  s <~ as_NewGameSetup self ;;
  when (bool_decide (NewGameSetup._action s = Some NewGameSetupAction.VALIDATE))
    (call_handler (NewGameSetup._event_handler s)
       (OfNewGameSetup (NewGameSettingsValidated (NewGameSetup._settings s))) ;;;
     MainLoop_pop_state ;;;
     ret tt).

Definition NewGameSetup_update (self : loc) : M unit :=
  s <~ as_NewGameSetup self ;;
  write self (ANewGameSetup (NewGameSetup.with_action None s)) ;;;
  controller_update self ;;;
  NewGameSetup_handle_action self.

(** *** Lobby *)

Definition Lobby_initialize (self : loc) : M unit :=
  lb <~ as_Lobby self ;;
  write self (ALobby (Lobby.with_state LobbyState.default lb)) ;;;
  lb <~ as_Lobby self ;;
  write self (ALobby (Lobby.with_state (LobbyState.mk 0) lb)).

Definition Lobby_save_state (self : loc) : M unit :=
  lb <~ as_Lobby self ;;
  write_file SAVED_LOBBY_PATH (pickle_dumps (PLobbyState (Lobby._state lb))).

Definition Lobby_load_state (self : loc) : M unit :=
  data <~ read_file SAVED_LOBBY_PATH ;;
  o <~ loads data ;;
  match o with
  | PLobbyState s => lb <~ as_Lobby self ;; write self (ALobby (Lobby.with_state s lb))
  | PGameState _ => raise AttributeError
  end.

Definition Lobby_handle_actions (self : loc) : M unit :=
  lb <~ as_Lobby self ;;
  when (bool_decide (Lobby._action lb = Some LobbyAction.NEW_GAME))
    (state <~ alloc (ANewGameSetup
                       (NewGameSetup.mk GameSettings.default
                          (bound_on_new_game_setup_event self) None)) ;;
     MainLoop_push_state state) ;;;
  lb <~ as_Lobby self ;;
  when (bool_decide (Lobby._action lb = Some LobbyAction.LOAD_GAME))
    (state <~ alloc (AGame (Game.mk GameState.default
                              (bound_on_game_event self) None)) ;;
     Game_load_state state ;;;
     MainLoop_push_state state) ;;;
  lb <~ as_Lobby self ;;
  when (bool_decide (Lobby._action lb = Some LobbyAction.QUIT))
    (Lobby_save_state self ;;;
     MainLoop_pop_state ;;;
     ret tt).

Definition Lobby_update (self : loc) : M unit :=
  lb <~ as_Lobby self ;;
  if Lobby._create_game lb then
    state <~ alloc (AGame (Game.mk GameState.default
                             (bound_on_game_event self) None)) ;;
    Game_initialize state (Lobby._game_settings lb) ;;;
    MainLoop_push_state state ;;;
    lb <~ as_Lobby self ;;
    write self (ALobby (Lobby.with_enabled true lb)) ;;;
    lb <~ as_Lobby self ;;
    write self (ALobby (Lobby.with_create_game false lb))
  else if negb (Lobby._enabled lb) then ret tt
  else
    write self (ALobby (Lobby.with_action None lb)) ;;;
    controller_update self ;;;
    Lobby_handle_actions self.

Definition Lobby_draw (self : loc) : M unit :=
  lb <~ as_Lobby self ;;
  if negb (Lobby._enabled lb) then ret tt else controller_draw self.

(** *** MainMenu *)

Definition MainMenu_handle_actions (self : loc) : M unit :=
  m <~ as_MainMenu self ;;
  let a := MainMenu._action m in
  when (bool_decide (a = Some MainMenuAction.NEW_LOBBY))
    (state <~ alloc (ALobby Lobby.new) ;;
     Lobby_initialize state ;;;
     MainLoop_push_state state) ;;;
  when (bool_decide (a = Some MainMenuAction.LOAD_LOBBY))
    (state <~ alloc (ALobby Lobby.new) ;;
     Lobby_load_state state ;;;
     MainLoop_push_state state) ;;;
  when (bool_decide (a = Some MainMenuAction.CREDITS))
    (state <~ alloc (ACredits Credits.new) ;;
     MainLoop_push_state state) ;;;
  when (bool_decide (a = Some MainMenuAction.QUIT))
    (MainLoop_pop_state ;;; ret tt).

Definition MainMenu_update (self : loc) : M unit :=
  m <~ as_MainMenu self ;;
  write self (AMainMenu (MainMenu.with_action None m)) ;;;
  controller_update self ;;;
  MainMenu_handle_actions self.

(** *** Victory and Credits *)

Definition Victory_update (self : loc) : M unit :=
  controller_update self ;;;
  v <~ as_Victory self ;;
  when (Victory._go_next v) (MainLoop_pop_state ;;; ret tt).

Definition Credits_update (self : loc) : M unit :=
  controller_update self ;;;
  c <~ as_Credits self ;;
  when (Credits._go_next c) (MainLoop_pop_state ;;; ret tt).

(** *** Dispatch and the main loop *)

(** [state.draw()] *)
Definition State_draw (self : loc) : M unit :=
  s <~ read self ;;
  match s with
  | ALobby _ => Lobby_draw self
  | _ => controller_draw self
  end.

(** [state.update(mainloop)] *)
Definition State_update (self : loc) : M unit :=
  s <~ read self ;;
  match s with
  | AGame _ => Game_update self
  | ANewGameSetup _ => NewGameSetup_update self
  | ALobby _ => Lobby_update self
  | AMainMenu _ => MainMenu_update self
  | AVictory _ => Victory_update self
  | ACredits _ => Credits_update self
  end.

(** One turn of the loop of [MainLoop.run], on a stack that is not empty. *)
Definition tick (state : loc) : M unit :=
  State_draw state ;;; State_update state.

(** [MainLoop.run]: [Some tt] when the stack has emptied within [fuel]
    turns, [None] when the turns ran out first. *)
Fixpoint MainLoop_run (fuel : nat) : M (option unit) :=
  w <~ get ;;
  match last (_states w) with
  | None => ret (Some tt)
  | Some state =>
      match fuel with
      | O => ret None
      | S fuel' => tick state ;;; MainLoop_run fuel'
      end
  end.

(** [main]: one controller, a [MainMenu], a loop seeded with it. *)
Definition main_world (player : C) (fs : Files) (r : Rng) : World :=
  mkWorld {[ O := AMainMenu MainMenu.new ]} [O] fs player r [].

Definition main (fuel : nat) (player : C) (fs : Files) (r : Rng)
  : Outcome (option unit) :=
  MainLoop_run fuel (main_world player fs r).

End Program.

Arguments Raise {_ _ A} e.
Arguments Return {_ _ A} a w.

Notation "x <~ m ;; k" := (bind m (λ x, k))
  (at level 100, m at next level, right associativity).
Notation "m ;;; k" := (bind m (λ _, k))
  (at level 100, right associativity).

(** ** A platform to run on

    One implementation of the parameters, to evaluate the program on
    concrete inputs: a generator that walks through the range, the decimal
    conversion of the standard library for [int], and a byte encoding of the
    two pickled classes (a class tag, then each integer as a sign byte and
    its binary digits). *)
Module Sample.

Fixpoint put_positive (p : positive) : bytes :=
  match p with
  | xH => [Byte.x01]
  | xO q => Byte.x02 :: put_positive q
  | xI q => Byte.x03 :: put_positive q
  end.

Definition put_Z (z : Z) : bytes :=
  match z with
  | Z0 => [Byte.x00]
  | Zpos p => Byte.x2b :: put_positive p
  | Zneg p => Byte.x2d :: put_positive p
  end.

Fixpoint take_positive (b : bytes) : option (positive * bytes) :=
  match b with
  | Byte.x01 :: r => Some (xH, r)
  | Byte.x02 :: r => '(q, r') ← take_positive r; Some (xO q, r')
  | Byte.x03 :: r => '(q, r') ← take_positive r; Some (xI q, r')
  | _ => None
  end.

Definition take_Z (b : bytes) : option (Z * bytes) :=
  match b with
  | Byte.x00 :: r => Some (Z0, r)
  | Byte.x2b :: r => '(p, r') ← take_positive r; Some (Zpos p, r')
  | Byte.x2d :: r => '(p, r') ← take_positive r; Some (Zneg p, r')
  | _ => None
  end.

Definition put_action (a : option GameAction.t) : bytes :=
  match a with
  | None => [Byte.x00]
  | Some GameAction.GUESS => [Byte.x01]
  | Some GameAction.QUIT => [Byte.x02]
  end.

Definition take_action (b : bytes) : option (option GameAction.t * bytes) :=
  match b with
  | Byte.x00 :: r => Some (None, r)
  | Byte.x01 :: r => Some (Some GameAction.GUESS, r)
  | Byte.x02 :: r => Some (Some GameAction.QUIT, r)
  | _ => None
  end.

Definition put_difficulty (d : Difficulty.t) : bytes :=
  match d with
  | Difficulty.EASY => [Byte.x00]
  | Difficulty.MEDIUM => [Byte.x01]
  | Difficulty.HARD => [Byte.x02]
  end.

Definition take_difficulty (b : bytes) : option (Difficulty.t * bytes) :=
  match b with
  | Byte.x00 :: r => Some (Difficulty.EASY, r)
  | Byte.x01 :: r => Some (Difficulty.MEDIUM, r)
  | Byte.x02 :: r => Some (Difficulty.HARD, r)
  | _ => None
  end.

Definition dumps (o : Picklable) : bytes :=
  match o with
  | PGameState s =>
      Byte.x47
        :: put_Z (GameState.secret_number s)
        ++ put_Z (Player.guess (GameState.player s))
        ++ put_action (Player.action (GameState.player s))
        ++ put_difficulty (GameSettings.difficulty (GameState.settings s))
        ++ put_Z (GameReport.guess_count (GameState.report s))
        ++ put_Z (GameReport.score (GameState.report s))
  | PLobbyState s => Byte.x4c :: put_Z (LobbyState.score s)
  end.

Definition loads (b : bytes) : option Picklable :=
  match b with
  | Byte.x47 :: r =>
      '(secret, r) ← take_Z r;
      '(guess, r) ← take_Z r;
      '(action, r) ← take_action r;
      '(difficulty, r) ← take_difficulty r;
      '(guess_count, r) ← take_Z r;
      '(score, r) ← take_Z r;
      match r with
      | [] => Some (PGameState
                      (GameState.mk secret (Player.mk guess action)
                         (GameSettings.mk difficulty)
                         (GameReport.mk guess_count score)))
      | _ => None
      end
  | Byte.x4c :: r =>
      '(score, r) ← take_Z r;
      match r with
      | [] => Some (PLobbyState (LobbyState.mk score))
      | _ => None
      end
  | _ => None
  end.

(** The generator state is a counter; a draw from [a..b] is the counter
    folded into the range. *)
Definition next_in_range (a b : Z) (s : Z) : Z * Z :=
  (a + s `mod` (b - a + 1), s + 1).

Definition decimal (s : string) : option Z :=
  Z.of_int <$> NilZero.int_of_string s.

#[export] Instance platform : Platform := {|
  Rng := Z;
  randint := next_in_range;
  pickle_dumps := dumps;
  pickle_loads := loads;
  int := decimal |}.

End Sample.

(** ** Vocabulary of the properties *)

(** A bound handler is a method of a [Lobby]: its receiver is a lobby of the
    store.  ([Lobby.update] and [Lobby._handle_actions] create every child
    with [self._on_game_event] or [self._on_new_game_setup_event].) *)
Definition handler_ok (h : gmap loc State) (handler : EventHandler) : bool :=
  match handler with
  | NO_HANDLER => true
  | bound_on_game_event l | bound_on_new_game_setup_event l =>
      match h !! l with Some (ALobby _) => true | _ => false end
  end.

(** The store once [handler] has been told of a win with [report]: what
    [Lobby._on_game_event] adds to the score of its lobby. *)
Definition credited (handler : EventHandler) (report : GameReport.t)
    (h : gmap loc State) : gmap loc State :=
  match handler with
  | bound_on_game_event l =>
      match h !! l with
      | Some (ALobby lb) =>
          <[l := ALobby (Lobby.with_state
                           (LobbyState.mk (LobbyState.score (Lobby._state lb)
                                           + GameReport.score report)) lb)]> h
      | _ => h
      end
  | _ => h
  end.

(** A game whose report has counted one more guess: the assignment
    [self._state.report.guess_count += 1]. *)
Definition counted (g : Game.t) : Game.t :=
  let st := Game._state g in
  let r := GameState.report st in
  Game.with_state
    (GameState.with_report
       (GameReport.with_guess_count (GameReport.guess_count r + 1) r) st) g.

(** The notices of a run (to the controller or to the handler), and its
    operations on the navigation stack, in the order of the run. *)
Definition is_notice (e : Effect) : bool :=
  match e with Notified _ | Handled _ _ => true | _ => false end.

Definition is_stack_op (e : Effect) : bool :=
  match e with Popped _ | Pushed _ => true | _ => false end.

Definition is_write (e : Effect) : bool :=
  match e with Written _ _ => true | _ => false end.

Definition notices (es : list Effect) : list Effect := List.filter is_notice es.
Definition stack_ops (es : list Effect) : list Effect := List.filter is_stack_op es.
Definition writes (es : list Effect) : list Effect := List.filter is_write es.

Section Predicates.
Context `{Platform} {C : Type} `{!Controller C}.
Implicit Types (w : @World _ C) (self l : loc).

(** [wp m w Q]: from [w], [m] returns, with a result and a world in [Q]. *)
Definition wp {A} (m : M A) w (Q : A → @World _ C → Prop) : Prop :=
  match m w with Raise _ => False | Return a w' => Q a w' end.

(** [m] leaves the game snapshot alone: whenever it returns, the file is
    as it was, present or not. *)
Definition keeps_snapshot {A} (m : M A) : Prop :=
  ∀ w a w', m w = Return a w' →
            files w' !! SAVED_GAME_PATH = files w !! SAVED_GAME_PATH.

(** The guess counts of a world are in order: no game of the store has a
    negative count, and neither has the round in the game snapshot, if
    there is one that unpickles to a round. *)
Definition state_ok (s : State) : Prop :=
  match s with
  | AGame g => 0 ≤ GameReport.guess_count (GameState.report (Game._state g))
  | _ => True
  end.

Definition counts_ok w : Prop :=
  (∀ l s, heap w !! l = Some s → state_ok s)
  ∧ (∀ data s, files w !! SAVED_GAME_PATH = Some data →
               pickle_loads data = Some (PGameState s) →
               0 ≤ GameReport.guess_count (GameState.report s)).

(** The controller assigns intents: the game it was handed comes back with
    the report it had, and whatever [update] raises (the end of the input,
    for one), it is not a division by zero. *)
Definition controller_assigns_intents : Prop :=
  (∀ g fs c g' c',
     update_Game g fs c = inr (g', c') →
     GameState.report (Game._state g') = GameState.report (Game._state g))
  ∧ (∀ s fs c, Controller_update s fs c ≠ inl ZeroDivisionError).

(** [wlp m w Q]: from [w], [m] does not raise [ZeroDivisionError], and if
    it returns, the result and the world are in [Q]. *)
Definition wlp {A} (m : M A) w (Q : A → @World _ C → Prop) : Prop :=
  match m w with
  | Raise e => e ≠ ZeroDivisionError
  | Return a w' => Q a w'
  end.

(** [m] does not divide by zero and keeps the guess counts in order. *)
Definition safe {A} (m : M A) : Prop :=
  ∀ w, counts_ok w → wlp m w (λ _ w', counts_ok w').

(** [self] is the state that [MainLoop.run] is updating: a [Game] on top
    of the stack, whose handler is the one its creator gave it. *)
Definition Game_on_top w self (g : Game.t) (below : list loc) : Prop :=
  heap w !! self = Some (AGame g)
  ∧ _states w = below ++ [self]
  ∧ handler_ok (heap w) (Game._event_handler g) = true.

(** The round data that normal play can produce: a round just initialised,
    an intent assigned by the controller, an intent handled by the game on
    top of the stack, a snapshot written by [save_state] and read back by
    [load_state]. *)
Inductive normal_play : GameState.t → Prop :=
| fresh_round w self g0 settings w' g :
    heap w !! self = Some (AGame g0) →
    Game_initialize self settings w = Return tt w' →
    heap w' !! self = Some (AGame g) →
    normal_play (Game._state g)
| intent_assigned s p :
    normal_play s →
    normal_play (GameState.with_player p s)
| intent_handled w self g below w' g' :
    normal_play (Game._state g) →
    Game_on_top w self g below →
    Game_handle_action self w = Return tt w' →
    heap w' !! self = Some (AGame g') →
    normal_play (Game._state g')
| snapshot_loaded w self g w1 w2 l g2 w3 g3 :
    normal_play (Game._state g) →
    heap w !! self = Some (AGame g) →
    Game_save_state self w = Return tt w1 →
    files w2 !! SAVED_GAME_PATH = files w1 !! SAVED_GAME_PATH →
    heap w2 !! l = Some (AGame g2) →
    Game_load_state l w2 = Return tt w3 →
    heap w3 !! l = Some (AGame g3) →
    normal_play (Game._state g3).

End Predicates.

(** ** Concrete situations

    Worlds of the program running with a [HumanController] on the sample
    platform: a main menu, a lobby opened from it, and a third state on top
    of the lobby. *)
Module Scenario.

Definition lobby (score : Z) : Lobby.t :=
  Lobby.mk (LobbyState.mk score) (Some LobbyAction.NEW_GAME)
    GameSettings.default false true.

(** [top] is the state on top, created by the lobby. *)
Definition world_of {C : Type} (top : State) (player : C)
  : @World Sample.platform C :=
  @mkWorld Sample.platform C
    {[ 0%nat := AMainMenu (MainMenu.mk (Some MainMenuAction.NEW_LOBBY));
       1%nat := ALobby (lobby 0);
       2%nat := top ]}
    [0%nat; 1%nat; 2%nat] ∅ player 0 [].

(** The same with a [HumanController]; the player is going to type
    [console]. *)
Definition world (top : State) (console : list string)
  : @World Sample.platform HumanController.t :=
  world_of top (HumanController.new console).

(** A controller that leaves the state it is handed as it is: an
    implementation of [Controller] with nothing to report on this tick. *)
Definition unattended : Controller unit := {|
  update_Game g _ c := inr (g, c);
  update_NewGameSetup s _ c := inr (s, c);
  update_Lobby s _ c := inr (s, c);
  update_MainMenu s _ c := inr (s, c);
  update_Victory s _ c := inr (s, c);
  update_Credits s _ c := inr (s, c);
  draw _ _ c := c;
  on_event _ c := c |}.

(** A round in progress: the secret number, what the player has entered,
    the difficulty and the number of guesses made so far. *)
Definition round (secret : Z) (p : Player.t) (d : Difficulty.t) (guesses : Z)
  : Game.t :=
  Game.mk (GameState.mk secret p (GameSettings.mk d) (GameReport.mk guesses 0))
    (bound_on_game_event 1%nat) (Some None).

(** A game as [Lobby] constructs it, before [initialize] or
    [load_state]. *)
Definition new_game : Game.t :=
  Game.mk GameState.default (bound_on_game_event 1%nat) None.

Definition guessing (value : Z) : Player.t :=
  Player.mk value (Some GameAction.GUESS).

Definition quitting (value : Z) : Player.t :=
  Player.mk value (Some GameAction.QUIT).

End Scenario.


(** ** Vocabulary of the further properties *)

(** The store once [handler] has been told that [settings] are validated:
    what [Lobby._on_new_game_setup_event] stages in its lobby. *)
Definition staged (handler : EventHandler) (settings : GameSettings.t)
    (h : gmap loc State) : gmap loc State :=
  match handler with
  | bound_on_new_game_setup_event l =>
      match h !! l with
      | Some (ALobby lb) =>
          <[l := ALobby (Lobby.with_enabled false
                           (Lobby.with_create_game true
                              (Lobby.with_game_settings settings lb)))]> h
      | _ => h
      end
  | _ => h
  end.

(** A line that [_ask] passes over: it does not convert, or the value is
    not valid. *)
Definition refused {T} (type_ : string → option T) (validator : T → bool)
    (line : string) : Prop :=
  match type_ line with
  | None => True
  | Some value => validator value = false
  end.

(** The state as [update] hands it to the controller, for each class:
    [NewGameSetup], [Lobby] and [MainMenu] have reset their action; [Game]
    has assigned an attribute of its own; [Victory] and [Credits] go as
    they are.  A lobby that is creating its game, or that is disabled, does
    not ask the controller. *)
Definition handed (s : State) : option State :=
  match s with
  | AGame g => Some (AGame (Game.with_action None g))
  | ANewGameSetup x => Some (ANewGameSetup (NewGameSetup.with_action None x))
  | ALobby lb =>
      if Lobby._create_game lb then None
      else if negb (Lobby._enabled lb) then None
      else Some (ALobby (Lobby.with_action None lb))
  | AMainMenu m => Some (AMainMenu (MainMenu.with_action None m))
  | AVictory v => Some (AVictory v)
  | ACredits c => Some (ACredits c)
  end.

(** [P] holds on to what it has: writing a file keeps it. *)
Definition kept_by_writes (P : Files → Prop) : Prop :=
  ∀ fs path data, P fs → P (<[path := data]> fs).

Section FilePredicates.
Context `{Platform} {C : Type} `{!Controller C}.

(** On files in [P], [m] opens for reading only files that are there: it
    does not raise [FileNotFoundError], and the files it leaves are in [P]
    again. *)
Definition finds_files (P : Files → Prop) {A} (m : M A) : Prop :=
  ∀ w : @World _ C, P (files w) →
    match m w with
    | Raise e => e ≠ FileNotFoundError
    | Return _ w' => P (files w')
    end.


End FilePredicates.

Section IntentPredicates.
Context `{Platform} {C : Type} `{!Controller C}.

(** [m] leaves the game at [self] its player: when [self] is a game whose
    player is [p] and [m] returns, [self] is a game whose player is [p]. *)
Definition keeps_intent (self : loc) (p : Player.t) {A} (m : M A) : Prop :=
  ∀ (w : @World _ C) a w',
    (∃ g, heap w !! self = Some (AGame g) ∧ Game.player g = p) →
    m w = Return a w' →
    ∃ g', heap w' !! self = Some (AGame g') ∧ Game.player g' = p.

(** The controller never comes back from a game with the intent to
    quit. *)
Definition controller_never_quits : Prop :=
  ∀ g fs (c : C) g' c',
    update_Game g fs c = inr (g', c') →
    Player.action (Game.player g') ≠ Some GameAction.QUIT.

End IntentPredicates.

(** * Properties *)

Section Properties.
Context `{Platform} {C : Type} `{!Controller C}.
Implicit Types (w : @World _ C) (self l : loc).

(** ** Rules for running the methods *)

Lemma list_pop_snoc {A} (l : list A) x : list_pop (l ++ [x]) = Some (l, x).
Proof.
  unfold list_pop. rewrite reverse_snoc. simpl. by rewrite reverse_involutive.
Qed.

Lemma wp_elim {A} (m : M A) w Q :
  wp m w Q → ∃ a w', m w = Return a w' ∧ Q a w'.
Proof. unfold wp. destruct (m w); [done | eauto]. Qed.

Lemma wp_intro {A} (m : M A) w (Q : A → World → Prop) a w' :
  m w = Return a w' → Q a w' → wp m w Q.
Proof. unfold wp. by intros ->. Qed.

Lemma wp_unit (m : M unit) w Q :
  wp m w Q → ∃ w', m w = Return tt w' ∧ Q tt w'.
Proof. intros (a & w' & Hm & HQ)%wp_elim. destruct a. eauto. Qed.

Lemma wp_Return {A} (m : M A) w Q a w' :
  wp m w Q → m w = Return a w' → Q a w'.
Proof. unfold wp. intros HQ Hm. by rewrite Hm in HQ. Qed.

Lemma wp_mono {A} (m : M A) w (Q Q' : A → World → Prop) :
  wp m w Q → (∀ a w', Q a w' → Q' a w') → wp m w Q'.
Proof. unfold wp. destruct (m w); [done | auto]. Qed.

Lemma wp_bind {A B} (m : M A) (k : A → M B) w Q :
  wp m w (λ a w', wp (k a) w' Q) → wp (bind m k) w Q.
Proof. unfold wp, bind. by destruct (m w). Qed.

Lemma wp_ret {A} (a : A) w (Q : A → World → Prop) : Q a w → wp (ret a) w Q.
Proof. done. Qed.

Lemma wp_get w (Q : World → World → Prop) : Q w w → wp get w Q.
Proof. done. Qed.

Lemma wp_read l w s (Q : State → World → Prop) :
  heap w !! l = Some s → Q s w → wp (read l) w Q.
Proof. unfold wp, read. by intros ->. Qed.

Lemma wp_as_Game l w g (Q : Game.t → World → Prop) :
  heap w !! l = Some (AGame g) → Q g w → wp (as_Game l) w Q.
Proof. intros Hl HQ. apply wp_bind. by eapply wp_read. Qed.

Lemma wp_as_Lobby l w g (Q : Lobby.t → World → Prop) :
  heap w !! l = Some (ALobby g) → Q g w → wp (as_Lobby l) w Q.
Proof. intros Hl HQ. apply wp_bind. by eapply wp_read. Qed.

Lemma wp_as_Victory l w g (Q : Victory.t → World → Prop) :
  heap w !! l = Some (AVictory g) → Q g w → wp (as_Victory l) w Q.
Proof. intros Hl HQ. apply wp_bind. by eapply wp_read. Qed.

Lemma wp_as_Credits l w g (Q : Credits.t → World → Prop) :
  heap w !! l = Some (ACredits g) → Q g w → wp (as_Credits l) w Q.
Proof. intros Hl HQ. apply wp_bind. by eapply wp_read. Qed.

Lemma wp_emit e w (Q : unit → World → Prop) :
  Q tt (mkWorld (heap w) (_states w) (files w) (controller w) (rng w)
          (log w ++ [e])) →
  wp (emit e) w Q.
Proof. done. Qed.

Lemma wp_write l s w (Q : unit → World → Prop) :
  Q tt (mkWorld (<[l := s]> (heap w)) (_states w) (files w) (controller w)
          (rng w) (log w)) →
  wp (write l s) w Q.
Proof. done. Qed.

Lemma wp_alloc s w (Q : loc → World → Prop) :
  (∀ l, heap w !! l = None →
        Q l (mkWorld (<[l := s]> (heap w)) (_states w) (files w)
               (controller w) (rng w) (log w))) →
  wp (alloc s) w Q.
Proof. intros HQ. apply HQ. apply not_elem_of_dom, is_fresh. Qed.

Lemma wp_set_controller c w (Q : unit → World → Prop) :
  Q tt (mkWorld (heap w) (_states w) (files w) c (rng w) (log w)) →
  wp (set_controller c) w Q.
Proof. done. Qed.

Lemma wp_write_file path data w (Q : unit → World → Prop) :
  Q tt (mkWorld (heap w) (_states w) (<[path := data]> (files w))
          (controller w) (rng w) (log w ++ [Written path data])) →
  wp (write_file path data) w Q.
Proof. done. Qed.

Lemma wp_read_file path data w (Q : bytes → World → Prop) :
  files w !! path = Some data → Q data w → wp (read_file path) w Q.
Proof. unfold wp, read_file. by intros ->. Qed.

Lemma wp_loads data o w (Q : Picklable → World → Prop) :
  pickle_loads data = Some o → Q o w → wp (loads data) w Q.
Proof. unfold wp, loads. by intros ->. Qed.

Lemma wp_random_randint a b w (Q : Z → World → Prop) :
  a ≤ b →
  Q (randint a b (rng w)).1
    (mkWorld (heap w) (_states w) (files w) (controller w)
       (randint a b (rng w)).2 (log w)) →
  wp (random_randint a b) w Q.
Proof.
  intros Hab HQ. unfold wp, random_randint. rewrite decide_True by done.
  by destruct (randint a b (rng w)).
Qed.

Lemma wp_push state w (Q : unit → World → Prop) :
  Q tt (mkWorld (heap w) (_states w ++ [state]) (files w) (controller w)
          (rng w) (log w ++ [Pushed state])) →
  wp (MainLoop_push_state state) w Q.
Proof. done. Qed.

Lemma wp_pop w below top (Q : loc → World → Prop) :
  _states w = below ++ [top] →
  Q top (mkWorld (heap w) below (files w) (controller w) (rng w)
           (log w ++ [Popped top])) →
  wp MainLoop_pop_state w Q.
Proof.
  unfold wp, MainLoop_pop_state. intros ->. by rewrite list_pop_snoc.
Qed.

Lemma wp_controller_on_event event w (Q : unit → World → Prop) :
  Q tt (mkWorld (heap w) (_states w) (files w)
          (on_event event (controller w)) (rng w)
          (log w ++ [Notified event])) →
  wp (controller_on_event event) w Q.
Proof. done. Qed.

Lemma wp_when_true (m : M unit) w Q : wp m w Q → wp (when true m) w Q.
Proof. done. Qed.

Lemma wp_when_false (m : M unit) w (Q : unit → World → Prop) :
  Q tt w → wp (when false m) w Q.
Proof. done. Qed.

Ltac wp_lookup := cbn; (eassumption || by simplify_map_eq).

Ltac wp_step :=
  lazymatch goal with
  | |- wp (ret _) _ _ => apply wp_ret
  | |- wp (bind _ _) _ _ => apply wp_bind
  | |- wp (as_Game _) _ _ => eapply wp_as_Game; [wp_lookup |]
  | |- wp (as_Lobby _) _ _ => eapply wp_as_Lobby; [wp_lookup |]
  | |- wp (as_Victory _) _ _ => eapply wp_as_Victory; [wp_lookup |]
  | |- wp (as_Credits _) _ _ => eapply wp_as_Credits; [wp_lookup |]
  | |- wp (read _) _ _ => eapply wp_read; [wp_lookup |]
  | |- wp MainLoop_pop_state _ _ =>
      eapply wp_pop; [cbn; (eassumption || reflexivity) |]
  | |- wp (MainLoop_push_state _) _ _ => apply wp_push
  | |- wp (write _ _) _ _ => apply wp_write
  | |- wp (emit _) _ _ => apply wp_emit
  | |- wp get _ _ => apply wp_get
  | |- wp (set_controller _) _ _ => apply wp_set_controller
  | |- wp (write_file _ _) _ _ => apply wp_write_file
  | |- wp (controller_on_event _) _ _ => apply wp_controller_on_event
  | |- wp (when true _) _ _ => apply wp_when_true
  | |- wp (when false _) _ _ => apply wp_when_false
  end.

Ltac wp_go := repeat wp_step.

(** ** The handler of a game *)

Lemma credited_None handler report h l :
  h !! l = None → credited handler report h !! l = None.
Proof.
  intros Hl. destruct handler as [|l'|l']; simpl; try done.
  destruct (h !! l') as [[]|] eqn:E; try done.
  rewrite lookup_insert_ne; [done | congruence].
Qed.

Lemma credited_None_inv handler report h l :
  credited handler report h !! l = None → h !! l = None.
Proof.
  destruct handler as [|l'|l']; simpl; try done.
  destruct (h !! l') as [[]|] eqn:E; try done.
  destruct (decide (l' = l)) as [->|]; [by rewrite lookup_insert_eq |].
  by rewrite lookup_insert_ne.
Qed.

Lemma credited_not_Lobby handler report h l s :
  h !! l = Some s → (∀ lb, s ≠ ALobby lb) →
  credited handler report h !! l = Some s.
Proof.
  intros Hl Hs. destruct handler as [|l'|l']; simpl; try done.
  destruct (h !! l') as [[]|] eqn:E; try done.
  rewrite lookup_insert_ne; [done |]. intros ->. rewrite Hl in E.
  injection E as ->. by eapply Hs.
Qed.

Lemma handler_ok_insert_Game h handler l g g' :
  h !! l = Some (AGame g) → handler_ok h handler = true →
  handler_ok (<[l := AGame g']> h) handler = true.
Proof.
  intros Hl. destruct handler as [|l'|l']; simpl; try done;
    (destruct (decide (l = l')) as [<-|];
     [by rewrite Hl | by rewrite lookup_insert_ne]).
Qed.

Lemma wp_call_handler_win handler report w (Q : unit → World → Prop) :
  handler_ok (heap w) handler = true →
  Q tt (mkWorld (credited handler report (heap w)) (_states w) (files w)
          (controller w) (rng w)
          (log w ++ [Handled handler (OfGame (PlayerWin report))])) →
  wp (call_handler handler (OfGame (PlayerWin report))) w Q.
Proof.
  intros Hok HQ. unfold call_handler. apply wp_bind, wp_emit.
  destruct handler as [|l|l]; simpl in *;
    [apply wp_ret, HQ | | apply wp_ret, HQ].
  destruct (heap w !! l) as [[]|] eqn:E; try done.
  apply wp_bind. eapply wp_as_Lobby; [exact E |].
  apply wp_write. cbn. exact HQ.
Qed.

(** ** Game: what each branch of [_handle_action] does *)

Lemma compute_score_nonzero settings report :
  GameReport.guess_count report ≠ 0 →
  compute_score settings report
  = inr (DIFFICULTY_WIN_SCORE (GameSettings.difficulty settings)
         `div` GameReport.guess_count report).
Proof. intros Hn. unfold compute_score. by rewrite decide_False. Qed.

Lemma Game_check_guess_win w self g below :
  Game_on_top w self g below →
  Player.guess (Game.player g) = Game.secret_number g →
  GameReport.guess_count (GameState.report (Game._state g)) ≠ 0 →
  wp (Game_check_guess self) w (λ _ w', ∃ victory,
    let score :=
      DIFFICULTY_WIN_SCORE (GameSettings.difficulty (Game.settings g))
      `div` GameReport.guess_count (GameState.report (Game._state g)) in
    let r' := GameReport.with_score score (GameState.report (Game._state g)) in
    heap w' !! self
    = Some (AGame (Game.with_state
                     (GameState.with_report r' (Game._state g)) g)) ∧
    heap w' !! victory = Some (AVictory (Victory.mk (Game.settings g) r' false)) ∧
    heap w !! victory = None ∧
    _states w' = below ++ [victory] ∧
    files w' = files w ∧ controller w' = controller w ∧ rng w' = rng w ∧
    log w' = log w ++ [Handled (Game._event_handler g) (OfGame (PlayerWin r'));
                       Popped self; Pushed victory]).
Proof.
  intros (Hg & Hst & Hh) Heq Hn.
  unfold Game_check_guess.
  wp_go. rewrite bool_decide_eq_false_2 by lia.
  wp_go. rewrite bool_decide_eq_false_2 by lia.
  wp_go. rewrite bool_decide_eq_true_2 by done.
  wp_go. rewrite compute_score_nonzero by done. simpl lift.
  wp_go. cbn.
  apply wp_call_handler_win; [by eapply handler_ok_insert_Game |].
  wp_go.
  eapply wp_as_Game.
  { cbn. apply credited_not_Lobby; [apply lookup_insert_eq | done]. }
  apply wp_bind, wp_alloc. intros victory Hfresh. cbn in Hfresh.
  wp_go. cbn.
  exists victory.
  assert (Hv : heap w !! victory = None).
  { apply credited_None_inv in Hfresh.
    destruct (decide (self = victory)) as [->|];
      [by rewrite lookup_insert_eq in Hfresh
      | by rewrite lookup_insert_ne in Hfresh]. }
  assert (self ≠ victory) by (intros ->; congruence).
  repeat split; try done.
  - rewrite lookup_insert_ne by done.
    apply credited_not_Lobby; [apply lookup_insert_eq | done].
  - apply lookup_insert_eq.
  - by rewrite <- !app_assoc.
Qed.

Lemma wp_eq {A} (m : M A) w a0 w0 :
  wp m w (λ a w', a = a0 ∧ w' = w0) → m w = Return a0 w0.
Proof. intros (a & w' & -> & -> & ->)%wp_elim. done. Qed.

Lemma Game_on_top_counted w self g below :
  Game_on_top w self g below →
  Game_on_top
    (mkWorld (<[self := AGame (counted g)]> (heap w)) (_states w) (files w)
       (controller w) (rng w) (log w))
    self (counted g) below.
Proof.
  intros (Hg & Hst & Hh). split; [apply lookup_insert_eq |].
  split; [done |]. cbn. by eapply handler_ok_insert_Game.
Qed.

Lemma Game_handle_action_win w self g below :
  Game_on_top w self g below →
  Player.action (Game.player g) = Some GameAction.GUESS →
  Player.guess (Game.player g) = Game.secret_number g →
  GameReport.guess_count (GameState.report (Game._state g)) + 1 ≠ 0 →
  wp (Game_handle_action self) w (λ _ w', ∃ victory,
    let n := GameReport.guess_count (GameState.report (Game._state g)) + 1 in
    let score :=
      DIFFICULTY_WIN_SCORE (GameSettings.difficulty (Game.settings g))
      `div` n in
    let r' := GameReport.mk n score in
    heap w' !! self
    = Some (AGame (Game.with_state
                     (GameState.with_report r' (Game._state g)) g)) ∧
    heap w' !! victory = Some (AVictory (Victory.mk (Game.settings g) r' false)) ∧
    heap w !! victory = None ∧
    _states w' = below ++ [victory] ∧
    files w' = files w ∧ controller w' = controller w ∧ rng w' = rng w ∧
    log w' = log w ++ [Handled (Game._event_handler g) (OfGame (PlayerWin r'));
                       Popped self; Pushed victory]).
Proof.
  intros Htop Ha Heq Hn. pose proof Htop as (Hg & Hst & Hh).
  unfold Game_handle_action.
  wp_go. rewrite bool_decide_eq_true_2 by done.
  wp_go.
  eapply wp_mono.
  { apply (Game_check_guess_win _ self (counted g) below);
      [by apply Game_on_top_counted | done | done]. }
  cbn. intros [] w' (victory & Hself & Hvic & Hnew & Hst' & Hf & Hc & Hr & Hlog).
  wp_go.
  rewrite bool_decide_eq_false_2 by (cbn; unfold Game.player in Ha; congruence).
  wp_go. exists victory. repeat split; try done.
  destruct (decide (self = victory)) as [->|];
    [by rewrite lookup_insert_eq in Hnew | by rewrite lookup_insert_ne in Hnew].
Qed.

Lemma Game_handle_action_high w self g :
  heap w !! self = Some (AGame g) →
  Player.action (Game.player g) = Some GameAction.GUESS →
  Player.guess (Game.player g) > Game.secret_number g →
  Game_handle_action self w
  = Return tt
      (mkWorld (<[self := AGame (counted g)]> (heap w)) (_states w) (files w)
         (on_event (OfGame GuessTooHigh) (controller w)) (rng w)
         (log w ++ [Notified (OfGame GuessTooHigh)])).
Proof.
  intros Hg Ha Hgt. apply wp_eq. unfold Game_handle_action.
  wp_go. rewrite bool_decide_eq_true_2 by done.
  wp_go. unfold Game_check_guess.
  wp_go. rewrite bool_decide_eq_true_2 by done.
  wp_go. rewrite bool_decide_eq_false_2 by (unfold Game.player, Game.secret_number in *; cbn; lia).
  wp_go. rewrite bool_decide_eq_false_2 by (unfold Game.player, Game.secret_number in *; cbn; lia).
  wp_go. rewrite bool_decide_eq_false_2 by (unfold Game.player in *; cbn; congruence).
  wp_go. done.
Qed.

Lemma Game_handle_action_low w self g :
  heap w !! self = Some (AGame g) →
  Player.action (Game.player g) = Some GameAction.GUESS →
  Player.guess (Game.player g) < Game.secret_number g →
  Game_handle_action self w
  = Return tt
      (mkWorld (<[self := AGame (counted g)]> (heap w)) (_states w) (files w)
         (on_event (OfGame GuessTooLow) (controller w)) (rng w)
         (log w ++ [Notified (OfGame GuessTooLow)])).
Proof.
  intros Hg Ha Hlt. apply wp_eq. unfold Game_handle_action.
  wp_go. rewrite bool_decide_eq_true_2 by done.
  wp_go. unfold Game_check_guess.
  wp_go. rewrite bool_decide_eq_false_2 by (unfold Game.player, Game.secret_number in *; cbn; lia).
  wp_go. rewrite bool_decide_eq_true_2 by done.
  wp_go. rewrite bool_decide_eq_false_2 by (unfold Game.player, Game.secret_number in *; cbn; lia).
  wp_go. rewrite bool_decide_eq_false_2 by (unfold Game.player in *; cbn; congruence).
  wp_go. done.
Qed.

Lemma Game_handle_action_quit w self g below :
  heap w !! self = Some (AGame g) →
  _states w = below ++ [self] →
  Player.action (Game.player g) = Some GameAction.QUIT →
  Game_handle_action self w
  = Return tt
      (mkWorld (heap w) below
         (<[SAVED_GAME_PATH := pickle_dumps (PGameState (Game._state g))]>
            (files w))
         (controller w) (rng w)
         (log w ++ [Written SAVED_GAME_PATH
                      (pickle_dumps (PGameState (Game._state g)));
                    Popped self])).
Proof.
  intros Hg Hst Ha. apply wp_eq. unfold Game_handle_action.
  wp_go. rewrite bool_decide_eq_false_2 by congruence.
  wp_go. rewrite bool_decide_eq_true_2 by done.
  unfold Game_save_state. wp_go. cbn. by rewrite <- app_assoc.
Qed.

Lemma Game_handle_action_idle w self g :
  heap w !! self = Some (AGame g) →
  Player.action (Game.player g) = None →
  Game_handle_action self w = Return tt w.
Proof.
  intros Hg Ha. apply wp_eq. unfold Game_handle_action.
  wp_go. rewrite bool_decide_eq_false_2 by congruence.
  wp_go. rewrite bool_decide_eq_false_2 by congruence.
  wp_go. done.
Qed.


(** ** Scoring *)

Lemma DIFFICULTY_WIN_SCORE_pos d : 0 < DIFFICULTY_WIN_SCORE d.
Proof. by destruct d. Qed.

(** C1. For every difficulty and every guess count [n ≥ 1], the score is
    the win-score baseline of the difficulty integer-divided by [n], and the
    division truncates; when the game on top of the stack handles its
    [n]-th guess and the guess is the secret number, that score is the one
    stored in the report, sent with [PlayerWin] and shown by the [Victory]
    state that ends up on top. *)
Theorem score_on_winning_guess w self g below n :
  Game_on_top w self g below →
  Player.action (Game.player g) = Some GameAction.GUESS →
  Player.guess (Game.player g) = Game.secret_number g →
  n = GameReport.guess_count (GameState.report (Game._state g)) + 1 →
  1 ≤ n →
  let baseline :=
    DIFFICULTY_WIN_SCORE (GameSettings.difficulty (Game.settings g)) in
  (∀ d s, compute_score (GameSettings.mk d) (GameReport.mk n s)
          = inr (DIFFICULTY_WIN_SCORE d `div` n)
          ∧ DIFFICULTY_WIN_SCORE d `div` n = DIFFICULTY_WIN_SCORE d `quot` n)
  ∧ compute_score (Game.settings g) (GameState.report (Game._state (counted g)))
    = inr (baseline `div` n)
  ∧ ∃ w' victory,
      Game_handle_action self w = Return tt w'
      ∧ last (_states w') = Some victory
      ∧ heap w' !! victory
        = Some (AVictory (Victory.mk (Game.settings g)
                            (GameReport.mk n (baseline `div` n)) false))
      ∧ log w' = log w ++ [Handled (Game._event_handler g)
                             (OfGame (PlayerWin
                                        (GameReport.mk n (baseline `div` n))));
                           Popped self; Pushed victory].
Proof.
  intros Htop Ha Heq -> Hn baseline. split; [| split].
  - intros d s. split.
    + by rewrite compute_score_nonzero by (cbn; lia).
    + symmetry. apply Z.quot_div_nonneg; [| lia].
      pose proof (DIFFICULTY_WIN_SCORE_pos d). lia.
  - by rewrite compute_score_nonzero by (cbn; lia).
  - destruct (wp_unit _ _ _ (Game_handle_action_win w self g below Htop Ha Heq
                               ltac:(lia)))
      as (w' & Hrun & victory & _ & Hvic & _ & Hst & _ & _ & _ & Hlog).
    exists w', victory. repeat split; try done.
    rewrite Hst. apply last_snoc.
Qed.


(** ** Notices, stack operations and files of one guess *)

(** What handling an intent other than [QUIT] leaves behind, whatever the
    guess: the run returns, the files are the same, and the new entries of
    the log are one of three. *)
Lemma Game_handle_action_guess w self g below :
  Game_on_top w self g below →
  Player.action (Game.player g) = Some GameAction.GUESS →
  0 ≤ GameReport.guess_count (GameState.report (Game._state g)) →
  ∃ w' es,
    Game_handle_action self w = Return tt w'
    ∧ log w' = log w ++ es
    ∧ files w' = files w
    ∧ (Player.guess (Game.player g) > Game.secret_number g →
       es = [Notified (OfGame GuessTooHigh)] ∧ _states w' = _states w)
    ∧ (Player.guess (Game.player g) < Game.secret_number g →
       es = [Notified (OfGame GuessTooLow)] ∧ _states w' = _states w)
    ∧ (Player.guess (Game.player g) = Game.secret_number g →
       ∃ victory report,
         es = [Handled (Game._event_handler g) (OfGame (PlayerWin report));
               Popped self; Pushed victory]
         ∧ heap w !! victory = None
         ∧ heap w' !! victory
           = Some (AVictory (Victory.mk (Game.settings g) report false))
         ∧ _states w' = below ++ [victory]).
Proof.
  intros Htop Ha Hn. pose proof Htop as (Hg & Hst & Hh).
  destruct (Z.lt_trichotomy (Player.guess (Game.player g))
              (Game.secret_number g)) as [Hlt | [Heq | Hgt]].
  - eexists _, [Notified (OfGame GuessTooLow)].
    split; [by apply Game_handle_action_low |].
    cbn. split; [done |]. split; [done |].
    split; [intros; lia |]. split; [done |]. intros; lia.
  - destruct (wp_unit _ _ _ (Game_handle_action_win w self g below Htop Ha Heq
                               ltac:(lia)))
      as (w' & Hrun & victory & _ & Hvic & Hnew & Hst' & Hf & _ & _ & Hlog).
    eexists w', _. split; [done |]. split; [exact Hlog |].
    split; [done |]. repeat split; try lia.
    intros _. by eexists victory, _.
  - eexists _, [Notified (OfGame GuessTooHigh)].
    split; [apply Game_handle_action_high; [done | done | lia] |].
    cbn. split; [done |]. split; [done |].
    split; [done |]. split; [intros; lia |]. intros; lia.
Qed.

(** C5. Every [GUESS] intent handled by the game on top fires exactly one
    notice: only [GuessTooHigh] (to the controller) for a guess above the
    secret number, only [GuessTooLow] for a guess below it, only
    [PlayerWin] (to the handler) for a guess equal to it. *)
Theorem exactly_one_notice_per_guess w self g below :
  Game_on_top w self g below →
  Player.action (Game.player g) = Some GameAction.GUESS →
  0 ≤ GameReport.guess_count (GameState.report (Game._state g)) →
  ∃ w' es,
    Game_handle_action self w = Return tt w'
    ∧ log w' = log w ++ es
    ∧ length (notices es) = 1%nat
    ∧ (Player.guess (Game.player g) > Game.secret_number g →
       notices es = [Notified (OfGame GuessTooHigh)])
    ∧ (Player.guess (Game.player g) < Game.secret_number g →
       notices es = [Notified (OfGame GuessTooLow)])
    ∧ (Player.guess (Game.player g) = Game.secret_number g →
       ∃ report,
         notices es
         = [Handled (Game._event_handler g) (OfGame (PlayerWin report))]).
Proof.
  intros Htop Ha Hn.
  destruct (Game_handle_action_guess w self g below Htop Ha Hn)
    as (w' & es & Hrun & Hlog & _ & Hhigh & Hlow & Hwin).
  exists w', es. split; [done |]. split; [done |].
  assert (Hcases :
    (Player.guess (Game.player g) > Game.secret_number g →
     notices es = [Notified (OfGame GuessTooHigh)])
    ∧ (Player.guess (Game.player g) < Game.secret_number g →
       notices es = [Notified (OfGame GuessTooLow)])
    ∧ (Player.guess (Game.player g) = Game.secret_number g →
       ∃ report,
         notices es
         = [Handled (Game._event_handler g) (OfGame (PlayerWin report))])).
  { split; [| split].
    - intros Hc. by destruct (Hhigh Hc) as [-> _].
    - intros Hc. by destruct (Hlow Hc) as [-> _].
    - intros Hc. destruct (Hwin Hc) as (victory & report & -> & _).
      by exists report. }
  split; [| exact Hcases]. destruct Hcases as (Hh & Hl & He).
  destruct (Z.lt_trichotomy (Player.guess (Game.player g))
              (Game.secret_number g)) as [Hlt | [Heq | Hgt]].
  - by rewrite Hl.
  - destruct (He Heq) as [report ->]. done.
  - by rewrite Hh by lia.
Qed.

(** C4, as the code has it.  When a [GUESS] intent equal to the secret
    number is handled, exactly one state is popped, the game itself, and
    then exactly one state is pushed, a new [Victory]: the pop comes first.
    The stack keeps its depth and has the [Victory] on top. *)
Theorem win_pops_game_then_pushes_victory w self g below :
  Game_on_top w self g below →
  Player.action (Game.player g) = Some GameAction.GUESS →
  Player.guess (Game.player g) = Game.secret_number g →
  0 ≤ GameReport.guess_count (GameState.report (Game._state g)) →
  ∃ w' es victory v,
    Game_handle_action self w = Return tt w'
    ∧ log w' = log w ++ es
    ∧ stack_ops es = [Popped self; Pushed victory]
    ∧ heap w !! victory = None
    ∧ heap w' !! victory = Some (AVictory v)
    ∧ _states w' = below ++ [victory]
    ∧ length (_states w') = length (_states w).
Proof.
  intros Htop Ha Heq Hn.
  destruct (Game_handle_action_guess w self g below Htop Ha Hn)
    as (w' & es & Hrun & Hlog & _ & _ & _ & Hwin).
  destruct (Hwin Heq) as (victory & report & -> & Hnew & Hvic & Hst').
  destruct Htop as (_ & Hst & _).
  eexists w', _, victory, _. repeat split; try done.
  rewrite Hst', Hst. by rewrite !length_app.
Qed.

(** ** Who writes the game snapshot *)

Local Abbreviation keeps := (keeps_snapshot (C := C)).

Lemma bind_Return_inv {A B} (m : M A) (k : A → M B) w b w' :
  bind m k w = Return b w' →
  ∃ a w1, m w = Return a w1 ∧ k a w1 = Return b w'.
Proof. unfold bind. destruct (m w) as [e | a w1]; [done | eauto]. Qed.

Lemma keeps_ret {A} (a : A) : keeps (ret a).
Proof. intros w a' w' Hrun. unfold ret in Hrun. by simplify_eq. Qed.

Lemma keeps_raise {A} e : keeps (raise (A := A) e).
Proof. intros w a w' Hrun. discriminate Hrun. Qed.

Lemma keeps_bind {A B} (m : M A) (k : A → M B) :
  keeps m → (∀ a, keeps (k a)) → keeps (bind m k).
Proof.
  intros Hm Hk w b w' (a & w1 & Hrun1 & Hrun2)%bind_Return_inv.
  rewrite (Hk a _ _ _ Hrun2). by eapply Hm.
Qed.

Lemma keeps_when b (m : M unit) : keeps m → keeps (when b m).
Proof. destruct b; [done | intros _; apply keeps_ret]. Qed.

Lemma keeps_lift {A} (r : Exception + A) : keeps (lift r).
Proof. destruct r; [apply keeps_raise | apply keeps_ret]. Qed.

Lemma keeps_get : keeps get.
Proof. intros w a w' Hrun. unfold get in Hrun. by simplify_eq. Qed.

Lemma keeps_emit e : keeps (emit e).
Proof. intros w a w' Hrun. unfold emit in Hrun. by simplify_eq. Qed.

Lemma keeps_read l : keeps (read l).
Proof.
  intros w a w' Hrun. unfold read in Hrun.
  destruct (heap w !! l); by simplify_eq.
Qed.

Lemma keeps_write l s : keeps (write l s).
Proof. intros w a w' Hrun. unfold write in Hrun. by simplify_eq. Qed.

Lemma keeps_alloc s : keeps (alloc s).
Proof. intros w a w' Hrun. unfold alloc in Hrun. by simplify_eq. Qed.

Lemma keeps_set_controller c : keeps (set_controller c).
Proof.
  intros w a w' Hrun. unfold set_controller in Hrun. by simplify_eq.
Qed.

Lemma keeps_push state : keeps (MainLoop_push_state state).
Proof.
  intros w a w' Hrun. unfold MainLoop_push_state in Hrun. by simplify_eq.
Qed.

Lemma keeps_pop : keeps MainLoop_pop_state.
Proof.
  intros w a w' Hrun. unfold MainLoop_pop_state in Hrun.
  destruct (list_pop (_states w)) as [[rest top]|]; by simplify_eq.
Qed.

Lemma keeps_read_file path : keeps (read_file path).
Proof.
  intros w a w' Hrun. unfold read_file in Hrun.
  destruct (files w !! path); by simplify_eq.
Qed.

Lemma keeps_loads data : keeps (loads data).
Proof.
  unfold loads. destruct (pickle_loads data);
    [apply keeps_ret | apply keeps_raise].
Qed.

Lemma keeps_random_randint a b : keeps (random_randint a b).
Proof.
  intros w n w' Hrun. unfold random_randint in Hrun.
  destruct (decide (a ≤ b)); [| done].
  destruct (randint a b (rng w)). by simplify_eq.
Qed.

(** Writing another file than the game snapshot. *)
Lemma keeps_write_file path data :
  path ≠ SAVED_GAME_PATH → keeps (write_file path data).
Proof.
  intros Hpath w a w' Hrun. unfold write_file in Hrun. simplify_eq. cbn.
  by rewrite lookup_insert_ne.
Qed.

Ltac keeps_step :=
  lazymatch goal with
  | |- keeps (ret _) => apply keeps_ret
  | |- keeps (raise _) => apply keeps_raise
  | |- keeps (bind _ _) => apply keeps_bind; [| intros ?]
  | |- keeps (when _ _) => apply keeps_when
  | |- keeps (lift _) => apply keeps_lift
  | |- keeps get => apply keeps_get
  | |- keeps (emit _) => apply keeps_emit
  | |- keeps (read _) => apply keeps_read
  | |- keeps (write _ _) => apply keeps_write
  | |- keeps (alloc _) => apply keeps_alloc
  | |- keeps (set_controller _) => apply keeps_set_controller
  | |- keeps (MainLoop_push_state _) => apply keeps_push
  | |- keeps MainLoop_pop_state => apply keeps_pop
  | |- keeps (read_file _) => apply keeps_read_file
  | |- keeps (loads _) => apply keeps_loads
  | |- keeps (random_randint _ _) => apply keeps_random_randint
  | |- keeps (write_file _ _) => apply keeps_write_file; done
  | |- keeps (match ?x with _ => _ end) => destruct x
  end.

Ltac keeps_go := repeat keeps_step.

Lemma keeps_as_Game l : keeps (as_Game l).
Proof. unfold as_Game. keeps_go. Qed.
Lemma keeps_as_NewGameSetup l : keeps (as_NewGameSetup l).
Proof. unfold as_NewGameSetup. keeps_go. Qed.
Lemma keeps_as_Lobby l : keeps (as_Lobby l).
Proof. unfold as_Lobby. keeps_go. Qed.
Lemma keeps_as_MainMenu l : keeps (as_MainMenu l).
Proof. unfold as_MainMenu. keeps_go. Qed.
Lemma keeps_as_Victory l : keeps (as_Victory l).
Proof. unfold as_Victory. keeps_go. Qed.
Lemma keeps_as_Credits l : keeps (as_Credits l).
Proof. unfold as_Credits. keeps_go. Qed.

Lemma keeps_controller_update self : keeps (controller_update self).
Proof.
  unfold controller_update. keeps_go.
Qed.

Lemma keeps_controller_on_event event :
  keeps (controller_on_event event).
Proof. unfold controller_on_event. keeps_go. Qed.

Lemma keeps_controller_draw self : keeps (controller_draw self).
Proof. unfold controller_draw. keeps_go. Qed.

Lemma keeps_call_handler handler event :
  keeps (call_handler handler event).
Proof.
  unfold call_handler, Lobby_on_game_event, Lobby_on_new_game_setup_event.
  keeps_go; first [apply keeps_as_Lobby | idtac]; keeps_go.
Qed.

Lemma keeps_Game_check_guess self : keeps (Game_check_guess self).
Proof.
  unfold Game_check_guess.
  repeat first [ apply keeps_as_Game | apply keeps_controller_on_event
               | apply keeps_call_handler | keeps_step ].
Qed.

Lemma keeps_Game_initialize self settings :
  keeps (Game_initialize self settings).
Proof.
  unfold Game_initialize. repeat first [apply keeps_as_Game | keeps_step].
Qed.

Lemma keeps_Game_load_state self : keeps (Game_load_state self).
Proof.
  unfold Game_load_state. repeat first [apply keeps_as_Game | keeps_step].
Qed.

Lemma keeps_NewGameSetup_update self :
  keeps (NewGameSetup_update self).
Proof.
  unfold NewGameSetup_update, NewGameSetup_handle_action.
  repeat first [ apply keeps_as_NewGameSetup | apply keeps_controller_update
               | apply keeps_call_handler | keeps_step ].
Qed.

Lemma keeps_Lobby_update self : keeps (Lobby_update self).
Proof.
  unfold Lobby_update, Lobby_handle_actions, Lobby_save_state.
  apply keeps_bind; [apply keeps_as_Lobby | intros lb].
  destruct (Lobby._create_game lb); [| destruct (negb (Lobby._enabled lb))];
    repeat first [ apply keeps_as_Lobby | apply keeps_controller_update
                 | apply keeps_Game_initialize | apply keeps_Game_load_state
                 | keeps_step ].
Qed.

Lemma keeps_MainMenu_update self : keeps (MainMenu_update self).
Proof.
  unfold MainMenu_update, MainMenu_handle_actions, Lobby_initialize,
    Lobby_load_state.
  repeat first [ apply keeps_as_MainMenu | apply keeps_as_Lobby
               | apply keeps_controller_update | keeps_step ].
Qed.

Lemma keeps_Victory_update self : keeps (Victory_update self).
Proof.
  unfold Victory_update.
  repeat first [ apply keeps_as_Victory | apply keeps_controller_update
               | keeps_step ].
Qed.

Lemma keeps_Credits_update self : keeps (Credits_update self).
Proof.
  unfold Credits_update.
  repeat first [ apply keeps_as_Credits | apply keeps_controller_update
               | keeps_step ].
Qed.

Lemma keeps_State_draw self : keeps (State_draw self).
Proof.
  unfold State_draw, Lobby_draw.
  apply keeps_bind; [apply keeps_read | intros s].
  destruct s; try apply keeps_controller_draw.
  apply keeps_bind; [apply keeps_as_Lobby | intros lb].
  destruct (negb (Lobby._enabled lb));
    [apply keeps_ret | apply keeps_controller_draw].
Qed.

Lemma as_Game_Return_inv l w g w' :
  as_Game l w = Return g w' → w' = w ∧ heap w !! l = Some (AGame g).
Proof.
  unfold as_Game, bind, read, ret, raise. intros Hrun.
  destruct (heap w !! l) as [[]|]; by simplify_eq.
Qed.

(** [Game._handle_action] changes the game snapshot only in its [QUIT]
    branch, and the game then still holds that intent. *)
Lemma Game_handle_action_writes_on_quit self w w' :
  Game_handle_action self w = Return tt w' →
  files w' !! SAVED_GAME_PATH ≠ files w !! SAVED_GAME_PATH →
  ∃ g, heap w' !! self = Some (AGame g)
       ∧ Player.action (Game.player g) = Some GameAction.QUIT.
Proof.
  unfold Game_handle_action.
  intros (g & w1 & Hg & Hrun)%bind_Return_inv Hfiles.
  apply as_Game_Return_inv in Hg as [-> Hg].
  apply bind_Return_inv in Hrun as ([] & w2 & Hguess & Hrun).
  apply bind_Return_inv in Hrun as (g2 & w3 & Hg2 & Hrun).
  apply as_Game_Return_inv in Hg2 as [-> Hg2].
  assert (Hkeep : files w2 !! SAVED_GAME_PATH = files w !! SAVED_GAME_PATH).
  { revert Hguess. apply keeps_when.
    repeat first [apply keeps_Game_check_guess | keeps_step]. }
  destruct (bool_decide_reflect
              (Player.action (Game.player g2) = Some GameAction.QUIT))
    as [Hquit | Hother].
  - exists g2. split; [| done].
    cbn [when] in Hrun.
    apply bind_Return_inv in Hrun as ([] & w4 & Hsave & Hrun).
    apply bind_Return_inv in Hrun as (top & w5 & Hpop & Hrun).
    unfold ret in Hrun. simplify_eq.
    unfold Game_save_state in Hsave.
    apply bind_Return_inv in Hsave as (g3 & w6 & Hg3 & Hsave).
    apply as_Game_Return_inv in Hg3 as [-> Hg3].
    unfold write_file in Hsave. simplify_eq.
    unfold MainLoop_pop_state in Hpop. cbn in Hpop.
    destruct (list_pop (_states w2)) as [[rest top']|]; by simplify_eq.
  - cbn [when] in Hrun. unfold ret in Hrun.
    simplify_eq; by rewrite Hkeep in Hfiles.
Qed.

(** One update of whatever state is on top: if the game snapshot is not
    what it was, the state is a game and its intent is [QUIT]. *)
Lemma State_update_writes_on_quit self w w' :
  State_update self w = Return tt w' →
  files w' !! SAVED_GAME_PATH ≠ files w !! SAVED_GAME_PATH →
  ∃ g, heap w' !! self = Some (AGame g)
       ∧ Player.action (Game.player g) = Some GameAction.QUIT.
Proof.
  unfold State_update.
  intros (s & w1 & Hs & Hrun)%bind_Return_inv Hfiles.
  pose proof (keeps_read _ _ _ _ Hs) as Hk1.
  destruct s.
  - unfold Game_update in Hrun.
    apply bind_Return_inv in Hrun as (g & w2 & Hg & Hrun).
    apply bind_Return_inv in Hrun as ([] & w3 & Hw & Hrun).
    apply bind_Return_inv in Hrun as ([] & w4 & Hc & Hrun).
    apply (Game_handle_action_writes_on_quit self w4 w' Hrun).
    rewrite (keeps_controller_update _ _ _ _ Hc), (keeps_write _ _ _ _ _ Hw),
      (keeps_as_Game _ _ _ _ Hg), Hk1.
    exact Hfiles.
  - by rewrite (keeps_NewGameSetup_update _ _ _ _ Hrun), Hk1 in Hfiles.
  - by rewrite (keeps_Lobby_update _ _ _ _ Hrun), Hk1 in Hfiles.
  - by rewrite (keeps_MainMenu_update _ _ _ _ Hrun), Hk1 in Hfiles.
  - by rewrite (keeps_Victory_update _ _ _ _ Hrun), Hk1 in Hfiles.
  - by rewrite (keeps_Credits_update _ _ _ _ Hrun), Hk1 in Hfiles.
Qed.

(** One turn of the main loop, drawing included. *)
Lemma tick_writes_on_quit self w w' :
  tick self w = Return tt w' →
  files w' !! SAVED_GAME_PATH ≠ files w !! SAVED_GAME_PATH →
  ∃ g, heap w' !! self = Some (AGame g)
       ∧ Player.action (Game.player g) = Some GameAction.QUIT.
Proof.
  unfold tick. intros ([] & w1 & Hdraw & Hrun)%bind_Return_inv Hfiles.
  apply (State_update_writes_on_quit self w1 w' Hrun).
  by rewrite (keeps_State_draw _ _ _ _ Hdraw).
Qed.

(** C10. Winning a round does not write the game snapshot.  For the game
    on top of the stack, handling an intent that is not [QUIT] (a winning
    guess with its score, win event, pop and push of [Victory]; a losing
    guess; no intent) returns and leaves every file as it was.  And over
    the whole program: a turn of the main loop after which the game
    snapshot is not what it was before is the turn of a game whose intent
    is [QUIT]. *)
Theorem win_writes_no_snapshot w self :
  (∀ g below,
     Game_on_top w self g below →
     Player.action (Game.player g) ≠ Some GameAction.QUIT →
     0 ≤ GameReport.guess_count (GameState.report (Game._state g)) →
     ∃ w' es,
       Game_handle_action self w = Return tt w'
       ∧ log w' = log w ++ es
       ∧ writes es = []
       ∧ files w' = files w
       ∧ files w' !! SAVED_GAME_PATH = files w !! SAVED_GAME_PATH
       ∧ (Player.action (Game.player g) = Some GameAction.GUESS →
          Player.guess (Game.player g) = Game.secret_number g →
          ∃ victory v, last (_states w') = Some victory
                       ∧ heap w' !! victory = Some (AVictory v)))
  ∧ (∀ w',
       tick self w = Return tt w' →
       files w' !! SAVED_GAME_PATH ≠ files w !! SAVED_GAME_PATH →
       ∃ g, heap w' !! self = Some (AGame g)
            ∧ Player.action (Game.player g) = Some GameAction.QUIT).
Proof.
  split; [| intros w'; apply tick_writes_on_quit].
  intros g below Htop Ha Hn.
  destruct (Player.action (Game.player g)) as [[]|] eqn:Hact; [| done |].
  - destruct (Game_handle_action_guess w self g below Htop Hact Hn)
      as (w' & es & Hrun & Hlog & Hf & Hhigh & Hlow & Hwin).
    exists w', es. split; [done |]. split; [done |].
    split; [| split; [done | split; [by rewrite Hf |]]].
    + destruct (Z.lt_trichotomy (Player.guess (Game.player g))
                  (Game.secret_number g)) as [Hlt | [Heq | Hgt]].
      * by destruct (Hlow Hlt) as [-> _].
      * by destruct (Hwin Heq) as (victory & report & -> & _).
      * by destruct (Hhigh ltac:(lia)) as [-> _].
    + intros _ Heq.
      destruct (Hwin Heq) as (victory & report & _ & _ & Hvic & Hst').
      eexists victory, _. split; [| done]. rewrite Hst'. apply last_snoc.
  - destruct Htop as (Hg & _). exists w, [].
    split; [by apply (Game_handle_action_idle w self g) |].
    rewrite app_nil_r. repeat split; done.
Qed.

(** ** What the controller is handed *)

Lemma wp_controller_update_Game w self g g' c' (Q : unit → World → Prop) :
  heap w !! self = Some (AGame g) →
  update_Game g (files w) (controller w) = inr (g', c') →
  Q tt (mkWorld (<[self := AGame g']> (heap w)) (_states w) (files w) c'
          (rng w) (log w ++ [Asked self (AGame g)])) →
  wp (controller_update self) w Q.
Proof.
  intros Hs Hu HQ. unfold controller_update.
  wp_go. cbn. rewrite Hu. cbn. wp_go. exact HQ.
Qed.

Lemma wp_controller_update_Victory w self v v' c' (Q : unit → World → Prop) :
  heap w !! self = Some (AVictory v) →
  update_Victory v (files w) (controller w) = inr (v', c') →
  Q tt (mkWorld (<[self := AVictory v']> (heap w)) (_states w) (files w) c'
          (rng w) (log w ++ [Asked self (AVictory v)])) →
  wp (controller_update self) w Q.
Proof.
  intros Hs Hu HQ. unfold controller_update.
  wp_go. cbn. rewrite Hu. cbn. wp_go. exact HQ.
Qed.

Lemma wp_controller_update_Credits w self v v' c' (Q : unit → World → Prop) :
  heap w !! self = Some (ACredits v) →
  update_Credits v (files w) (controller w) = inr (v', c') →
  Q tt (mkWorld (<[self := ACredits v']> (heap w)) (_states w) (files w) c'
          (rng w) (log w ++ [Asked self (ACredits v)])) →
  wp (controller_update self) w Q.
Proof.
  intros Hs Hu HQ. unfold controller_update.
  wp_go. cbn. rewrite Hu. cbn. wp_go. exact HQ.
Qed.

(** [Game.update] starts by assigning the attribute [_action] of the game;
    the controller is then handed the game with the player it had. *)
Lemma Game_update_hands_over w self g :
  heap w !! self = Some (AGame g) →
  Game_update self w
  = (controller_update self ;;; Game_handle_action self)
      (mkWorld (<[self := AGame (Game.with_action None g)]> (heap w))
         (_states w) (files w) (controller w) (rng w) (log w))
  ∧ Game.player (Game.with_action None g) = Game.player g.
Proof.
  intros Hg. split; [| done].
  unfold Game_update, bind at 1, as_Game, bind at 1, read. by rewrite Hg.
Qed.

(** ** Victory and Credits *)

Lemma Victory_update_run w self below v v' c' :
  _states w = below ++ [self] →
  heap w !! self = Some (AVictory v) →
  update_Victory v (files w) (controller w) = inr (v', c') →
  Victory_update self w
  = Return tt
      (mkWorld (<[self := AVictory v']> (heap w))
         (if Victory._go_next v' then below else _states w)
         (files w) c' (rng w)
         (log w ++ Asked self (AVictory v)
                :: if Victory._go_next v' then [Popped self] else [])).
Proof.
  intros Hst Hv Hu. apply wp_eq. unfold Victory_update.
  wp_go. eapply wp_controller_update_Victory; [done.. |].
  wp_go. destruct (Victory._go_next v').
  - wp_go. cbn. by rewrite <- app_assoc.
  - wp_go. done.
Qed.

Lemma Credits_update_run w self below v v' c' :
  _states w = below ++ [self] →
  heap w !! self = Some (ACredits v) →
  update_Credits v (files w) (controller w) = inr (v', c') →
  Credits_update self w
  = Return tt
      (mkWorld (<[self := ACredits v']> (heap w))
         (if Credits._go_next v' then below else _states w)
         (files w) c' (rng w)
         (log w ++ Asked self (ACredits v)
                :: if Credits._go_next v' then [Popped self] else [])).
Proof.
  intros Hst Hv Hu. apply wp_eq. unfold Credits_update.
  wp_go. eapply wp_controller_update_Credits; [done.. |].
  wp_go. destruct (Credits._go_next v').
  - wp_go. cbn. by rewrite <- app_assoc.
  - wp_go. done.
Qed.

(** C3, as the code has it.  [go_next] sets the flag, nothing resets it,
    and [update] tests the flag right after the controller returns: when
    the controller has called [go_next] during an update, the state is
    popped in that same update; when it has not, the stack is untouched.
    Victory and Credits alike. *)
Theorem go_next_pops_in_the_same_update w self below :
  _states w = below ++ [self] →
  (∀ v, Victory._go_next (Victory.go_next v) = true)
  ∧ (∀ v, Credits._go_next (Credits.go_next v) = true)
  ∧ (∀ v v' c',
       heap w !! self = Some (AVictory v) →
       update_Victory v (files w) (controller w) = inr (v', c') →
       ∃ w' es,
         Victory_update self w = Return tt w'
         ∧ heap w' !! self = Some (AVictory v')
         ∧ log w' = log w ++ es
         ∧ stack_ops es = (if Victory._go_next v' then [Popped self] else [])
         ∧ _states w'
           = (if Victory._go_next v' then below else below ++ [self]))
  ∧ (∀ v v' c',
       heap w !! self = Some (ACredits v) →
       update_Credits v (files w) (controller w) = inr (v', c') →
       ∃ w' es,
         Credits_update self w = Return tt w'
         ∧ heap w' !! self = Some (ACredits v')
         ∧ log w' = log w ++ es
         ∧ stack_ops es = (if Credits._go_next v' then [Popped self] else [])
         ∧ _states w'
           = (if Credits._go_next v' then below else below ++ [self])).
Proof.
  intros Hst. split; [done |]. split; [done |]. split.
  - intros v v' c' Hv Hu.
    eexists _, _. split; [by eapply Victory_update_run |].
    cbn. split; [apply lookup_insert_eq |]. split; [done |].
    rewrite Hst. by destruct (Victory._go_next v').
  - intros v v' c' Hv Hu.
    eexists _, _. split; [by eapply Credits_update_run |].
    cbn. split; [apply lookup_insert_eq |]. split; [done |].
    rewrite Hst. by destruct (Credits._go_next v').
Qed.

(** ** A new round *)

Lemma DIFFICULTY_SECRET_NUMBER_nonneg d : 0 ≤ DIFFICULTY_SECRET_NUMBER d.
Proof. by destruct d. Qed.

(** [Game.initialize]: the state is the default one with the settings given
    and the number drawn. *)
Lemma Game_initialize_run w self g settings :
  heap w !! self = Some (AGame g) →
  let bound := DIFFICULTY_SECRET_NUMBER (GameSettings.difficulty settings) in
  Game_initialize self settings w
  = Return tt
      (mkWorld
         (<[self := AGame (Game.with_state
                             (GameState.mk (randint 0 bound (rng w)).1
                                Player.default settings GameReport.default)
                             g)]> (heap w))
         (_states w) (files w) (controller w) (randint 0 bound (rng w)).2
         (log w)).
Proof.
  intros Hg bound. apply wp_eq. unfold Game_initialize.
  wp_go. apply wp_random_randint; [apply DIFFICULTY_SECRET_NUMBER_nonneg |].
  wp_go. cbn. by rewrite !insert_insert_eq.
Qed.

(** C6. The secret number of a new round lies between 0 and the bound of
    the difficulty, both included: for [Game.initialize] on any game, and
    for the round that [Lobby.update] creates and pushes once the settings
    have been validated.  The bounds are 100, 1000 and 100000. *)
Theorem secret_number_in_range w self settings :
  randint_in_range →
  (DIFFICULTY_SECRET_NUMBER Difficulty.EASY = 100
   ∧ DIFFICULTY_SECRET_NUMBER Difficulty.MEDIUM = 1000
   ∧ DIFFICULTY_SECRET_NUMBER Difficulty.HARD = 100000)
  ∧ (∀ g, heap w !! self = Some (AGame g) →
       ∃ w' g',
         Game_initialize self settings w = Return tt w'
         ∧ heap w' !! self = Some (AGame g')
         ∧ Game.settings g' = settings
         ∧ 0 ≤ Game.secret_number g'
           ≤ DIFFICULTY_SECRET_NUMBER (GameSettings.difficulty settings))
  ∧ (∀ lb, heap w !! self = Some (ALobby lb) →
       Lobby._create_game lb = true →
       Lobby._game_settings lb = settings →
       ∃ w' game g',
         Lobby_update self w = Return tt w'
         ∧ last (_states w') = Some game
         ∧ heap w !! game = None
         ∧ heap w' !! game = Some (AGame g')
         ∧ Game.settings g' = settings
         ∧ 0 ≤ Game.secret_number g'
           ≤ DIFFICULTY_SECRET_NUMBER (GameSettings.difficulty settings)).
Proof.
  intros Hrange. split; [done |]. split.
  - intros g Hg. eexists _, _.
    split; [by apply Game_initialize_run |].
    cbn. split; [apply lookup_insert_eq |]. split; [done |].
    apply Hrange, DIFFICULTY_SECRET_NUMBER_nonneg.
  - intros lb Hlb Hcreate Hsettings.
    cut (wp (Lobby_update self) w (λ _ w', ∃ game g',
      last (_states w') = Some game
      ∧ heap w !! game = None
      ∧ heap w' !! game = Some (AGame g')
      ∧ Game.settings g' = settings
      ∧ 0 ≤ Game.secret_number g'
        ≤ DIFFICULTY_SECRET_NUMBER (GameSettings.difficulty settings))).
    { intros (w' & Hrun & game & g' & Hrest)%wp_unit. by exists w', game, g'. }
    unfold Lobby_update. wp_go. rewrite Hcreate.
    apply wp_bind, wp_alloc. intros game Hnew.
    assert (self ≠ game) by (intros ->; congruence).
    apply wp_bind. eapply wp_intro.
    { apply Game_initialize_run. cbn. apply lookup_insert_eq. }
    cbn. wp_go. cbn. eexists game, _.
    split; [apply last_snoc |]. split; [done |].
    split.
    { rewrite !lookup_insert_ne by done. rewrite insert_insert_eq.
      apply lookup_insert_eq. }
    rewrite Hsettings. split; [done |].
    apply Hrange, DIFFICULTY_SECRET_NUMBER_nonneg.
Qed.

(** ** Snapshots *)

Lemma Game_save_state_run w self g :
  heap w !! self = Some (AGame g) →
  Game_save_state self w
  = Return tt
      (mkWorld (heap w) (_states w)
         (<[SAVED_GAME_PATH := pickle_dumps (PGameState (Game._state g))]>
            (files w))
         (controller w) (rng w)
         (log w ++ [Written SAVED_GAME_PATH
                      (pickle_dumps (PGameState (Game._state g)))])).
Proof.
  intros Hg. apply wp_eq. unfold Game_save_state. wp_go. done.
Qed.

Lemma Game_load_state_run w l g data s :
  files w !! SAVED_GAME_PATH = Some data →
  pickle_loads data = Some (PGameState s) →
  heap w !! l = Some (AGame g) →
  Game_load_state l w
  = Return tt
      (mkWorld (<[l := AGame (Game.with_state s g)]> (heap w)) (_states w)
         (files w) (controller w) (rng w) (log w)).
Proof.
  intros Hf Hl Hg. apply wp_eq. unfold Game_load_state.
  wp_go. eapply wp_read_file; [done |].
  wp_go. eapply wp_loads; [done |].
  cbn. wp_go. done.
Qed.

(** C7. [load_state] after [save_state] restores the round as it was, for
    every round: the state that the loading game ends with is equal to the
    state of the game that saved.  In particular, after [QUIT] has been
    handled by the game on top, loading the snapshot (at once, or any time
    before the file is written again) gives the same secret number,
    difficulty, guess count and score. *)
Theorem quit_then_load_round_trip w self g below :
  pickle_round_trip →
  heap w !! self = Some (AGame g) →
  _states w = below ++ [self] →
  (∀ l g2, heap w !! l = Some (AGame g2) →
     ∃ w',
       (Game_save_state self ;;; Game_load_state l) w = Return tt w'
       ∧ heap w' !! l = Some (AGame (Game.with_state (Game._state g) g2)))
  ∧ (Player.action (Game.player g) = Some GameAction.QUIT →
     ∃ w1,
       Game_handle_action self w = Return tt w1
       ∧ _states w1 = below
       ∧ ∀ w2 l g2,
           files w2 !! SAVED_GAME_PATH = files w1 !! SAVED_GAME_PATH →
           heap w2 !! l = Some (AGame g2) →
           ∃ w3 g3,
             Game_load_state l w2 = Return tt w3
             ∧ heap w3 !! l = Some (AGame g3)
             ∧ Game._state g3 = Game._state g
             ∧ Game.secret_number g3 = Game.secret_number g
             ∧ GameSettings.difficulty (Game.settings g3)
               = GameSettings.difficulty (Game.settings g)
             ∧ GameReport.guess_count (GameState.report (Game._state g3))
               = GameReport.guess_count (GameState.report (Game._state g))
             ∧ GameReport.score (GameState.report (Game._state g3))
               = GameReport.score (GameState.report (Game._state g))).
Proof.
  intros Hpickle Hg Hst. split.
  - intros l g2 Hl. eexists. split.
    + unfold bind. rewrite (Game_save_state_run w self g Hg).
      eapply Game_load_state_run; cbn; [apply lookup_insert_eq | | exact Hl].
      apply Hpickle.
    + cbn. apply lookup_insert_eq.
  - intros Ha. eexists. split; [by apply Game_handle_action_quit |].
    cbn. split; [done |]. intros w2 l g2 Hf Hl.
    rewrite lookup_insert_eq in Hf.
    eexists _, _. split.
    { eapply Game_load_state_run; [exact Hf | apply Hpickle | exact Hl]. }
    cbn. split; [apply lookup_insert_eq |]. done.
Qed.

(** ** The menus *)

(** C8. The main menu offers [LOAD_LOBBY] exactly when the lobby snapshot
    exists, and the lobby menu offers [LOAD_GAME] exactly when the game
    snapshot exists; the menu that [update] selects from is the one that
    the [draw] before it has computed from the files. *)
Theorem load_offered_iff_snapshot_exists (fs : Files) :
  ((∃ key, HumanController._create_main_menu_actions fs !! key
           = Some MainMenuAction.LOAD_LOBBY)
   ↔ is_Some (fs !! SAVED_LOBBY_PATH))
  ∧ ((∃ key, HumanController._create_lobby_actions fs !! key
             = Some LobbyAction.LOAD_GAME)
     ↔ is_Some (fs !! SAVED_GAME_PATH))
  ∧ (∀ m c, HumanController._main_menu_actions
              (HumanController.draw (AMainMenu m) fs c)
            = HumanController._create_main_menu_actions fs)
  ∧ (∀ lb c, HumanController._lobby_actions
               (HumanController.draw (ALobby lb) fs c)
             = HumanController._create_lobby_actions fs).
Proof.
  split; [| split; [| done]].
  - unfold HumanController._create_main_menu_actions, exists_.
    destruct (fs !! SAVED_LOBBY_PATH) as [data|]; split.
    + by eauto.
    + intros _. by exists 0.
    + intros [key Hkey].
      repeat (apply lookup_insert_Some in Hkey as [[_ Hkey] | [_ Hkey]];
              [discriminate |]).
      by apply lookup_singleton_Some in Hkey as [_ Hkey].
    + by intros [? ?].
  - unfold HumanController._create_lobby_actions, exists_.
    destruct (fs !! SAVED_GAME_PATH) as [data|]; split.
    + by eauto.
    + intros _. by exists 0.
    + intros [key Hkey].
      repeat (apply lookup_insert_Some in Hkey as [[_ Hkey] | [_ Hkey]];
              [discriminate |]).
      by apply lookup_singleton_Some in Hkey as [_ Hkey].
    + by intros [? ?].
Qed.

(** ** Normal play *)

(** The guess count of a round in normal play is never negative: it starts
    at 0, a handled guess adds 1, and a snapshot gives back what was
    saved. *)
Lemma normal_play_guess_count s :
  pickle_round_trip →
  normal_play s →
  0 ≤ GameReport.guess_count (GameState.report s).
Proof.
  intros Hpickle Hs.
  induction Hs as
    [ w self g0 settings w' g Hg0 Hrun Hg
    | s p Hs IH
    | w self g below w' g' Hs IH Htop Hrun Hg'
    | w self g w1 w2 l g2 w3 g3 Hs IH Hg Hsave Hfiles Hg2 Hload Hg3 ].
  - rewrite (Game_initialize_run w self g0 settings Hg0) in Hrun.
    injection Hrun as <-. cbn in Hg. rewrite lookup_insert_eq in Hg.
    by injection Hg as <-.
  - exact IH.
  - pose proof Htop as (Hg & Hst & Hh).
    destruct (Player.action (Game.player g)) as [[]|] eqn:Hact.
    + destruct (Z.lt_trichotomy (Player.guess (Game.player g))
                  (Game.secret_number g)) as [Hlt | [Heq | Hgt]].
      * rewrite (Game_handle_action_low w self g Hg Hact Hlt) in Hrun.
        injection Hrun as <-. cbn in Hg'. rewrite lookup_insert_eq in Hg'.
        injection Hg' as <-. cbn. lia.
      * pose proof (wp_Return _ _ _ _ _
                      (Game_handle_action_win w self g below Htop Hact Heq
                         ltac:(lia)) Hrun)
          as (victory & Hself & _).
        rewrite Hself in Hg'. injection Hg' as <-. cbn. lia.
      * rewrite (Game_handle_action_high w self g Hg Hact ltac:(lia)) in Hrun.
        injection Hrun as <-. cbn in Hg'. rewrite lookup_insert_eq in Hg'.
        injection Hg' as <-. cbn. lia.
    + rewrite (Game_handle_action_quit w self g below Hg Hst Hact) in Hrun.
      injection Hrun as <-. cbn in Hg'. rewrite Hg in Hg'.
      by injection Hg' as <-.
    + rewrite (Game_handle_action_idle w self g Hg Hact) in Hrun.
      injection Hrun as <-. rewrite Hg in Hg'. by injection Hg' as <-.
  - rewrite (Game_save_state_run w self g Hg) in Hsave.
    injection Hsave as <-. cbn in Hfiles. rewrite lookup_insert_eq in Hfiles.
    rewrite (Game_load_state_run w2 l g2 _ (Game._state g) Hfiles
               (Hpickle _) Hg2) in Hload.
    injection Hload as <-. cbn in Hg3. rewrite lookup_insert_eq in Hg3.
    by injection Hg3 as <-.
Qed.


(** ** No division by zero, over the whole program *)

Local Abbreviation safe_ := (safe (C := C)).

Lemma wlp_bind {A B} (m : M A) (k : A → M B) w Q :
  wlp m w (λ a w', wlp (k a) w' Q) → wlp (bind m k) w Q.
Proof. unfold wlp, bind. by destruct (m w). Qed.

Lemma wlp_mono {A} (m : M A) w (Q Q' : A → World → Prop) :
  wlp m w Q → (∀ a w', Q a w' → Q' a w') → wlp m w Q'.
Proof. unfold wlp. destruct (m w); [done | auto]. Qed.

Lemma wlp_as_Game l w (Q : Game.t → World → Prop) :
  (∀ g, heap w !! l = Some (AGame g) → Q g w) → wlp (as_Game l) w Q.
Proof.
  intros HQ. unfold wlp, as_Game, bind, read, ret, raise.
  destruct (heap w !! l) as [[]|]; try done. by apply HQ.
Qed.

Lemma counts_ok_lookup w l s : counts_ok w → heap w !! l = Some s → state_ok s.
Proof. intros [Hheap _]. apply Hheap. Qed.

(** The guess counts depend on the store and on the files only. *)
Lemma counts_ok_same w w' :
  heap w' = heap w → files w' = files w → counts_ok w → counts_ok w'.
Proof. unfold counts_ok. by intros -> ->. Qed.

Lemma counts_ok_insert w w' l s :
  heap w' = <[l := s]> (heap w) → files w' = files w →
  state_ok s → counts_ok w → counts_ok w'.
Proof.
  intros Hh Hf Hs [Hheap Hfiles]. split.
  - intros l' s'. rewrite Hh. destruct (decide (l = l')) as [<-|].
    + rewrite lookup_insert_eq. by intros [= <-].
    + rewrite lookup_insert_ne by done. apply Hheap.
  - by rewrite Hf.
Qed.

Lemma safe_ret {A} (a : A) : safe_ (ret a).
Proof. by intros w Hw. Qed.

Lemma safe_raise {A} e : e ≠ ZeroDivisionError → safe_ (raise (A := A) e).
Proof. by intros He w Hw. Qed.

Lemma safe_bind {A B} (m : M A) (k : A → M B) :
  safe_ m → (∀ a, safe_ (k a)) → safe_ (bind m k).
Proof.
  intros Hm Hk w Hw. apply wlp_bind. eapply wlp_mono; [by apply Hm |].
  intros a w' Hw'. by apply Hk.
Qed.

Lemma safe_when b (m : M unit) : safe_ m → safe_ (when b m).
Proof. destruct b; [done | intros _; apply safe_ret]. Qed.

(** Reading a state: what comes out has its count in order. *)
Lemma safe_bind_read {B} l (k : State → M B) :
  (∀ s, state_ok s → safe_ (k s)) → safe_ (bind (read l) k).
Proof.
  intros Hk w Hw. unfold wlp, bind, read.
  destruct (heap w !! l) as [s|] eqn:Hs; [| done].
  apply Hk; [| done]. by eapply counts_ok_lookup.
Qed.

Lemma safe_bind_as_Game {B} l (k : Game.t → M B) :
  (∀ g, state_ok (AGame g) → safe_ (k g)) → safe_ (bind (as_Game l) k).
Proof.
  intros Hk w Hw. unfold wlp, bind at 1, as_Game, bind, read, ret, raise.
  destruct (heap w !! l) as [[]|] eqn:Hs; try done.
  apply Hk; [| done]. by eapply (counts_ok_lookup w l).
Qed.

Lemma safe_read l : safe_ (read l).
Proof.
  intros w Hw. unfold wlp, read. by destruct (heap w !! l).
Qed.

Lemma safe_get : safe_ get.
Proof. by intros w Hw. Qed.

Lemma safe_emit e : safe_ (emit e).
Proof. intros w Hw. by eapply counts_ok_same. Qed.

Lemma safe_write l s : state_ok s → safe_ (write l s).
Proof. intros Hs w Hw. by eapply (counts_ok_insert w). Qed.

Lemma safe_alloc s : state_ok s → safe_ (alloc s).
Proof. intros Hs w Hw. by eapply (counts_ok_insert w). Qed.

Lemma safe_set_controller c : safe_ (set_controller c).
Proof. intros w Hw. by eapply counts_ok_same. Qed.

Lemma safe_push state : safe_ (MainLoop_push_state state).
Proof. intros w Hw. by eapply counts_ok_same. Qed.

Lemma safe_pop : safe_ MainLoop_pop_state.
Proof.
  intros w Hw. unfold wlp, MainLoop_pop_state.
  destruct (list_pop (_states w)) as [[rest top]|]; [| done].
  by eapply counts_ok_same.
Qed.

Lemma safe_read_file path : safe_ (read_file path).
Proof.
  intros w Hw. unfold wlp, read_file. by destruct (files w !! path).
Qed.

Lemma safe_loads data : safe_ (loads data).
Proof.
  unfold loads. destruct (pickle_loads data);
    [apply safe_ret | by apply safe_raise].
Qed.

Lemma safe_random_randint a b : safe_ (random_randint a b).
Proof.
  intros w Hw. unfold wlp, random_randint.
  destruct (decide (a ≤ b)); [| done].
  destruct (randint a b (rng w)). by eapply counts_ok_same.
Qed.

Lemma safe_write_file_other path data :
  path ≠ SAVED_GAME_PATH → safe_ (write_file path data).
Proof.
  intros Hpath w [Hheap Hfiles]. split; [done |].
  cbn. by rewrite lookup_insert_ne.
Qed.

(** Saving a round whose count is in order. *)
Lemma safe_write_file_round path s :
  pickle_round_trip →
  0 ≤ GameReport.guess_count (GameState.report s) →
  safe_ (write_file path (pickle_dumps (PGameState s))).
Proof.
  intros Hpickle Hs w [Hheap Hfiles]. split; [done |].
  cbn. destruct (decide (path = SAVED_GAME_PATH)) as [->|].
  - rewrite lookup_insert_eq. intros data s' [= <-]. rewrite Hpickle.
    by intros [= <-].
  - by rewrite lookup_insert_ne.
Qed.

Ltac safe_step :=
  lazymatch goal with
  | |- safe (ret _) => apply safe_ret
  | |- safe (raise _) => apply safe_raise; discriminate
  | |- safe (bind (read _) _) => apply safe_bind_read; intros ? ?
  | |- safe (bind (as_Game _) _) => apply safe_bind_as_Game; intros ? ?
  | |- safe (bind _ _) => apply safe_bind; [| intros ?]
  | |- safe (when _ _) => apply safe_when
  | |- safe get => apply safe_get
  | |- safe (emit _) => apply safe_emit
  | |- safe (read _) => apply safe_read
  | |- safe (write _ _) => apply safe_write; cbn in *; try done; try lia
  | |- safe (alloc _) => apply safe_alloc; cbn in *; try done; try lia
  | |- safe (set_controller _) => apply safe_set_controller
  | |- safe (MainLoop_push_state _) => apply safe_push
  | |- safe MainLoop_pop_state => apply safe_pop
  | |- safe (read_file _) => apply safe_read_file
  | |- safe (loads _) => apply safe_loads
  | |- safe (random_randint _ _) => apply safe_random_randint
  | |- safe (write_file _ _) => apply safe_write_file_other; done
  | |- safe (match ?x with _ => _ end) => destruct x
  end.

Ltac safe_go := repeat safe_step.

Lemma safe_as_Lobby l : safe_ (as_Lobby l).
Proof. unfold as_Lobby. safe_go. Qed.
Lemma safe_as_NewGameSetup l : safe_ (as_NewGameSetup l).
Proof. unfold as_NewGameSetup. safe_go. Qed.
Lemma safe_as_MainMenu l : safe_ (as_MainMenu l).
Proof. unfold as_MainMenu. safe_go. Qed.
Lemma safe_as_Victory l : safe_ (as_Victory l).
Proof. unfold as_Victory. safe_go. Qed.
Lemma safe_as_Credits l : safe_ (as_Credits l).
Proof. unfold as_Credits. safe_go. Qed.

Lemma safe_controller_on_event event : safe_ (controller_on_event event).
Proof. unfold controller_on_event. safe_go. Qed.

Lemma safe_controller_draw self : safe_ (controller_draw self).
Proof. unfold controller_draw. safe_go. Qed.

Lemma safe_controller_update self :
  controller_assigns_intents → safe_ (controller_update self).
Proof.
  intros [Hreport Hraise]. unfold controller_update.
  apply safe_bind_read. intros s Hs.
  apply safe_bind; [apply safe_emit | intros _].
  apply safe_bind; [apply safe_get | intros w0].
  destruct (Controller_update s (files w0) (controller w0))
    as [e | [s' c']] eqn:Hupdate.
  - apply safe_raise. intros ->. by eapply Hraise.
  - apply safe_bind; [| intros _; apply safe_set_controller].
    apply safe_write.
    destruct s as [g| | | | |]; cbn in Hupdate;
      match type of Hupdate with
      | context [update_Game ?g ?fs ?c] =>
          destruct (update_Game g fs c) as [| [g' c'']] eqn:Hg; [done |];
          injection Hupdate as <- <-; cbn;
          by rewrite (Hreport _ _ _ _ _ Hg)
      | context [?f ?g (files w0) (controller w0)] =>
          destruct (f g (files w0) (controller w0)) as [| []]; [done |];
          by injection Hupdate as <- <-
      end.
Qed.

Lemma wlp_Return {A} (m : M A) w a w' (Q : A → World → Prop) :
  m w = Return a w' → Q a w' → wlp m w Q.
Proof. unfold wlp. by intros ->. Qed.

Lemma safe_call_handler handler event : safe_ (call_handler handler event).
Proof.
  unfold call_handler, Lobby_on_game_event, Lobby_on_new_game_setup_event.
  safe_go; first [apply safe_as_Lobby | idtac]; safe_go.
Qed.

Lemma safe_Game_save_state self :
  pickle_round_trip → safe_ (Game_save_state self).
Proof.
  intros Hpickle. unfold Game_save_state. safe_go.
  by apply safe_write_file_round.
Qed.

(** [_check_guess] on a game that has counted a guess: the only division
    of the program has a divisor of at least 1. *)
Lemma Game_check_guess_safe self w g :
  counts_ok w →
  heap w !! self = Some (AGame g) →
  1 ≤ GameReport.guess_count (GameState.report (Game._state g)) →
  wlp (Game_check_guess self) w (λ _ w', counts_ok w').
Proof.
  intros Hw Hg Hn. unfold Game_check_guess.
  apply wlp_bind, wlp_as_Game. intros g0 Hg0.
  rewrite Hg in Hg0. injection Hg0 as <-.
  apply wlp_bind.
  set (w1 := if bool_decide (Player.guess (Game.player g)
                             > Game.secret_number g)
             then mkWorld (heap w) (_states w) (files w)
                    (on_event (OfGame GuessTooHigh) (controller w)) (rng w)
                    (log w ++ [Notified (OfGame GuessTooHigh)])
             else w).
  apply (wlp_Return _ _ tt w1);
    [subst w1; by destruct (bool_decide _) |].
  assert (Hh1 : heap w1 = heap w) by (subst w1; by destruct (bool_decide _)).
  assert (Hf1 : files w1 = files w) by (subst w1; by destruct (bool_decide _)).
  clearbody w1.
  apply wlp_bind, wlp_as_Game. intros g0 Hg0.
  rewrite Hh1, Hg in Hg0. injection Hg0 as <-.
  apply wlp_bind.
  set (w2 := if bool_decide (Player.guess (Game.player g)
                             < Game.secret_number g)
             then mkWorld (heap w1) (_states w1) (files w1)
                    (on_event (OfGame GuessTooLow) (controller w1)) (rng w1)
                    (log w1 ++ [Notified (OfGame GuessTooLow)])
             else w1).
  apply (wlp_Return _ _ tt w2);
    [subst w2; by destruct (bool_decide _) |].
  assert (Hh2 : heap w2 = heap w)
    by (subst w2; by destruct (bool_decide _)).
  assert (Hf2 : files w2 = files w)
    by (subst w2; by destruct (bool_decide _)).
  clearbody w2.
  assert (Hw2 : counts_ok w2) by by eapply (counts_ok_same w).
  apply wlp_bind, wlp_as_Game. intros g0 Hg0.
  rewrite Hh2, Hg in Hg0. injection Hg0 as <-.
  destruct (bool_decide (Player.guess (Game.player g) = Game.secret_number g));
    [| done].
  cbn [when]. rewrite compute_score_nonzero by lia. cbn [lift].
  refine ((_ : safe_ (bind (ret _) _)) w2 Hw2).
  repeat first [apply safe_call_handler | safe_step].
Qed.

Lemma safe_Game_handle_action self :
  pickle_round_trip → safe_ (Game_handle_action self).
Proof.
  intros Hpickle w Hw. unfold Game_handle_action.
  apply wlp_bind, wlp_as_Game. intros g Hg.
  pose proof (counts_ok_lookup w self _ Hw Hg) as Hn. cbn in Hn.
  apply wlp_bind.
  eapply wlp_mono with (Q := λ _ w', counts_ok w').
  - destruct (bool_decide (Player.action (Game.player g)
                           = Some GameAction.GUESS)); [| done].
    cbn [when]. apply wlp_bind.
    eapply wlp_Return; [reflexivity |].
    eapply Game_check_guess_safe.
    + by eapply (counts_ok_insert w); [reflexivity | reflexivity | cbn; lia |].
    + cbn. apply lookup_insert_eq.
    + cbn. lia.
  - intros [] w' Hw'. revert w' Hw'.
    refine (_ : safe_ (bind (as_Game self) _)).
    repeat first [by apply safe_Game_save_state | safe_step].
Qed.

Lemma safe_Game_update self :
  pickle_round_trip → controller_assigns_intents → safe_ (Game_update self).
Proof.
  intros Hpickle Hctl. unfold Game_update.
  repeat first [ by apply safe_controller_update
               | by apply safe_Game_handle_action | safe_step ].
Qed.

Lemma safe_Game_initialize self settings :
  safe_ (Game_initialize self settings).
Proof. unfold Game_initialize. safe_go. Qed.

Lemma safe_Game_load_state self : safe_ (Game_load_state self).
Proof.
  intros w Hw. unfold Game_load_state, wlp, bind at 1, read_file.
  destruct (files w !! SAVED_GAME_PATH) as [data|] eqn:Hdata; [| done].
  unfold bind at 1, loads.
  destruct (pickle_loads data) as [[s|s]|] eqn:Hloads; try done.
  fold (wlp (g <~ as_Game self ;;
             write self (AGame (Game.with_state s g))) w
          (λ _ w', counts_ok w')).
  refine ((_ : safe_ (bind (as_Game self) _)) w Hw).
  safe_go. destruct Hw as [_ Hfiles]. by eapply Hfiles.
Qed.

Lemma safe_NewGameSetup_update self :
  controller_assigns_intents → safe_ (NewGameSetup_update self).
Proof.
  intros Hctl. unfold NewGameSetup_update, NewGameSetup_handle_action.
  repeat first [ apply safe_as_NewGameSetup | by apply safe_controller_update
               | apply safe_call_handler | safe_step ].
Qed.

Lemma safe_Lobby_update self :
  pickle_round_trip → controller_assigns_intents → safe_ (Lobby_update self).
Proof.
  intros Hpickle Hctl.
  unfold Lobby_update, Lobby_handle_actions, Lobby_save_state.
  apply safe_bind; [apply safe_as_Lobby | intros lb].
  destruct (Lobby._create_game lb); [| destruct (negb (Lobby._enabled lb))];
    repeat first [ apply safe_as_Lobby | by apply safe_controller_update
                 | apply safe_Game_initialize | apply safe_Game_load_state
                 | safe_step ].
Qed.

Lemma safe_MainMenu_update self :
  controller_assigns_intents → safe_ (MainMenu_update self).
Proof.
  intros Hctl.
  unfold MainMenu_update, MainMenu_handle_actions, Lobby_initialize,
    Lobby_load_state.
  repeat first [ apply safe_as_MainMenu | apply safe_as_Lobby
               | by apply safe_controller_update | safe_step ].
Qed.

Lemma safe_Victory_update self :
  controller_assigns_intents → safe_ (Victory_update self).
Proof.
  intros Hctl. unfold Victory_update.
  repeat first [ apply safe_as_Victory | by apply safe_controller_update
               | safe_step ].
Qed.

Lemma safe_Credits_update self :
  controller_assigns_intents → safe_ (Credits_update self).
Proof.
  intros Hctl. unfold Credits_update.
  repeat first [ apply safe_as_Credits | by apply safe_controller_update
               | safe_step ].
Qed.

Lemma safe_tick self :
  pickle_round_trip → controller_assigns_intents → safe_ (tick self).
Proof.
  intros Hpickle Hctl. unfold tick, State_draw, State_update, Lobby_draw.
  apply safe_bind; [| intros _].
  - apply safe_bind; [apply safe_read | intros s].
    destruct s; try apply safe_controller_draw.
    apply safe_bind; [apply safe_as_Lobby | intros lb].
    destruct (negb (Lobby._enabled lb));
      [apply safe_ret | apply safe_controller_draw].
  - apply safe_bind; [apply safe_read | intros s].
    destruct s;
      [ by apply safe_Game_update | by apply safe_NewGameSetup_update
      | by apply safe_Lobby_update | by apply safe_MainMenu_update
      | by apply safe_Victory_update | by apply safe_Credits_update ].
Qed.

(** The whole loop, for any number of turns. *)
Lemma safe_MainLoop_run fuel :
  pickle_round_trip → controller_assigns_intents →
  safe_ (MainLoop_run fuel).
Proof.
  intros Hpickle Hctl.
  induction fuel as [| fuel IH]; simpl;
    (apply safe_bind; [apply safe_get | intros w]);
    destruct (last (_states w)); try apply safe_ret.
  apply safe_bind; [by apply safe_tick | intros _; exact IH].
Qed.

(** C9. In normal play the score is never computed with a guess count of
    zero.  For a round that normal play has produced (a fresh round or a
    loaded snapshot, followed by intents), when the game on top handles a
    guess, the guess has been counted before [compute_score] can be
    called: the count is at least 1, the division has a non-zero divisor,
    handling the guess raises nothing, and after a winning guess the
    report on the victory screen has a count of at least 1.  And over the
    whole program: with a controller that assigns intents, [main] started
    on files whose game snapshot, if any, holds a count that is not
    negative never raises [ZeroDivisionError], however long it runs. *)
Theorem no_division_by_zero_in_normal_play :
  pickle_round_trip →
  (∀ w self g below,
     normal_play (Game._state g) →
     Game_on_top w self g below →
     Player.action (Game.player g) = Some GameAction.GUESS →
     let report := GameState.report (Game._state (counted g)) in
     1 ≤ GameReport.guess_count report
     ∧ compute_score (Game.settings g) report
       = inr (DIFFICULTY_WIN_SCORE (GameSettings.difficulty (Game.settings g))
              `div` GameReport.guess_count report)
     ∧ ∃ w',
         Game_handle_action self w = Return tt w'
         ∧ (Player.guess (Game.player g) = Game.secret_number g →
            ∃ victory v,
              last (_states w') = Some victory
              ∧ heap w' !! victory = Some (AVictory v)
              ∧ 1 ≤ GameReport.guess_count (Victory.report v)
              ∧ GameReport.score (Victory.report v)
                = DIFFICULTY_WIN_SCORE
                    (GameSettings.difficulty (Game.settings g))
                  `div` GameReport.guess_count (Victory.report v)))
  ∧ (controller_assigns_intents →
     ∀ fuel (player : C) (fs : Files) (r : Rng),
       (∀ data s, fs !! SAVED_GAME_PATH = Some data →
                  pickle_loads data = Some (PGameState s) →
                  0 ≤ GameReport.guess_count (GameState.report s)) →
       main fuel player fs r ≠ Raise ZeroDivisionError).
Proof.
  intros Hpickle. split.
  - intros w self g below Hs Htop Ha report.
    pose proof (normal_play_guess_count _ Hpickle Hs) as Hn.
    assert (Hreport : GameReport.guess_count report
                      = GameReport.guess_count
                          (GameState.report (Game._state g)) + 1) by done.
    split; [lia |]. split.
    { apply compute_score_nonzero. fold report. lia. }
    destruct (Z.eq_dec (Player.guess (Game.player g)) (Game.secret_number g))
      as [Heq | Hne].
    + destruct (wp_unit _ _ _ (Game_handle_action_win w self g below Htop Ha
                                 Heq ltac:(lia)))
        as (w' & Hrun & victory & _ & Hvic & _ & Hst & _).
      exists w'. split; [done |]. intros _.
      eexists victory, _. split; [rewrite Hst; apply last_snoc |].
      split; [exact Hvic |]. cbn. split; [lia | done].
    + destruct (Game_handle_action_guess w self g below Htop Ha Hn)
        as (w' & es & Hrun & _).
      exists w'. by split.
  - intros Hctl fuel player fs r Hfs. unfold main.
    assert (Hw : counts_ok (main_world player fs r)).
    { split; [| exact Hfs]. intros l s Hl. cbn in Hl.
      apply lookup_singleton_Some in Hl as [_ <-]. done. }
    pose proof (safe_MainLoop_run fuel Hpickle Hctl _ Hw) as Hsafe.
    unfold wlp in Hsafe. intros Hraise. by rewrite Hraise in Hsafe.
Qed.

(** * Further properties of the program *)

(** ** The navigation stack *)

Lemma list_pop_nil_inv {A} (l : list A) : list_pop l = None → l = [].
Proof.
  unfold list_pop. destruct (reverse l) as [| x r] eqn:E; [| done].
  intros _. apply (f_equal reverse) in E.
  by rewrite reverse_involutive in E.
Qed.

(** X1. [push_state] then [pop_state] gives back the state pushed and the
    stack as it was; [pop_state] removes the last state only, and on an
    empty stack it raises [IndexError] (nothing in the program catches
    it). *)
Theorem MainLoop_pop_undoes_push w state :
  (∃ w', (MainLoop_push_state state ;;; MainLoop_pop_state) w = Return state w'
         ∧ _states w' = _states w
         ∧ heap w' = heap w ∧ files w' = files w
         ∧ log w' = log w ++ [Pushed state; Popped state])
  ∧ (∀ below top,
       _states w = below ++ [top] →
       ∃ w', MainLoop_pop_state w = Return top w' ∧ _states w' = below)
  ∧ (MainLoop_pop_state w = Raise IndexError ↔ _states w = []).
Proof.
  split; [| split].
  - eexists. split.
    + unfold bind, MainLoop_push_state, MainLoop_pop_state. cbn.
      by rewrite list_pop_snoc.
    + cbn. by rewrite <- app_assoc.
  - intros below top Hst. eexists. split.
    + unfold MainLoop_pop_state. by rewrite Hst, list_pop_snoc.
    + done.
  - unfold MainLoop_pop_state. split.
    + destruct (list_pop (_states w)) as [[rest top]|] eqn:E; [done |].
      intros _. by apply list_pop_nil_inv.
    + by intros ->.
Qed.

(** X2. [MainLoop.run] stops exactly on the empty stack.  On an empty
    stack it returns at once, with no draw and no update; and whenever it
    returns, it has finished if and only if the stack is empty (the other
    way to return being that the turns allowed have run out). *)
Theorem MainLoop_run_ends_on_empty_stack fuel w :
  (_states w = [] → MainLoop_run fuel w = Return (Some tt) w)
  ∧ (∀ res w', MainLoop_run fuel w = Return res w' →
               (res = Some tt ↔ _states w' = [])).
Proof.
  split.
  - intros Hst. destruct fuel; simpl; unfold bind, get; by rewrite Hst.
  - revert w. induction fuel as [| fuel IH]; intros w res w' Hrun; simpl in Hrun.
    + unfold bind, get in Hrun.
      destruct (last (_states w)) as [top|] eqn:Hlast;
        unfold ret in Hrun; simplify_eq.
      * split; [done |]. intros Hst. by rewrite Hst in Hlast.
      * split; [| done]. intros _. by apply last_None.
    + apply bind_Return_inv in Hrun as (w0 & w1 & Hget & Hrun).
      unfold get in Hget. simplify_eq.
      destruct (last (_states w1)) as [top|] eqn:Hlast.
      * apply bind_Return_inv in Hrun as ([] & w2 & _ & Hrun). by eapply IH.
      * unfold ret in Hrun. simplify_eq. split; [| done].
        intros _. by apply last_None.
Qed.

(** ** A guess that is not the secret number *)


(** ** A win and the lobby *)

(** The store after a winning guess, object by object: the game with its
    report completed, the lobby of the handler credited, the victory at a
    new reference. *)
Lemma Game_handle_action_win_store w self g below :
  Game_on_top w self g below →
  Player.action (Game.player g) = Some GameAction.GUESS →
  Player.guess (Game.player g) = Game.secret_number g →
  GameReport.guess_count (GameState.report (Game._state g)) + 1 ≠ 0 →
  let n := GameReport.guess_count (GameState.report (Game._state g)) + 1 in
  let r' :=
    GameReport.mk n
      (DIFFICULTY_WIN_SCORE (GameSettings.difficulty (Game.settings g))
       `div` n) in
  let g' := Game.with_state (GameState.with_report r' (Game._state g)) g in
  ∃ w' victory,
    Game_handle_action self w = Return tt w'
    ∧ heap w !! victory = None
    ∧ heap w'
      = <[victory := AVictory (Victory.mk (Game.settings g) r' false)]>
          (credited (Game._event_handler g) r'
             (<[self := AGame g']> (heap w))).
Proof.
  intros Htop Ha Heq Hn n r' g'. pose proof Htop as (Hg & Hst & Hh).
  cut (wp (Game_handle_action self) w (λ _ w', ∃ victory : loc,
    heap w !! victory = None
    ∧ heap w'
      = <[victory := AVictory (Victory.mk (Game.settings g) r' false)]>
          (credited (Game._event_handler g) r'
             (<[self := AGame g']> (heap w))))).
  { intros (w' & Hrun & victory & Hrest)%wp_unit. by exists w', victory. }
  unfold Game_handle_action.
  wp_go. rewrite bool_decide_eq_true_2 by done.
  wp_go. unfold Game_check_guess.
  wp_go. rewrite bool_decide_eq_false_2
    by (unfold Game.player, Game.secret_number in *; cbn; lia).
  wp_go. rewrite bool_decide_eq_false_2
    by (unfold Game.player, Game.secret_number in *; cbn; lia).
  wp_go. rewrite bool_decide_eq_true_2 by done.
  wp_go. rewrite compute_score_nonzero by done. simpl lift.
  wp_go. cbn.
  apply wp_call_handler_win.
  { cbn. rewrite insert_insert_eq. by eapply handler_ok_insert_Game. }
  wp_go.
  eapply wp_as_Game.
  { cbn. apply credited_not_Lobby; [apply lookup_insert_eq | done]. }
  apply wp_bind, wp_alloc. intros victory Hfresh. cbn in Hfresh.
  assert (Hv : heap w !! victory = None).
  { apply credited_None_inv in Hfresh. rewrite insert_insert_eq in Hfresh.
    destruct (decide (self = victory)) as [->|];
      [by rewrite lookup_insert_eq in Hfresh
      | by rewrite lookup_insert_ne in Hfresh]. }
  assert (self ≠ victory) by (intros ->; congruence).
  wp_go. eapply wp_as_Game.
  { cbn. rewrite lookup_insert_ne by done.
    apply credited_not_Lobby; [apply lookup_insert_eq | done]. }
  rewrite bool_decide_eq_false_2
    by (unfold Game.player in *; cbn; congruence).
  wp_go. exists victory. split; [done |]. cbn.
  by rewrite insert_insert_eq.
Qed.

(** X4. A win is credited to the lobby that created the game, once and in
    full: when the handler of the game is [_on_game_event] of a lobby, the
    score of that lobby grows by exactly the score of the round; nothing
    else of the lobby changes, and no other lobby is touched. *)
Theorem win_credits_the_lobby w self g below lobby lb :
  Game_on_top w self g below →
  Game._event_handler g = bound_on_game_event lobby →
  heap w !! lobby = Some (ALobby lb) →
  Player.action (Game.player g) = Some GameAction.GUESS →
  Player.guess (Game.player g) = Game.secret_number g →
  0 ≤ GameReport.guess_count (GameState.report (Game._state g)) →
  let score :=
    DIFFICULTY_WIN_SCORE (GameSettings.difficulty (Game.settings g))
    `div` (GameReport.guess_count (GameState.report (Game._state g)) + 1) in
  ∃ w',
    Game_handle_action self w = Return tt w'
    ∧ heap w' !! lobby
      = Some (ALobby (Lobby.with_state
                        (LobbyState.mk (LobbyState.score (Lobby._state lb)
                                        + score)) lb))
    ∧ (∀ l other, l ≠ lobby → heap w !! l = Some (ALobby other) →
                  heap w' !! l = Some (ALobby other)).
Proof.
  intros Htop Hh Hlb Ha Heq Hn score. pose proof Htop as (Hg & _).
  destruct (Game_handle_action_win_store w self g below Htop Ha Heq
              ltac:(lia)) as (w' & victory & Hrun & Hnew & Hheap).
  assert (self ≠ lobby) by (intros ->; congruence).
  assert (victory ≠ lobby) by (intros ->; congruence).
  exists w'. split; [done |]. rewrite Hheap, Hh. cbn.
  rewrite (lookup_insert_ne _ self lobby) by done. rewrite Hlb.
  split.
  - rewrite lookup_insert_ne by done. apply lookup_insert_eq.
  - intros l other Hl Hother.
    assert (victory ≠ l) by (intros ->; congruence).
    assert (self ≠ l) by (intros ->; congruence).
    by rewrite !lookup_insert_ne.
Qed.

(** ** Asking the controller, for any state *)

Lemma wp_controller_update w self s s' c' (Q : unit → World → Prop) :
  heap w !! self = Some s →
  Controller_update s (files w) (controller w) = inr (s', c') →
  Q tt (mkWorld (<[self := s']> (heap w)) (_states w) (files w) c' (rng w)
          (log w ++ [Asked self s])) →
  wp (controller_update self) w Q.
Proof.
  intros Hs Hu HQ. unfold controller_update.
  wp_go. cbn. rewrite Hu. wp_go. exact HQ.
Qed.

(** An exception of the controller passes through [update]: nothing in the
    program catches it. *)
Lemma controller_update_raises w self s e :
  heap w !! self = Some s →
  Controller_update s (files w) (controller w) = inl e →
  controller_update self w = Raise e.
Proof.
  intros Hs Hu. unfold controller_update, bind, read, emit, get.
  rewrite Hs. cbn. by rewrite Hu.
Qed.

Lemma wp_alloc_exact s w (Q : loc → World → Prop) :
  Q (fresh (dom (heap w)))
    (mkWorld (<[fresh (dom (heap w)) := s]> (heap w)) (_states w) (files w)
       (controller w) (rng w) (log w)) →
  wp (alloc s) w Q.
Proof. done. Qed.

Lemma fresh_loc_None w : heap w !! fresh (dom (heap w)) = None.
Proof. apply not_elem_of_dom, is_fresh. Qed.

Lemma wp_as_NewGameSetup l w g (Q : NewGameSetup.t → World → Prop) :
  heap w !! l = Some (ANewGameSetup g) → Q g w → wp (as_NewGameSetup l) w Q.
Proof. intros Hl HQ. apply wp_bind. by eapply wp_read. Qed.

Lemma wp_as_MainMenu l w g (Q : MainMenu.t → World → Prop) :
  heap w !! l = Some (AMainMenu g) → Q g w → wp (as_MainMenu l) w Q.
Proof. intros Hl HQ. apply wp_bind. by eapply wp_read. Qed.

Ltac wp_more :=
  lazymatch goal with
  | |- wp (as_NewGameSetup _) _ _ => eapply wp_as_NewGameSetup; [wp_lookup |]
  | |- wp (as_MainMenu _) _ _ => eapply wp_as_MainMenu; [wp_lookup |]
  | |- wp (alloc _) _ _ => apply wp_alloc_exact
  | _ => wp_step
  end.

Ltac wp_run := repeat wp_more.

(** ** NewGameSetup *)

Lemma staged_not_Lobby handler settings h l s :
  h !! l = Some s → (∀ lb, s ≠ ALobby lb) →
  staged handler settings h !! l = Some s.
Proof.
  intros Hl Hs. destruct handler as [|l'|l']; simpl; try done.
  destruct (h !! l') as [[]|] eqn:E; try done.
  rewrite lookup_insert_ne; [done |]. intros ->. rewrite Hl in E.
  injection E as ->. by eapply Hs.
Qed.

Lemma wp_call_handler_validated handler settings w (Q : unit → World → Prop) :
  handler_ok (heap w) handler = true →
  Q tt (mkWorld (staged handler settings (heap w)) (_states w) (files w)
          (controller w) (rng w)
          (log w ++ [Handled handler
                       (OfNewGameSetup (NewGameSettingsValidated settings))])) →
  wp (call_handler handler
        (OfNewGameSetup (NewGameSettingsValidated settings))) w Q.
Proof.
  intros Hok HQ. unfold call_handler. apply wp_bind, wp_emit.
  destruct handler as [|l|l]; simpl in *;
    [apply wp_ret, HQ | apply wp_ret, HQ |].
  destruct (heap w !! l) as [[]|] eqn:E; try done.
  apply wp_bind. eapply wp_as_Lobby; [exact E |].
  apply wp_write. cbn. exact HQ.
Qed.

Lemma handler_ok_insert_same_class h handler l s s' :
  h !! l = Some s →
  (∀ lb, s = ALobby lb → ∃ lb', s' = ALobby lb') →
  handler_ok h handler = true →
  handler_ok (<[l := s']> h) handler = true.
Proof.
  intros Hl Hclass. destruct handler as [|l'|l']; simpl; try done;
    (destruct (decide (l = l')) as [<-|];
     [| by rewrite lookup_insert_ne]);
    rewrite Hl, lookup_insert_eq; destruct s; try done;
    by destruct (Hclass _ eq_refl) as [lb' ->].
Qed.

(** One update of a setup screen: the world it ends in, when the
    controller has validated and when it has not. *)
Lemma NewGameSetup_update_run w self s below s' c' :
  heap w !! self = Some (ANewGameSetup s) →
  _states w = below ++ [self] →
  update_NewGameSetup (NewGameSetup.with_action None s) (files w)
    (controller w) = inr (s', c') →
  handler_ok (heap w) (NewGameSetup._event_handler s') = true →
  let asked := Asked self (ANewGameSetup (NewGameSetup.with_action None s)) in
  let event :=
    OfNewGameSetup (NewGameSettingsValidated (NewGameSetup._settings s')) in
  NewGameSetup_update self w
  = Return tt
      (match NewGameSetup._action s' with
       | Some NewGameSetupAction.VALIDATE =>
           mkWorld
             (staged (NewGameSetup._event_handler s')
                (NewGameSetup._settings s')
                (<[self := ANewGameSetup s']> (heap w)))
             below (files w) c' (rng w)
             (log w ++ [asked; Handled (NewGameSetup._event_handler s') event;
                        Popped self])
       | None =>
           mkWorld (<[self := ANewGameSetup s']> (heap w)) (_states w)
             (files w) c' (rng w) (log w ++ [asked])
       end).
Proof.
  intros Hs Hst Hu Hh asked event. apply wp_eq. unfold NewGameSetup_update.
  wp_run. eapply wp_controller_update.
  { cbn. apply lookup_insert_eq. }
  { cbn. by rewrite Hu. }
  unfold NewGameSetup_handle_action.
  wp_run. cbn. rewrite insert_insert_eq.
  destruct (NewGameSetup._action s') as [[]|].
  - rewrite bool_decide_eq_true_2 by done. wp_run.
    apply wp_call_handler_validated.
    { cbn. by eapply handler_ok_insert_same_class. }
    wp_run. cbn. by rewrite <- !app_assoc.
  - rewrite bool_decide_eq_false_2 by done. wp_run. done.
Qed.

(** X5. A setup screen validates once and leaves.  The controller is
    handed the screen with its action reset; if it comes back with
    [VALIDATE], the handler is told exactly once, with the settings of the
    screen, the lobby of the handler takes those settings, stages the
    creation of a game and is disabled, and the screen pops itself,
    whatever the difficulty; if it comes back without action, nothing is
    told and the stack is untouched.  No file is written either way. *)
Theorem setup_validates_once_and_leaves w self s below s' c' :
  heap w !! self = Some (ANewGameSetup s) →
  _states w = below ++ [self] →
  update_NewGameSetup (NewGameSetup.with_action None s) (files w)
    (controller w) = inr (s', c') →
  handler_ok (heap w) (NewGameSetup._event_handler s') = true →
  ∃ w' seen es,
    NewGameSetup_update self w = Return tt w'
    ∧ log w' = log w ++ Asked self (ANewGameSetup seen) :: es
    ∧ NewGameSetup._action seen = None
    ∧ files w' = files w
    ∧ (NewGameSetup._action s' = Some NewGameSetupAction.VALIDATE →
       es = [Handled (NewGameSetup._event_handler s')
               (OfNewGameSetup
                  (NewGameSettingsValidated (NewGameSetup._settings s')));
             Popped self]
       ∧ _states w' = below
       ∧ ∀ lobby lb,
           NewGameSetup._event_handler s'
           = bound_on_new_game_setup_event lobby →
           heap w !! lobby = Some (ALobby lb) →
           heap w' !! lobby
           = Some (ALobby (Lobby.mk (Lobby._state lb) (Lobby._action lb)
                             (NewGameSetup._settings s') true false)))
    ∧ (NewGameSetup._action s' = None →
       es = [] ∧ _states w' = _states w).
Proof.
  intros Hs Hst Hu Hh.
  pose proof (NewGameSetup_update_run w self s below s' c' Hs Hst Hu Hh)
    as Hrun. cbv zeta in Hrun.
  destruct (NewGameSetup._action s') as [[]|];
    (eexists _, (NewGameSetup.with_action None s), _;
     split; [exact Hrun |]); cbn.
  - split; [reflexivity |]. split; [done |]. split; [done |].
    split; [| done]. intros _. split; [done |]. split; [done |].
    intros lobby lb -> Hlb. cbn.
    assert (self ≠ lobby) by (intros ->; congruence).
    rewrite (lookup_insert_ne _ self lobby) by done. rewrite Hlb.
    apply lookup_insert_eq.
  - split; [reflexivity |]. split; [done |]. split; [done |].
    split; [done |]. done.
Qed.

(** ** Lobby: the game it creates *)

Lemma Lobby_update_create_run w self lb :
  heap w !! self = Some (ALobby lb) →
  Lobby._create_game lb = true →
  let game := fresh (dom (heap w)) in
  let settings := Lobby._game_settings lb in
  let drawn :=
    randint 0 (DIFFICULTY_SECRET_NUMBER (GameSettings.difficulty settings))
      (rng w) in
  Lobby_update self w
  = Return tt
      (mkWorld
         (<[self := ALobby (Lobby.with_create_game false
                              (Lobby.with_enabled true lb))]>
            (<[game := AGame (Game.mk
                                (GameState.mk drawn.1 Player.default settings
                                   GameReport.default)
                                (bound_on_game_event self) None)]>
               (heap w)))
         (_states w ++ [game]) (files w) (controller w) drawn.2
         (log w ++ [Pushed game])).
Proof.
  intros Hlb Hcreate game settings drawn. apply wp_eq.
  pose proof (fresh_loc_None w) as Hnew. fold game in Hnew.
  assert (self ≠ game) by (intros ->; congruence).
  unfold Lobby_update. wp_run. rewrite Hcreate.
  wp_run. fold game.
  eapply wp_intro.
  { apply Game_initialize_run. cbn. apply lookup_insert_eq. }
  cbn. wp_run. cbn. split; [done |]. by rewrite !insert_insert_eq.
Qed.

(** X6. The game that a lobby has staged is created on the lobby's own
    update: a new game with the handler of this lobby, the settings
    staged, no guess counted and no intent, pushed on top of the lobby.
    On that update the controller is not asked, and the lobby ends
    enabled again with nothing left staged, so the creation happens
    once. *)
Theorem lobby_creates_the_staged_game w self lb :
  heap w !! self = Some (ALobby lb) →
  Lobby._create_game lb = true →
  ∃ w' game secret,
    Lobby_update self w = Return tt w'
    ∧ heap w !! game = None
    ∧ heap w' !! game
      = Some (AGame (Game.mk
                       (GameState.mk secret Player.default
                          (Lobby._game_settings lb) GameReport.default)
                       (bound_on_game_event self) None))
    ∧ heap w' !! self
      = Some (ALobby (Lobby.mk (Lobby._state lb) (Lobby._action lb)
                        (Lobby._game_settings lb) false true))
    ∧ _states w' = _states w ++ [game]
    ∧ controller w' = controller w
    ∧ files w' = files w
    ∧ log w' = log w ++ [Pushed game].
Proof.
  intros Hlb Hcreate.
  pose proof (Lobby_update_create_run w self lb Hlb Hcreate) as Hrun.
  cbv zeta in Hrun.
  pose proof (fresh_loc_None w) as Hnew.
  assert (self ≠ fresh (dom (heap w))) by (intros Heq; congruence).
  eexists _, _, _. split; [exact Hrun |]. cbn.
  split; [exact Hnew |].
  split; [rewrite lookup_insert_ne by done; apply lookup_insert_eq |].
  split; [apply lookup_insert_eq |]. done.
Qed.

(** X7. From the difficulty picked to the round played.  A setup screen
    on top of the lobby that opened it, validated by the controller: after
    the update of the screen and then the update of the lobby, the stack
    is the lobby with a new game on top, the game has the settings that
    were validated, a secret number within the bound of that difficulty,
    and reports to that lobby; the lobby is enabled again. *)
Theorem validated_settings_reach_the_game w self s below lobby lb s' c' :
  randint_in_range →
  heap w !! self = Some (ANewGameSetup s) →
  heap w !! lobby = Some (ALobby lb) →
  _states w = (below ++ [lobby]) ++ [self] →
  update_NewGameSetup (NewGameSetup.with_action None s) (files w)
    (controller w) = inr (s', c') →
  NewGameSetup._event_handler s' = bound_on_new_game_setup_event lobby →
  NewGameSetup._action s' = Some NewGameSetupAction.VALIDATE →
  ∃ w1 w2 game g,
    NewGameSetup_update self w = Return tt w1
    ∧ last (_states w1) = Some lobby
    ∧ Lobby_update lobby w1 = Return tt w2
    ∧ _states w2 = (below ++ [lobby]) ++ [game]
    ∧ heap w !! game = None
    ∧ heap w2 !! game = Some (AGame g)
    ∧ Game.settings g = NewGameSetup._settings s'
    ∧ 0 ≤ Game.secret_number g
      ≤ DIFFICULTY_SECRET_NUMBER
          (GameSettings.difficulty (NewGameSetup._settings s'))
    ∧ GameState.report (Game._state g) = GameReport.default
    ∧ Game._event_handler g = bound_on_game_event lobby
    ∧ heap w2 !! lobby
      = Some (ALobby (Lobby.mk (Lobby._state lb) (Lobby._action lb)
                        (NewGameSetup._settings s') false true)).
Proof.
  intros Hrange Hs Hlb Hst Hu Hh Hv.
  assert (self ≠ lobby) by (intros ->; congruence).
  assert (Hok : handler_ok (heap w) (NewGameSetup._event_handler s') = true)
    by (rewrite Hh; cbn; by rewrite Hlb).
  pose proof (NewGameSetup_update_run w self s (below ++ [lobby]) s' c'
                Hs Hst Hu Hok) as Hrun1.
  cbv zeta in Hrun1. rewrite Hv, Hh in Hrun1. cbn in Hrun1.
  rewrite (lookup_insert_ne _ self lobby) in Hrun1 by done.
  rewrite Hlb in Hrun1.
  match type of Hrun1 with
  | _ = Return _ ?w1 =>
      pose proof (Lobby_update_create_run w1 lobby _
                    (lookup_insert_eq _ _ _) eq_refl) as Hrun2;
      pose proof (fresh_loc_None w1) as Hnew
  end.
  cbv zeta in Hrun2. cbn in Hrun2, Hnew.
  revert Hrun2 Hnew. generalize (fresh (dom
    (<[lobby := ALobby
         (Lobby.with_enabled false
            (Lobby.with_create_game true
               (Lobby.with_game_settings (NewGameSetup._settings s') lb)))]>
       (<[self := ANewGameSetup s']> (heap w))))).
  intros game Hrun2 Hnew.
  assert (lobby ≠ game) by (intros ->; by rewrite lookup_insert_eq in Hnew).
  rewrite lookup_insert_ne in Hnew by done.
  assert (self ≠ game) by (intros ->; by rewrite lookup_insert_eq in Hnew).
  rewrite lookup_insert_ne in Hnew by done.
  eexists _, _, game, _. split; [exact Hrun1 |].
  split; [apply last_snoc |]. split; [exact Hrun2 |]. cbn.
  split; [reflexivity |]. split; [exact Hnew |].
  split; [rewrite lookup_insert_ne by done; apply lookup_insert_eq |].
  split; [reflexivity |].
  split; [apply Hrange, DIFFICULTY_SECRET_NUMBER_nonneg |].
  split; [reflexivity |]. split; [reflexivity |]. apply lookup_insert_eq.
Qed.

(** ** The menus: what each action does *)

Lemma bind_Return_eq {A B} (m : M A) (k : A → M B) w a w' :
  m w = Return a w' → bind m k w = k a w'.
Proof. unfold bind. by intros ->. Qed.

Lemma bind_Raise_eq {A B} (m : M A) (k : A → M B) w e :
  m w = Raise e → bind m k w = Raise e.
Proof. unfold bind. by intros ->. Qed.

Lemma as_MainMenu_eq w l m :
  heap w !! l = Some (AMainMenu m) → as_MainMenu l w = Return m w.
Proof. intros Hl. apply wp_eq. by eapply wp_as_MainMenu. Qed.

Lemma as_Lobby_eq w l lb :
  heap w !! l = Some (ALobby lb) → as_Lobby l w = Return lb w.
Proof. intros Hl. apply wp_eq. by eapply wp_as_Lobby. Qed.

Lemma Lobby_save_state_run w self lb :
  heap w !! self = Some (ALobby lb) →
  Lobby_save_state self w
  = Return tt
      (mkWorld (heap w) (_states w)
         (<[SAVED_LOBBY_PATH := pickle_dumps (PLobbyState (Lobby._state lb))]>
            (files w))
         (controller w) (rng w)
         (log w ++ [Written SAVED_LOBBY_PATH
                      (pickle_dumps (PLobbyState (Lobby._state lb)))])).
Proof.
  intros Hlb. apply wp_eq. unfold Lobby_save_state. wp_run. done.
Qed.

Lemma Lobby_load_state_run w l lb data s :
  files w !! SAVED_LOBBY_PATH = Some data →
  pickle_loads data = Some (PLobbyState s) →
  heap w !! l = Some (ALobby lb) →
  Lobby_load_state l w
  = Return tt
      (mkWorld (<[l := ALobby (Lobby.with_state s lb)]> (heap w)) (_states w)
         (files w) (controller w) (rng w) (log w)).
Proof.
  intros Hf Hl Hlb. apply wp_eq. unfold Lobby_load_state.
  wp_run. eapply wp_read_file; [done |].
  wp_run. eapply wp_loads; [done |].
  cbn. wp_run. done.
Qed.

(** A load on a missing file. *)
Lemma Lobby_load_state_missing w l :
  files w !! SAVED_LOBBY_PATH = None →
  Lobby_load_state l w = Raise FileNotFoundError.
Proof.
  intros Hf. unfold Lobby_load_state, bind at 1, read_file. by rewrite Hf.
Qed.

Lemma Game_load_state_missing w l :
  files w !! SAVED_GAME_PATH = None →
  Game_load_state l w = Raise FileNotFoundError.
Proof.
  intros Hf. unfold Game_load_state, bind at 1, read_file. by rewrite Hf.
Qed.

Lemma SAVED_paths_differ : SAVED_LOBBY_PATH ≠ SAVED_GAME_PATH.
Proof. done. Qed.

(** X8. The main menu, action by action.  [NEW_LOBBY] pushes a new lobby
    with score 0, enabled, nothing staged; [CREDITS] pushes a credits
    screen whose flag is not set; [QUIT] pops the menu, which empties the
    stack when the menu was alone, as at the start of [main]; no action
    leaves everything as it is.  None of them writes a file.  [LOAD_LOBBY]
    without a lobby snapshot raises [FileNotFoundError]. *)
Theorem main_menu_actions_navigate w self m below :
  heap w !! self = Some (AMainMenu m) →
  _states w = below ++ [self] →
  (MainMenu._action m = Some MainMenuAction.NEW_LOBBY →
   ∃ w' lobby,
     MainMenu_handle_actions self w = Return tt w'
     ∧ heap w !! lobby = None
     ∧ heap w' !! lobby = Some (ALobby Lobby.new)
     ∧ LobbyState.score (Lobby._state Lobby.new) = 0
     ∧ _states w' = _states w ++ [lobby]
     ∧ files w' = files w
     ∧ log w' = log w ++ [Pushed lobby])
  ∧ (MainMenu._action m = Some MainMenuAction.CREDITS →
     ∃ w' credits,
       MainMenu_handle_actions self w = Return tt w'
       ∧ heap w !! credits = None
       ∧ heap w' !! credits = Some (ACredits (Credits.mk false))
       ∧ _states w' = _states w ++ [credits]
       ∧ files w' = files w
       ∧ log w' = log w ++ [Pushed credits])
  ∧ (MainMenu._action m = Some MainMenuAction.QUIT →
     ∃ w',
       MainMenu_handle_actions self w = Return tt w'
       ∧ _states w' = below
       ∧ heap w' = heap w ∧ files w' = files w
       ∧ log w' = log w ++ [Popped self]
       ∧ (below = [] → ∀ fuel, MainLoop_run fuel w' = Return (Some tt) w'))
  ∧ (MainMenu._action m = None →
     MainMenu_handle_actions self w = Return tt w)
  ∧ (MainMenu._action m = Some MainMenuAction.LOAD_LOBBY →
     files w !! SAVED_LOBBY_PATH = None →
     MainMenu_handle_actions self w = Raise FileNotFoundError).
Proof.
  intros Hm Hst.
  pose proof (fresh_loc_None w) as Hnew.
  assert (Hne : self ≠ fresh (dom (heap w))) by (intros Heq; congruence).
  split; [| split; [| split; [| split]]]; intros Ha.
  - eexists _, _. split.
    + apply wp_eq. unfold MainMenu_handle_actions, Lobby_initialize.
      wp_run. rewrite Ha. cbn [bool_decide decide_rel].
      rewrite bool_decide_eq_true_2 by done. wp_run.
      rewrite !bool_decide_eq_false_2 by done. wp_run. split; reflexivity.
    + cbn. split; [exact Hnew |].
      split; [by rewrite !insert_insert_eq, lookup_insert_eq |]. done.
  - eexists _, _. split.
    + apply wp_eq. unfold MainMenu_handle_actions.
      wp_run. rewrite Ha. rewrite !bool_decide_eq_false_2 by done. wp_run.
      rewrite bool_decide_eq_true_2 by done. wp_run.
      rewrite bool_decide_eq_false_2 by done. wp_run. split; reflexivity.
    + cbn. split; [exact Hnew |]. split; [apply lookup_insert_eq |]. done.
  - eexists. split.
    + apply wp_eq. unfold MainMenu_handle_actions.
      wp_run. rewrite Ha. rewrite !bool_decide_eq_false_2 by done. wp_run.
      rewrite bool_decide_eq_true_2 by done. wp_run. split; reflexivity.
    + cbn. repeat split. intros -> fuel.
      destruct fuel; reflexivity.
  - apply wp_eq. unfold MainMenu_handle_actions.
    wp_run. rewrite Ha. rewrite !bool_decide_eq_false_2 by done. wp_run.
    done.
  - intros Hf. unfold MainMenu_handle_actions.
    rewrite (bind_Return_eq _ _ _ _ _ (as_MainMenu_eq w self m Hm)).
    rewrite Ha. rewrite bool_decide_eq_false_2 by done.
    unfold when at 1. rewrite (bind_Return_eq _ _ w tt w) by done.
    rewrite bool_decide_eq_true_2 by done. unfold when at 1.
    apply bind_Raise_eq. unfold bind at 1, alloc.
    apply bind_Raise_eq. by apply Lobby_load_state_missing.
Qed.

(** X9. The lobby menu, action by action.  [NEW_GAME] pushes a setup
    screen with the default settings (medium), no action, and the staging
    handler of this lobby; [QUIT] writes the lobby snapshot, leaves the
    game snapshot alone and pops the lobby; no action leaves everything as
    it is; [LOAD_GAME] without a game snapshot raises
    [FileNotFoundError]. *)
Theorem lobby_actions_navigate w self lb below :
  heap w !! self = Some (ALobby lb) →
  _states w = below ++ [self] →
  (Lobby._action lb = Some LobbyAction.NEW_GAME →
   ∃ w' setup,
     Lobby_handle_actions self w = Return tt w'
     ∧ heap w !! setup = None
     ∧ heap w' !! setup
       = Some (ANewGameSetup
                 (NewGameSetup.mk (GameSettings.mk Difficulty.MEDIUM)
                    (bound_on_new_game_setup_event self) None))
     ∧ heap w' !! self = Some (ALobby lb)
     ∧ _states w' = _states w ++ [setup]
     ∧ files w' = files w
     ∧ log w' = log w ++ [Pushed setup])
  ∧ (Lobby._action lb = Some LobbyAction.QUIT →
     ∃ w',
       Lobby_handle_actions self w = Return tt w'
       ∧ _states w' = below
       ∧ heap w' = heap w
       ∧ files w' !! SAVED_LOBBY_PATH
         = Some (pickle_dumps (PLobbyState (Lobby._state lb)))
       ∧ files w' !! SAVED_GAME_PATH = files w !! SAVED_GAME_PATH
       ∧ log w' = log w ++ [Written SAVED_LOBBY_PATH
                              (pickle_dumps (PLobbyState (Lobby._state lb)));
                            Popped self])
  ∧ (Lobby._action lb = None →
     Lobby_handle_actions self w = Return tt w)
  ∧ (Lobby._action lb = Some LobbyAction.LOAD_GAME →
     files w !! SAVED_GAME_PATH = None →
     Lobby_handle_actions self w = Raise FileNotFoundError).
Proof.
  intros Hlb Hst.
  pose proof (fresh_loc_None w) as Hnew.
  assert (Hne : self ≠ fresh (dom (heap w))) by (intros Heq; congruence).
  split; [| split; [| split]]; intros Ha.
  - eexists _, _. split.
    + apply wp_eq. unfold Lobby_handle_actions.
      wp_run. rewrite Ha. rewrite bool_decide_eq_true_2 by done. wp_run.
      rewrite Ha. rewrite !bool_decide_eq_false_2 by done. wp_run.
      rewrite Ha. rewrite !bool_decide_eq_false_2 by done. wp_run.
      split; reflexivity.
    + cbn. split; [exact Hnew |]. split; [apply lookup_insert_eq |].
      split; [by rewrite lookup_insert_ne |]. done.
  - eexists. split.
    + apply wp_eq. unfold Lobby_handle_actions, Lobby_save_state.
      wp_run. rewrite Ha. rewrite !bool_decide_eq_false_2 by done. wp_run.
      rewrite Ha. rewrite !bool_decide_eq_false_2 by done. wp_run.
      rewrite Ha. rewrite bool_decide_eq_true_2 by done. wp_run.
      split; reflexivity.
    + cbn. split; [done |]. split; [done |].
      split; [apply lookup_insert_eq |].
      split; [by rewrite lookup_insert_ne |]. by rewrite <- app_assoc.
  - apply wp_eq. unfold Lobby_handle_actions.
    wp_run. rewrite Ha. rewrite !bool_decide_eq_false_2 by done. wp_run.
    rewrite Ha. rewrite !bool_decide_eq_false_2 by done. wp_run.
    rewrite Ha. rewrite !bool_decide_eq_false_2 by done. wp_run. done.
  - intros Hf. unfold Lobby_handle_actions.
    rewrite (bind_Return_eq _ _ _ _ _ (as_Lobby_eq w self lb Hlb)).
    rewrite Ha. rewrite bool_decide_eq_false_2 by done.
    unfold when at 1. rewrite (bind_Return_eq _ _ w tt w) by done.
    rewrite (bind_Return_eq _ _ _ _ _ (as_Lobby_eq w self lb Hlb)).
    rewrite Ha. rewrite bool_decide_eq_true_2 by done. unfold when at 1.
    apply bind_Raise_eq. unfold bind at 1, alloc.
    apply bind_Raise_eq. by apply Game_load_state_missing.
Qed.

(** X10. The lobby snapshot gives the score back.  After [QUIT] in a
    lobby, [LOAD_LOBBY] in the main menu (at once, or any time before the
    file is written again) pushes a new lobby whose state is equal to the
    state of the lobby that quit, so the score carries over; the new lobby
    is enabled, with no action and nothing staged. *)
Theorem lobby_snapshot_round_trip w self lb below :
  pickle_round_trip →
  heap w !! self = Some (ALobby lb) →
  _states w = below ++ [self] →
  Lobby._action lb = Some LobbyAction.QUIT →
  ∃ w1,
    Lobby_handle_actions self w = Return tt w1
    ∧ ∀ w2 menu m,
        files w2 !! SAVED_LOBBY_PATH = files w1 !! SAVED_LOBBY_PATH →
        heap w2 !! menu = Some (AMainMenu m) →
        MainMenu._action m = Some MainMenuAction.LOAD_LOBBY →
        ∃ w3 lobby,
          MainMenu_handle_actions menu w2 = Return tt w3
          ∧ heap w2 !! lobby = None
          ∧ heap w3 !! lobby
            = Some (ALobby (Lobby.mk (Lobby._state lb) None
                              GameSettings.default false true))
          ∧ _states w3 = _states w2 ++ [lobby]
          ∧ files w3 = files w2.
Proof.
  intros Hpickle Hlb Hst Ha. eexists. split.
  - apply wp_eq. unfold Lobby_handle_actions, Lobby_save_state.
    wp_run. rewrite Ha. rewrite !bool_decide_eq_false_2 by done. wp_run.
    rewrite Ha. rewrite !bool_decide_eq_false_2 by done. wp_run.
    rewrite Ha. rewrite bool_decide_eq_true_2 by done. wp_run.
    split; reflexivity.
  - cbn. intros w2 menu m Hf Hm Hload. rewrite lookup_insert_eq in Hf.
    pose proof (fresh_loc_None w2) as Hnew.
    eexists _, _. split.
    + apply wp_eq. unfold MainMenu_handle_actions.
      wp_run. rewrite Hload. rewrite bool_decide_eq_false_2 by done. wp_run.
      rewrite bool_decide_eq_true_2 by done. wp_run.
      eapply wp_intro.
      { eapply Lobby_load_state_run;
          [exact Hf | apply Hpickle | cbn; apply lookup_insert_eq]. }
      cbn. wp_run. rewrite !bool_decide_eq_false_2 by done. wp_run.
      split; reflexivity.
    + cbn. split; [exact Hnew |].
      split; [by rewrite insert_insert_eq, lookup_insert_eq |]. done.
Qed.

(** X11. A round saved by [QUIT] resumes from the lobby.  [LOAD_GAME] in a
    lobby, on the snapshot that a quitting game has written, pushes a new
    game whose state is the state saved (secret number, settings, report
    and the player as it was), and whose handler is the one of the lobby
    that loads, so that a win of the resumed round is credited there. *)
Theorem saved_round_resumes_in_the_lobby w game g below :
  pickle_round_trip →
  heap w !! game = Some (AGame g) →
  _states w = below ++ [game] →
  Player.action (Game.player g) = Some GameAction.QUIT →
  ∃ w1,
    Game_handle_action game w = Return tt w1
    ∧ _states w1 = below
    ∧ ∀ w2 lobby lb,
        files w2 !! SAVED_GAME_PATH = files w1 !! SAVED_GAME_PATH →
        heap w2 !! lobby = Some (ALobby lb) →
        Lobby._action lb = Some LobbyAction.LOAD_GAME →
        ∃ w3 resumed,
          Lobby_handle_actions lobby w2 = Return tt w3
          ∧ heap w2 !! resumed = None
          ∧ heap w3 !! resumed
            = Some (AGame (Game.mk (Game._state g)
                             (bound_on_game_event lobby) None))
          ∧ handler_ok (heap w3) (bound_on_game_event lobby) = true
          ∧ _states w3 = _states w2 ++ [resumed]
          ∧ files w3 = files w2.
Proof.
  intros Hpickle Hg Hst Ha. eexists.
  split; [by apply Game_handle_action_quit |]. cbn.
  split; [done |]. intros w2 lobby lb Hf Hlb Hload.
  rewrite lookup_insert_eq in Hf.
  pose proof (fresh_loc_None w2) as Hnew.
  assert (Hne : lobby ≠ fresh (dom (heap w2))) by (intros Heq; congruence).
  eexists _, _. split.
  - apply wp_eq. unfold Lobby_handle_actions.
    wp_run. rewrite Hload. rewrite bool_decide_eq_false_2 by done. wp_run.
    rewrite Hload. rewrite bool_decide_eq_true_2 by done. wp_run.
    eapply wp_intro.
    { eapply Game_load_state_run;
        [exact Hf | apply Hpickle | cbn; apply lookup_insert_eq]. }
    cbn. wp_run.
    rewrite Hload. rewrite bool_decide_eq_false_2 by done. wp_run.
    split; reflexivity.
  - cbn. split; [exact Hnew |].
    split; [by rewrite insert_insert_eq, lookup_insert_eq |].
    split; [| done].
    rewrite insert_insert_eq, lookup_insert_ne by done. by rewrite Hlb.
Qed.

(** ** Drawing, and exceptions of the controller *)

Lemma controller_draw_run w self s :
  heap w !! self = Some s →
  controller_draw self w
  = Return tt (mkWorld (heap w) (_states w) (files w)
                 (draw s (files w) (controller w)) (rng w) (log w)).
Proof.
  intros Hs. unfold controller_draw, bind, read, get, set_controller.
  by rewrite Hs.
Qed.

(** [draw] changes the controller and nothing else; a disabled lobby is
    not drawn. *)
Lemma State_draw_run w self s :
  heap w !! self = Some s →
  State_draw self w
  = Return tt
      (mkWorld (heap w) (_states w) (files w)
         (match s with
          | ALobby lb =>
              if negb (Lobby._enabled lb) then controller w
              else draw s (files w) (controller w)
          | _ => draw s (files w) (controller w)
          end)
         (rng w) (log w)).
Proof.
  intros Hs. unfold State_draw.
  rewrite (bind_Return_eq _ _ w s w) by (unfold read; by rewrite Hs).
  destruct s as [g | x | lb | m | v | c];
    try by apply controller_draw_run.
  unfold Lobby_draw. rewrite (bind_Return_eq _ _ _ _ _ (as_Lobby_eq w self lb Hs)).
  destruct (negb (Lobby._enabled lb)); [| by apply controller_draw_run].
  unfold ret. by destruct w.
Qed.

Lemma State_update_raises w self s asked e :
  heap w !! self = Some s →
  handed s = Some asked →
  Controller_update asked (files w) (controller w) = inl e →
  State_update self w = Raise e.
Proof.
  intros Hs Hasked Hu. unfold State_update.
  rewrite (bind_Return_eq _ _ w s w) by (unfold read; by rewrite Hs).
  assert (Hraise : ∀ w1, heap w1 !! self = Some asked →
            files w1 = files w → controller w1 = controller w →
            controller_update self w1 = Raise e).
  { intros w1 H1 Hf Hc. eapply controller_update_raises; [exact H1 |].
    by rewrite Hf, Hc. }
  destruct s as [g | x | lb | m | v | c]; cbn in Hasked.
  - injection Hasked as <-. unfold Game_update.
    erewrite bind_Return_eq; [| by apply wp_eq; eapply wp_as_Game].
    erewrite bind_Return_eq; [| reflexivity].
    apply bind_Raise_eq, Hraise; [apply lookup_insert_eq | done | done].
  - injection Hasked as <-. unfold NewGameSetup_update.
    erewrite bind_Return_eq; [| by apply wp_eq; eapply wp_as_NewGameSetup].
    erewrite bind_Return_eq; [| reflexivity].
    apply bind_Raise_eq, Hraise; [apply lookup_insert_eq | done | done].
  - unfold Lobby_update.
    rewrite (bind_Return_eq _ _ _ _ _ (as_Lobby_eq w self lb Hs)).
    destruct (Lobby._create_game lb); [done |].
    destruct (negb (Lobby._enabled lb)); [done |].
    injection Hasked as <-.
    erewrite bind_Return_eq; [| reflexivity].
    apply bind_Raise_eq, Hraise; [apply lookup_insert_eq | done | done].
  - injection Hasked as <-. unfold MainMenu_update.
    rewrite (bind_Return_eq _ _ _ _ _ (as_MainMenu_eq w self m Hs)).
    erewrite bind_Return_eq; [| reflexivity].
    apply bind_Raise_eq, Hraise; [apply lookup_insert_eq | done | done].
  - injection Hasked as <-. unfold Victory_update.
    apply bind_Raise_eq, Hraise; done.
  - injection Hasked as <-. unfold Credits_update.
    apply bind_Raise_eq, Hraise; done.
Qed.

(** X12. An exception raised by the controller ends the run, at every
    screen.  [update] of the state on top hands the controller the state
    (with the action reset for the setup screen, the lobby and the main
    menu); if [Controller.update] raises, the turn of the main loop raises
    the same exception, and so does [MainLoop.run]: nothing catches it,
    so the end of the input, for one, ends the program with [EOFError]. *)
Theorem controller_exception_ends_the_run w self s asked e below :
  heap w !! self = Some s →
  _states w = below ++ [self] →
  handed s = Some asked →
  Controller_update asked (files w) (draw s (files w) (controller w))
  = inl e →
  tick self w = Raise e
  ∧ ∀ fuel, MainLoop_run (S fuel) w = Raise e.
Proof.
  intros Hs Hst Hasked Hu.
  assert (Htick : tick self w = Raise e).
  { unfold tick. rewrite (bind_Return_eq _ _ _ _ _ (State_draw_run w self s Hs)).
    eapply State_update_raises; [exact Hs | exact Hasked |]. cbn.
    destruct s as [g | x | lb | m | v | c]; try exact Hu.
    cbn in Hasked. destruct (Lobby._create_game lb); [done |].
    by destruct (negb (Lobby._enabled lb)). }
  split; [exact Htick |]. intros fuel. simpl.
  unfold bind at 1, get. rewrite Hst, last_snoc.
  by apply bind_Raise_eq.
Qed.

(** ** Files opened for reading *)

Local Abbreviation finds := (finds_files (C := C)).

Lemma finds_ret P {A} (a : A) : finds P (ret a).
Proof. by intros w Hw. Qed.

Lemma finds_raise P {A} e :
  e ≠ FileNotFoundError → finds P (raise (A := A) e).
Proof. by intros He w Hw. Qed.

Lemma finds_bind P {A B} (m : M A) (k : A → M B) :
  finds P m → (∀ a, finds P (k a)) → finds P (bind m k).
Proof.
  intros Hm Hk w Hw. specialize (Hm w Hw). unfold bind.
  destruct (m w) as [e | a w1]; [done |]. by apply Hk.
Qed.

Lemma finds_when P b (m : M unit) : finds P m → finds P (when b m).
Proof. destruct b; [done | intros _; apply finds_ret]. Qed.

Lemma finds_when_false P (m : M unit) : finds P (when false m).
Proof. apply finds_ret. Qed.

Lemma finds_compute_score P settings report :
  finds P (lift (compute_score settings report)).
Proof.
  unfold compute_score. destruct (decide _); [by apply finds_raise |].
  apply finds_ret.
Qed.

Lemma finds_get P : finds P get.
Proof. by intros w Hw. Qed.

Lemma finds_emit P e : finds P (emit e).
Proof. by intros w Hw. Qed.

Lemma finds_read P l : finds P (read l).
Proof. intros w Hw. unfold read. by destruct (heap w !! l). Qed.

Lemma finds_write P l s : finds P (write l s).
Proof. by intros w Hw. Qed.

Lemma finds_alloc P s : finds P (alloc s).
Proof. by intros w Hw. Qed.

Lemma finds_set_controller P c : finds P (set_controller c).
Proof. by intros w Hw. Qed.

Lemma finds_push P state : finds P (MainLoop_push_state state).
Proof. by intros w Hw. Qed.

Lemma finds_pop P : finds P MainLoop_pop_state.
Proof.
  intros w Hw. unfold MainLoop_pop_state.
  by destruct (list_pop (_states w)) as [[rest top]|].
Qed.

Lemma finds_loads P data : finds P (loads data).
Proof.
  unfold loads. destruct (pickle_loads data);
    [apply finds_ret | by apply finds_raise].
Qed.

Lemma finds_random_randint P a b : finds P (random_randint a b).
Proof.
  intros w Hw. unfold random_randint.
  destruct (decide (a ≤ b)); [| done]. by destruct (randint a b (rng w)).
Qed.

Lemma finds_write_file P path data :
  kept_by_writes P → finds P (write_file path data).
Proof. intros HP w Hw. cbn. by apply HP. Qed.

(** The one place where a file is opened for reading. *)
Lemma finds_read_file P path :
  (∀ fs, P fs → is_Some (fs !! path)) → finds P (read_file path).
Proof.
  intros HP w Hw. unfold read_file.
  destruct (HP _ Hw) as [data ->]. done.
Qed.

Ltac finds_step :=
  lazymatch goal with
  | |- finds_files _ (ret _) => apply finds_ret
  | |- finds_files _ (raise _) => by apply finds_raise
  | |- finds_files _ (bind _ _) => apply finds_bind; [| intros ?]
  | |- finds_files _ (when false _) => apply finds_when_false
  | |- finds_files _ (when _ _) => apply finds_when
  | |- finds_files _ (lift (compute_score _ _)) => apply finds_compute_score
  | |- finds_files _ get => apply finds_get
  | |- finds_files _ (emit _) => apply finds_emit
  | |- finds_files _ (read _) => apply finds_read
  | |- finds_files _ (write _ _) => apply finds_write
  | |- finds_files _ (alloc _) => apply finds_alloc
  | |- finds_files _ (set_controller _) => apply finds_set_controller
  | |- finds_files _ (MainLoop_push_state _) => apply finds_push
  | |- finds_files _ MainLoop_pop_state => apply finds_pop
  | |- finds_files _ (loads _) => apply finds_loads
  | |- finds_files _ (random_randint _ _) => apply finds_random_randint
  | |- finds_files _ (write_file _ _) => apply finds_write_file; assumption
  | |- finds_files _ (read_file _) => apply finds_read_file; assumption
  | |- finds_files _ (as_Game _) => unfold as_Game
  | |- finds_files _ (as_NewGameSetup _) => unfold as_NewGameSetup
  | |- finds_files _ (as_Lobby _) => unfold as_Lobby
  | |- finds_files _ (as_MainMenu _) => unfold as_MainMenu
  | |- finds_files _ (as_Victory _) => unfold as_Victory
  | |- finds_files _ (as_Credits _) => unfold as_Credits
  | |- finds_files _ (match ?x with _ => _ end) => destruct x
  end.

Ltac finds_go := repeat finds_step.


Lemma finds_controller_draw P self : finds P (controller_draw self).
Proof. unfold controller_draw. finds_go. Qed.













Lemma controller_update_run w self s s' c' :
  heap w !! self = Some s →
  Controller_update s (files w) (controller w) = inr (s', c') →
  controller_update self w
  = Return tt (mkWorld (<[self := s']> (heap w)) (_states w) (files w) c'
                 (rng w) (log w ++ [Asked self s])).
Proof.
  intros Hs Hu. apply wp_eq. eapply wp_controller_update; [exact Hs | exact Hu |].
  done.
Qed.


(** ** Who changes the intent of a game *)

Local Abbreviation keeps_p := (keeps_intent (C := C)).

Lemma intent_ret self p {A} (a : A) : keeps_p self p (ret a).
Proof. intros w a' w' Hg Hrun. unfold ret in Hrun. by simplify_eq. Qed.

Lemma intent_raise self p {A} e : keeps_p self p (raise (A := A) e).
Proof. intros w a w' Hg Hrun. discriminate Hrun. Qed.

Lemma intent_bind self p {A B} (m : M A) (k : A → M B) :
  keeps_p self p m → (∀ a, keeps_p self p (k a)) → keeps_p self p (bind m k).
Proof.
  intros Hm Hk w b w' Hg (a & w1 & Hrun1 & Hrun2)%bind_Return_inv.
  eapply Hk; [| exact Hrun2]. by eapply Hm.
Qed.

Lemma intent_when self p b (m : M unit) :
  keeps_p self p m → keeps_p self p (when b m).
Proof. destruct b; [done | intros _; apply intent_ret]. Qed.

Lemma intent_lift self p {A} (r : Exception + A) : keeps_p self p (lift r).
Proof. destruct r; [apply intent_raise | apply intent_ret]. Qed.

Lemma intent_same_heap self p {A} (m : M A) :
  (∀ w a w', m w = Return a w' → heap w' = heap w) → keeps_p self p m.
Proof. intros Hm w a w' Hg Hrun. by rewrite (Hm _ _ _ Hrun). Qed.

Lemma intent_get self p : keeps_p self p get.
Proof.
  apply intent_same_heap. intros w a w' Hrun. unfold get in Hrun.
  by simplify_eq.
Qed.

Lemma intent_emit self p e : keeps_p self p (emit e).
Proof.
  apply intent_same_heap. intros w a w' Hrun. unfold emit in Hrun.
  by simplify_eq.
Qed.

Lemma intent_set_controller self p c : keeps_p self p (set_controller c).
Proof.
  apply intent_same_heap. intros w a w' Hrun. unfold set_controller in Hrun.
  by simplify_eq.
Qed.

Lemma intent_push self p state : keeps_p self p (MainLoop_push_state state).
Proof.
  apply intent_same_heap. intros w a w' Hrun.
  unfold MainLoop_push_state in Hrun. by simplify_eq.
Qed.

Lemma intent_pop self p : keeps_p self p MainLoop_pop_state.
Proof.
  apply intent_same_heap. intros w a w' Hrun.
  unfold MainLoop_pop_state in Hrun.
  destruct (list_pop (_states w)) as [[rest top]|]; by simplify_eq.
Qed.

Lemma intent_write_file self p path data :
  keeps_p self p (write_file path data).
Proof.
  apply intent_same_heap. intros w a w' Hrun. unfold write_file in Hrun.
  by simplify_eq.
Qed.

(** A new object is not [self]. *)
Lemma intent_alloc self p s : keeps_p self p (alloc s).
Proof.
  intros w a w' (g & Hg & Hp) Hrun. unfold alloc in Hrun. simplify_eq.
  exists g. split; [| done]. cbn. rewrite lookup_insert_ne; [done |].
  pose proof (fresh_loc_None w). intros Heq. congruence.
Qed.

(** An assignment to the game itself that leaves its player. *)
Lemma intent_write_self self p g' :
  Game.player g' = p → keeps_p self p (write self (AGame g')).
Proof.
  intros Hp w a w' _ Hrun. unfold write in Hrun. simplify_eq.
  exists g'. split; [apply lookup_insert_eq | done].
Qed.

(** What is read from [self] has the player [p]. *)
Lemma intent_bind_as_Game self p {B} (k : Game.t → M B) :
  (∀ g, Game.player g = p → keeps_p self p (k g)) →
  keeps_p self p (bind (as_Game self) k).
Proof.
  intros Hk w b w' (g & Hg & Hp) (g0 & w1 & Hrun1 & Hrun2)%bind_Return_inv.
  apply as_Game_Return_inv in Hrun1 as [-> Hg0].
  assert (g0 = g) as -> by congruence.
  eapply (Hk g Hp); [| exact Hrun2]. by exists g.
Qed.

(** A lobby that is assigned to is not [self], which is a game. *)
Lemma intent_assign_Lobby self p l (f : Lobby.t → Lobby.t) :
  keeps_p self p (bind (as_Lobby l) (λ lb, write l (ALobby (f lb)))).
Proof.
  intros w b w' (g & Hg & Hp) (lb & w1 & Hrun1 & Hrun2)%bind_Return_inv.
  unfold as_Lobby, bind, read, ret, raise in Hrun1.
  destruct (heap w !! l) as [[]|] eqn:Hl; simplify_eq.
  unfold write in Hrun2. simplify_eq.
  exists g. split; [| done]. cbn. rewrite lookup_insert_ne; [done |].
  intros ->. congruence.
Qed.

Lemma intent_call_handler self p handler event :
  keeps_p self p (call_handler handler event).
Proof.
  unfold call_handler, Lobby_on_game_event, Lobby_on_new_game_setup_event.
  apply intent_bind; [apply intent_emit | intros _].
  destruct handler as [| l | l]; [apply intent_ret | |].
  - destruct event as [[| | report] | ev]; try apply intent_ret.
    apply intent_assign_Lobby with
      (f := λ lb, Lobby.with_state
                    (LobbyState.mk (LobbyState.score (Lobby._state lb)
                                    + GameReport.score report)) lb).
  - destruct event as [ev | [settings]]; try apply intent_ret.
    apply intent_assign_Lobby with
      (f := λ lb, Lobby.with_enabled false
                    (Lobby.with_create_game true
                       (Lobby.with_game_settings settings lb))).
Qed.

Ltac intent_step :=
  lazymatch goal with
  | |- keeps_intent _ _ (ret _) => apply intent_ret
  | |- keeps_intent _ _ (raise _) => apply intent_raise
  | |- keeps_intent ?self _ (bind (as_Game ?self) _) =>
      apply intent_bind_as_Game; intros ? ?
  | |- keeps_intent _ _ (bind _ _) => apply intent_bind; [| intros ?]
  | |- keeps_intent _ _ (when _ _) => apply intent_when
  | |- keeps_intent _ _ (lift _) => apply intent_lift
  | |- keeps_intent _ _ get => apply intent_get
  | |- keeps_intent _ _ (emit _) => apply intent_emit
  | |- keeps_intent _ _ (set_controller _) => apply intent_set_controller
  | |- keeps_intent _ _ (MainLoop_push_state _) => apply intent_push
  | |- keeps_intent _ _ MainLoop_pop_state => apply intent_pop
  | |- keeps_intent _ _ (write_file _ _) => apply intent_write_file
  | |- keeps_intent _ _ (alloc _) => apply intent_alloc
  | |- keeps_intent _ _ (call_handler _ _) => apply intent_call_handler
  | |- keeps_intent ?self _ (write ?self (AGame _)) =>
      apply intent_write_self; assumption
  end.

(** [Game._handle_action] counts, scores and reports, and leaves the
    player of its game as the controller has set it. *)
Lemma intent_Game_handle_action self p :
  keeps_p self p (Game_handle_action self).
Proof.
  unfold Game_handle_action, Game_check_guess, Game_save_state,
    controller_on_event.
  repeat intent_step.
Qed.

(** Without the intent to quit, [Game._handle_action] leaves the game
    snapshot as it is. *)
Lemma Game_handle_action_keeps_snapshot self w g w' :
  heap w !! self = Some (AGame g) →
  Player.action (Game.player g) ≠ Some GameAction.QUIT →
  Game_handle_action self w = Return tt w' →
  files w' !! SAVED_GAME_PATH = files w !! SAVED_GAME_PATH.
Proof.
  intros Hg Ha Hrun.
  assert ({files w' !! SAVED_GAME_PATH = files w !! SAVED_GAME_PATH}
          + {files w' !! SAVED_GAME_PATH ≠ files w !! SAVED_GAME_PATH})
    as [| Hfiles] by (repeat decide equality); [done | exfalso].
  destruct (Game_handle_action_writes_on_quit self w w' Hrun Hfiles)
    as (g1 & Hg1 & Hquit).
  destruct (intent_Game_handle_action self (Game.player g) w tt w')
    as (g2 & Hg2 & Hp); [by exists g | exact Hrun |].
  assert (g1 = g2) as -> by congruence.
  by rewrite Hp in Hquit.
Qed.

Lemma controller_update_Return_inv w self s w' :
  heap w !! self = Some s →
  controller_update self w = Return tt w' →
  ∃ s' c',
    Controller_update s (files w) (controller w) = inr (s', c')
    ∧ w' = mkWorld (<[self := s']> (heap w)) (_states w) (files w) c'
             (rng w) (log w ++ [Asked self s]).
Proof.
  intros Hs Hrun.
  destruct (Controller_update s (files w) (controller w))
    as [e | [s' c']] eqn:Hu.
  - by rewrite (controller_update_raises w self s e Hs Hu) in Hrun.
  - rewrite (controller_update_run w self s s' c' Hs Hu) in Hrun.
    exists s', c'. split; [done |]. by simplify_eq.
Qed.

(** With a controller that never quits a round, no turn of the main loop
    changes the game snapshot, and no run does. *)
Lemma tick_keeps_snapshot self w w' :
  controller_never_quits (C := C) →
  tick self w = Return tt w' →
  files w' !! SAVED_GAME_PATH = files w !! SAVED_GAME_PATH.
Proof.
  intros Hq. unfold tick.
  intros ([] & w1 & Hdraw & Hrun)%bind_Return_inv.
  rewrite <- (keeps_State_draw _ _ _ _ Hdraw).
  unfold State_update in Hrun.
  apply bind_Return_inv in Hrun as (s & w2 & Hs & Hrun).
  rewrite <- (keeps_read _ _ _ _ Hs).
  destruct s.
  - unfold Game_update in Hrun.
    apply bind_Return_inv in Hrun as (g0 & w3 & Hg & Hrun).
    apply as_Game_Return_inv in Hg as [-> Hg].
    apply bind_Return_inv in Hrun as ([] & w4 & Hw & Hrun).
    unfold write in Hw. simplify_eq.
    apply bind_Return_inv in Hrun as ([] & w5 & Hc & Hrun).
    apply controller_update_Return_inv
      with (s := AGame (Game.with_action None g0)) in Hc
      as (s' & c' & Hu & ->); [| apply lookup_insert_eq].
    cbn in Hu.
    destruct (update_Game _ _ _) as [e | [g' c'']] eqn:Hug; [done |].
    injection Hu as <- <-.
    apply (Game_handle_action_keeps_snapshot self _ g') in Hrun;
      [exact Hrun | apply lookup_insert_eq | by eapply Hq].
  - by apply (keeps_NewGameSetup_update _ _ _ _ Hrun).
  - by apply (keeps_Lobby_update _ _ _ _ Hrun).
  - by apply (keeps_MainMenu_update _ _ _ _ Hrun).
  - by apply (keeps_Victory_update _ _ _ _ Hrun).
  - by apply (keeps_Credits_update _ _ _ _ Hrun).
Qed.

Lemma MainLoop_run_keeps_snapshot fuel w res w' :
  controller_never_quits (C := C) →
  MainLoop_run fuel w = Return res w' →
  files w' !! SAVED_GAME_PATH = files w !! SAVED_GAME_PATH.
Proof.
  intros Hq. revert w. induction fuel as [| fuel IH]; intros w Hrun.
  - cbn in Hrun. unfold bind, get in Hrun.
    destruct (last (_states w)); unfold ret in Hrun; by simplify_eq.
  - cbn in Hrun. unfold bind at 1, get in Hrun.
    destruct (last (_states w)) as [state|];
      [| unfold ret in Hrun; by simplify_eq].
    apply bind_Return_inv in Hrun as ([] & w1 & Htick & Hrun).
    rewrite (IH _ Hrun). by eapply tick_keeps_snapshot.
Qed.


End Properties.

(** * The properties on concrete runs *)

#[local] Existing Instance Sample.platform.

(** Medium, three guesses made, the fourth is the secret number: the score
    is 100 // 4 = 25. *)
Lemma score_on_winning_guess_witness :
  let g := Scenario.round 42 (Scenario.guessing 42) Difficulty.MEDIUM 3 in
  compute_score (Game.settings g) (GameState.report (Game._state (counted g)))
  = inr 25
  ∧ ∃ w' victory,
      Game_handle_action 2%nat (Scenario.world (AGame g) []) = Return tt w'
      ∧ last (_states w') = Some victory
      ∧ heap w' !! victory
        = Some (AVictory (Victory.mk (GameSettings.mk Difficulty.MEDIUM)
                            (GameReport.mk 4 25) false)).
Proof.
  intros g.
  destruct (score_on_winning_guess (Scenario.world (AGame g) []) 2%nat g
              [0%nat; 1%nat] 4)
    as (_ & Hscore & w' & victory & Hrun & Htop & Hvic & _).
  - repeat split.
  - reflexivity.
  - reflexivity.
  - reflexivity.
  - lia.
  - split; [exact Hscore |]. exists w', victory. repeat split; assumption.
Defined.

(** The summary screen of a round, on top of the lobby, and the player
    pressing Enter once: the flag is set and the state is popped in one
    update. *)
Lemma go_next_pops_in_the_same_update_witness :
  let v := Victory.mk (GameSettings.mk Difficulty.EASY) (GameReport.mk 1 10)
             false in
  ∃ w', Victory_update 2%nat (Scenario.world (AVictory v) [""]) = Return tt w'
        ∧ heap w' !! 2%nat = Some (AVictory (Victory.go_next v))
        ∧ _states w' = [0%nat; 1%nat].
Proof.
  intros v.
  destruct (go_next_pops_in_the_same_update
              (Scenario.world (AVictory v) [""]) 2%nat [0%nat; 1%nat])
    as (_ & _ & Hvictory & _).
  - reflexivity.
  - destruct (Hvictory v (Victory.go_next v) (HumanController.new []))
      as (w' & es & Hrun & Hself & _ & _ & Hst).
    + reflexivity.
    + reflexivity.
    + exists w'. repeat split; assumption.
Defined.

(** C3 as the specification states it fails: the flag is not set when the
    update starts, the controller sets it during the update, and when the
    update returns the state is no longer on the stack; there is no
    following update of that state. *)
Lemma victory_is_gone_after_the_update_that_sets_the_flag :
  let v := Victory.mk (GameSettings.mk Difficulty.EASY) (GameReport.mk 1 10)
             false in
  let w := Scenario.world (AVictory v) [""] in
  ∃ w' v',
    Victory_update 2%nat w = Return tt w'
    ∧ Victory._go_next v = false
    ∧ heap w' !! 2%nat = Some (AVictory v')
    ∧ Victory._go_next v' = true
    ∧ _states w = [0%nat; 1%nat; 2%nat]
    ∧ _states w' = [0%nat; 1%nat]
    ∧ ¬ (_states w' = _states w)
    ∧ stack_ops (log w') = [Popped 2%nat].
Proof.
  intros v w. eexists _, _.
  split; [vm_compute; reflexivity |].
  repeat split; try reflexivity. vm_compute. discriminate.
Qed.

(** An easy round, secret number 6, the player has entered 50 and then 6:
    one notice each time, the first to the controller, the second to the
    lobby. *)
Lemma exactly_one_notice_per_guess_witness :
  (∃ w' es,
     Game_handle_action 2%nat
       (Scenario.world
          (AGame (Scenario.round 6 (Scenario.guessing 50) Difficulty.EASY 0)) [])
     = Return tt w'
     ∧ log w' = es
     ∧ notices es = [Notified (OfGame GuessTooHigh)])
  ∧ (∃ w' es report,
       Game_handle_action 2%nat
         (Scenario.world
            (AGame (Scenario.round 6 (Scenario.guessing 6) Difficulty.EASY 1)) [])
       = Return tt w'
       ∧ log w' = es
       ∧ notices es = [Handled (bound_on_game_event 1%nat)
                         (OfGame (PlayerWin report))]).
Proof.
  split.
  - destruct (exactly_one_notice_per_guess
                (Scenario.world
                   (AGame (Scenario.round 6 (Scenario.guessing 50)
                             Difficulty.EASY 0)) [])
                2%nat
                (Scenario.round 6 (Scenario.guessing 50) Difficulty.EASY 0)
                [0%nat; 1%nat])
      as (w' & es & Hrun & Hlog & _ & Hhigh & _).
    + repeat split.
    + reflexivity.
    + simpl. lia.
    + exists w', es. repeat split; [exact Hrun | exact Hlog |].
      apply Hhigh. reflexivity.
  - destruct (exactly_one_notice_per_guess
                (Scenario.world
                   (AGame (Scenario.round 6 (Scenario.guessing 6)
                             Difficulty.EASY 1)) [])
                2%nat
                (Scenario.round 6 (Scenario.guessing 6) Difficulty.EASY 1)
                [0%nat; 1%nat])
      as (w' & es & Hrun & Hlog & _ & _ & _ & Hwin).
    + repeat split.
    + reflexivity.
    + simpl. lia.
    + destruct Hwin as [report Hn]; [reflexivity |].
      exists w', es, report. repeat split; assumption.
Defined.

(** The sixth guess of a hard round is the secret number: the game is
    popped, then a victory is pushed. *)
Lemma win_pops_game_then_pushes_victory_witness :
  ∃ w' victory v,
    Game_handle_action 2%nat
      (Scenario.world
         (AGame (Scenario.round 77 (Scenario.guessing 77) Difficulty.HARD 5)) [])
    = Return tt w'
    ∧ stack_ops (log w') = [Popped 2%nat; Pushed victory]
    ∧ heap w' !! victory = Some (AVictory v)
    ∧ _states w' = [0%nat; 1%nat; victory].
Proof.
  destruct (win_pops_game_then_pushes_victory
              (Scenario.world
                 (AGame (Scenario.round 77 (Scenario.guessing 77)
                           Difficulty.HARD 5)) [])
              2%nat
              (Scenario.round 77 (Scenario.guessing 77) Difficulty.HARD 5)
              [0%nat; 1%nat])
    as (w' & es & victory & v & Hrun & Hlog & Hops & _ & Hvic & Hst & _).
  - repeat split.
  - reflexivity.
  - reflexivity.
  - simpl. lia.
  - exists w', victory, v. rewrite Hlog. repeat split; assumption.
Defined.

(** C4 as the specification states it fails: on a winning guess the stack
    operations are not "push the victory, then pop the game".  The game is
    popped first and the victory, a new object, is pushed after it. *)
Lemma win_does_not_push_before_popping :
  let w := Scenario.world
             (AGame (Scenario.round 6 (Scenario.guessing 6) Difficulty.EASY 0))
             [] in
  ∃ w',
    Game_handle_action 2%nat w = Return tt w'
    ∧ stack_ops (log w') = [Popped 2%nat; Pushed 3%nat]
    ∧ heap w' !! 3%nat
      = Some (AVictory (Victory.mk (GameSettings.mk Difficulty.EASY)
                          (GameReport.mk 1 10) false))
    ∧ ¬ (∃ victory, stack_ops (log w') = [Pushed victory; Popped 2%nat]).
Proof.
  intros w. eexists. split; [vm_compute; reflexivity |].
  split; [reflexivity |]. split; [reflexivity |].
  intros [victory Hops]. vm_compute in Hops. discriminate Hops.
Qed.

(** A winning guess while a snapshot of an earlier round is on disk: the
    snapshot stays as it is.  And a turn of the loop that does write the
    snapshot: the game on top holds [QUIT]. *)
Lemma win_writes_no_snapshot_witness :
  let g := Scenario.round 6 (Scenario.guessing 6) Difficulty.EASY 2 in
  let w0 := Scenario.world (AGame g) [] in
  let w := mkWorld (heap w0) (_states w0)
             {[ SAVED_GAME_PATH := [Byte.x47] ]}
             (controller w0) (rng w0) (log w0) in
  let q := Scenario.round 6 (Scenario.quitting 3) Difficulty.EASY 2 in
  (∃ w', Game_handle_action 2%nat w = Return tt w'
         ∧ writes (log w') = []
         ∧ files w' !! SAVED_GAME_PATH = Some [Byte.x47])
  ∧ (∃ w',
       @tick Sample.platform unit Scenario.unattended 2%nat
         (Scenario.world_of (AGame q) tt) = Return tt w'
       ∧ is_Some (files w' !! SAVED_GAME_PATH)
       ∧ ∃ g', heap w' !! 2%nat = Some (AGame g')
               ∧ Player.action (Game.player g') = Some GameAction.QUIT).
Proof.
  intros g w0 w q. split.
  - destruct (win_writes_no_snapshot w 2%nat) as [Hwin _].
    destruct (Hwin g [0%nat; 1%nat])
      as (w' & es & Hrun & Hlog & Hw & _ & Hf & _).
    + repeat split.
    + discriminate.
    + simpl. lia.
    + exists w'. rewrite Hlog, Hf. repeat split; assumption.
  - destruct (win_writes_no_snapshot
                (C := unit) (Controller0 := Scenario.unattended)
                (Scenario.world_of (AGame q) tt) 2%nat) as [_ Hquit].
    eexists. split; [vm_compute; reflexivity |].
    split; [vm_compute; eauto |].
    apply Hquit; [vm_compute; reflexivity | vm_compute; discriminate].
Defined.

(** C2 on the code.  A round in which the player has guessed 50 (too
    high) and now types 7.  When [Game.update] calls [Controller.update],
    the game it hands over has the attribute [_action] set to [None] and
    the player's intent still [GUESS] with the guess 50 of the tick
    before: the assignment at the start of [update] does not reach
    [self._state.player.action]. *)
Theorem Game_update_hands_over_the_previous_intent :
  let g := Scenario.round 6 (Scenario.guessing 50) Difficulty.EASY 1 in
  let w := Scenario.world (AGame g) ["7"] in
  ∃ w' seen rest,
    Game_update 2%nat w = Return tt w'
    ∧ log w' = Asked 2%nat (AGame seen) :: rest
    ∧ Game._action seen = Some None
    ∧ Player.action (Game.player seen) = Some GameAction.GUESS
    ∧ Player.guess (Game.player seen) = 50
    ∧ ¬ (Player.action (Game.player seen) = None).
Proof.
  intros g w. eexists _, _, _.
  split; [vm_compute; reflexivity |].
  split; [reflexivity |]. repeat split. discriminate.
Qed.

(** What the intent left in place does when the controller assigns none on
    a tick: the guess of the tick before is handled a second time, counted
    and answered again. *)
Lemma stale_intent_is_handled_again :
  let g := Scenario.round 6 (Scenario.guessing 50) Difficulty.EASY 1 in
  let w := Scenario.world_of (AGame g) tt in
  ∃ w' g',
    @Game_update Sample.platform unit Scenario.unattended 2%nat w = Return tt w'
    ∧ heap w' !! 2%nat = Some (AGame g')
    ∧ GameReport.guess_count (GameState.report (Game._state g')) = 2
    ∧ notices (log w') = [Notified (OfGame GuessTooHigh)].
Proof.
  intros g w. eexists _, _.
  split; [vm_compute; reflexivity |].
  split; [reflexivity |]. split; reflexivity.
Qed.

(** ** The sample platform meets the contracts *)

Lemma Sample_take_positive_put p r :
  Sample.take_positive (Sample.put_positive p ++ r) = Some (p, r).
Proof.
  induction p as [p IH | p IH |]; simpl; [| | done]; by rewrite IH.
Qed.

Lemma Sample_take_Z_put z r :
  Sample.take_Z (Sample.put_Z z ++ r) = Some (z, r).
Proof.
  destruct z as [| p | p]; simpl; [done | |];
    by rewrite Sample_take_positive_put.
Qed.

Lemma Sample_take_action_put a r :
  Sample.take_action (Sample.put_action a ++ r) = Some (a, r).
Proof. by destruct a as [[]|]. Qed.

Lemma Sample_take_difficulty_put d r :
  Sample.take_difficulty (Sample.put_difficulty d ++ r) = Some (d, r).
Proof. by destruct d. Qed.

Lemma Sample_pickle_round_trip : @pickle_round_trip Sample.platform.
Proof.
  intros [[secret [guess action] [difficulty] [guess_count score]] | [score]];
    cbn -[Sample.take_Z Sample.put_Z Sample.take_action Sample.put_action
          Sample.take_difficulty Sample.put_difficulty].
  - repeat (first [ rewrite Sample_take_Z_put
                   | rewrite Sample_take_action_put
                   | rewrite Sample_take_difficulty_put ];
            cbn -[Sample.take_Z Sample.put_Z Sample.take_action
                  Sample.put_action Sample.take_difficulty
                  Sample.put_difficulty]).
    rewrite <- (app_nil_r (Sample.put_Z score)).
    by rewrite Sample_take_Z_put.
  - rewrite <- (app_nil_r (Sample.put_Z score)).
    by rewrite Sample_take_Z_put.
Qed.

Lemma Sample_randint_in_range : @randint_in_range Sample.platform.
Proof.
  intros a b r Hab. cbn.
  pose proof (Z.mod_pos_bound r (b - a + 1) ltac:(lia)). lia.
Qed.

(** A hard round initialised on the sample platform. *)
Lemma secret_number_in_range_witness :
  let w0 := Scenario.world (AGame Scenario.new_game) [] in
  let w := mkWorld (heap w0) (_states w0) (files w0) (controller w0)
             (123456789 : @Rng Sample.platform) (log w0) in
  ∃ w' g',
    Game_initialize 2%nat (GameSettings.mk Difficulty.HARD) w = Return tt w'
    ∧ heap w' !! 2%nat = Some (AGame g')
    ∧ 0 ≤ Game.secret_number g' ≤ 100000.
Proof.
  intros w0 w.
  destruct (secret_number_in_range w 2%nat (GameSettings.mk Difficulty.HARD)
              Sample_randint_in_range)
    as (_ & Hinit & _).
  destruct (Hinit Scenario.new_game) as (w' & g' & Hrun & Hg' & _ & Hrange).
  - reflexivity.
  - exists w', g'. repeat split; try assumption; apply Hrange.
Defined.

(** A medium round, seven guesses made, the player quits; a game that the
    lobby has just constructed (at reference 3) then loads the snapshot. *)
Lemma quit_then_load_round_trip_witness :
  let g := Scenario.round 512 (Scenario.quitting 300) Difficulty.MEDIUM 7 in
  let w0 := Scenario.world (AGame g) [] in
  let w := mkWorld (<[3%nat := AGame Scenario.new_game]> (heap w0))
             (_states w0) (files w0) (controller w0) (rng w0) (log w0) in
  ∃ w1 w3 g3,
    Game_handle_action 2%nat w = Return tt w1
    ∧ Game_load_state 3%nat w1 = Return tt w3
    ∧ heap w3 !! 3%nat = Some (AGame g3)
    ∧ Game.secret_number g3 = 512
    ∧ GameSettings.difficulty (Game.settings g3) = Difficulty.MEDIUM
    ∧ GameState.report (Game._state g3) = GameReport.mk 7 0.
Proof.
  intros g w0 w.
  destruct (quit_then_load_round_trip w 2%nat g [0%nat; 1%nat]
              Sample_pickle_round_trip)
    as (_ & Hquit).
  - reflexivity.
  - reflexivity.
  - destruct Hquit as (w1 & Hrun & _ & Hload); [reflexivity |].
    destruct (Hload w1 3%nat Scenario.new_game)
      as (w3 & g3 & Hrun3 & Hg3 & Hstate & _).
    + reflexivity.
    + vm_compute in Hrun. injection Hrun as <-. reflexivity.
    + exists w1, w3, g3. unfold Game.secret_number, Game.settings.
      rewrite Hstate. repeat split; assumption.
Defined.

(** ** HumanController assigns intents *)

Section HumanControllerFacts.
Context `{Platform}.

Lemma HumanController_ask_raises {T} (type_ : string → option T)
    (validator : T → bool) (console : list string) e :
  HumanController._ask type_ validator console = inl e → e = EOFError.
Proof.
  induction console as [| line console IH]; simpl.
  - by intros [= <-].
  - destruct (type_ line) as [value|]; [| exact IH].
    destruct (validator value); [done | exact IH].
Qed.

Lemma HumanController_select_raises {T} (choices : gmap Z T)
    (console : list string) e :
  HumanController._select choices console = inl e → e ≠ ZeroDivisionError.
Proof.
  unfold HumanController._select.
  destruct (HumanController._ask _ _ console) as [e' | [value console']] eqn:E.
  - intros [= <-]. by rewrite (HumanController_ask_raises _ _ _ _ E).
  - destruct (choices !! value); [done |]. by intros [= <-].
Qed.

Lemma HumanController_assigns_intents :
  controller_assigns_intents (C := HumanController.t).
Proof.
  split.
  - intros g fs c g' c'. cbn. unfold HumanController.update_Game.
    destruct (HumanController._ask _ _ _) as [| [value console']]; [done |].
    by intros [= <- <-].
  - intros s fs c Hraise. destruct s as [g | s | lb | m | v | cr]; cbn in Hraise.
    + unfold HumanController.update_Game in Hraise.
      destruct (HumanController._ask _ _ _) as [e | [value console']] eqn:E;
        [| done].
      injection Hraise as ->. by apply HumanController_ask_raises in E.
    + unfold HumanController.update_NewGameSetup in Hraise.
      destruct (HumanController._select _ _) as [e | [d console']] eqn:E;
        [| done].
      injection Hraise as ->. by apply HumanController_select_raises in E.
    + unfold HumanController.update_Lobby in Hraise.
      destruct (HumanController._select _ _) as [e | [a console']] eqn:E;
        [| done].
      injection Hraise as ->. by apply HumanController_select_raises in E.
    + unfold HumanController.update_MainMenu in Hraise.
      destruct (HumanController._select _ _) as [e | [a console']] eqn:E;
        [| done].
      injection Hraise as ->. by apply HumanController_select_raises in E.
    + unfold HumanController.update_Victory, HumanController.input in Hraise.
      by destruct (HumanController._console c).
    + unfold HumanController.update_Credits, HumanController.input in Hraise.
      by destruct (HumanController._console c).
Qed.

End HumanControllerFacts.

(** A round that normal play reaches: initialised by the lobby on the
    sample platform (the number drawn is 0), then the player enters 0. *)
Lemma no_division_by_zero_in_normal_play_witness :
  let g := Scenario.round 0 (Scenario.guessing 0) Difficulty.EASY 0 in
  (∃ w' victory v,
     Game_handle_action 2%nat (Scenario.world (AGame g) []) = Return tt w'
     ∧ last (_states w') = Some victory
     ∧ heap w' !! victory = Some (AVictory v)
     ∧ 1 ≤ GameReport.guess_count (Victory.report v)
     ∧ GameReport.score (Victory.report v)
       = 10 `div` GameReport.guess_count (Victory.report v))
  ∧ ∀ fuel console,
      main fuel (HumanController.new console) ∅ (6 : @Rng Sample.platform)
      ≠ Raise ZeroDivisionError.
Proof.
  intros g. split; [| intros fuel console;
    apply (no_division_by_zero_in_normal_play Sample_pickle_round_trip);
    [apply HumanController_assigns_intents | by intros data s]].
  assert (Hplay : normal_play (C := HumanController.t) (Game._state g)).
  { apply (intent_assigned
             (GameState.mk 0 Player.default (GameSettings.mk Difficulty.EASY)
                GameReport.default)
             (Scenario.guessing 0)).
    pose (w0 := Scenario.world (AGame Scenario.new_game) []).
    eapply (fresh_round w0 2%nat Scenario.new_game
              (GameSettings.mk Difficulty.EASY) _
              (Game.with_state
                 (GameState.mk 0 Player.default
                    (GameSettings.mk Difficulty.EASY) GameReport.default)
                 Scenario.new_game)).
    - reflexivity.
    - apply (Game_initialize_run w0 2%nat Scenario.new_game). reflexivity.
    - reflexivity. }
  destruct (no_division_by_zero_in_normal_play
              (C := HumanController.t) Sample_pickle_round_trip)
    as [Hround _].
  destruct (Hround (Scenario.world (AGame g) []) 2%nat g [0%nat; 1%nat] Hplay)
    as (_ & _ & w' & Hrun & Hwin).
  - repeat split.
  - reflexivity.
  - destruct Hwin as (victory & v & Htop & Hvic & Hcount & Hscore);
      [reflexivity |].
    exists w', victory, v. repeat split; assumption.
Defined.

(** ** A whole session

    New lobby, new game, easy, the first guess is the secret number, Enter
    on the victory screen, exit the lobby, exit the menu: the program ends
    with an empty stack, the lobby snapshot holds the score 10 of the round,
    and no game snapshot was written. *)
Lemma first_guess_wins_session :
  ∃ w',
    main 20 (HumanController.new ["0"; "0"; "0"; "6"; ""; "99"; "99"]) ∅
      (6 : @Rng Sample.platform)
    = Return (Some tt) w'
    ∧ _states w' = []
    ∧ files w' !! SAVED_LOBBY_PATH
      = Some (Sample.dumps (PLobbyState (LobbyState.mk 10)))
    ∧ files w' !! SAVED_GAME_PATH = None
    ∧ stack_ops (log w')
      = [Pushed 1%nat; Pushed 2%nat; Popped 2%nat; Pushed 3%nat;
         Popped 3%nat; Pushed 4%nat; Popped 4%nat; Popped 1%nat;
         Popped 0%nat].
Proof.
  eexists. split; [vm_compute; reflexivity |]. repeat split.
Qed.

(** * The further properties on concrete runs *)

(** Popping the stack [0; 1; 2] gives 2 and leaves [0; 1]. *)
Lemma MainLoop_pop_undoes_push_witness :
  let w := Scenario.world (ACredits (Credits.mk false)) [] in
  ∃ w', MainLoop_pop_state w = Return 2%nat w' ∧ _states w' = [0%nat; 1%nat].
Proof.
  intros w.
  destruct (MainLoop_pop_undoes_push w 7%nat) as (_ & Hpop & _).
  apply (Hpop [0%nat; 1%nat] 2%nat). reflexivity.
Defined.

(** The loop on an empty stack, whatever is left in the store. *)
Lemma MainLoop_run_ends_on_empty_stack_witness :
  let w := @mkWorld Sample.platform HumanController.t
             {[ 0%nat := AMainMenu MainMenu.new ]} [] ∅
             (HumanController.new ["99"]) 0 [] in
  MainLoop_run 5 w = Return (Some tt) w.
Proof.
  intros w.
  destruct (MainLoop_run_ends_on_empty_stack 5 w) as [Hempty _].
  apply Hempty. reflexivity.
Defined.


(** Medium, three guesses made, the fourth is the secret number: the lobby
    at 1, whose score was 0, has 100 // 4 = 25. *)
Lemma win_credits_the_lobby_witness :
  let g := Scenario.round 42 (Scenario.guessing 42) Difficulty.MEDIUM 3 in
  let w := Scenario.world (AGame g) [] in
  ∃ w',
    Game_handle_action 2%nat w = Return tt w'
    ∧ heap w' !! 1%nat
      = Some (ALobby (Lobby.with_state (LobbyState.mk 25) (Scenario.lobby 0))).
Proof.
  intros g w.
  destruct (win_credits_the_lobby w 2%nat g [0%nat; 1%nat] 1%nat
              (Scenario.lobby 0))
    as (w' & Hrun & Hlobby & _).
  - repeat split.
  - reflexivity.
  - reflexivity.
  - reflexivity.
  - reflexivity.
  - cbn. lia.
  - exists w'. split; assumption.
Defined.

(** The setup screen that the lobby at 1 has opened, and the player
    choosing 2, the hard difficulty. *)
Lemma setup_validates_once_and_leaves_witness :
  let s := NewGameSetup.mk GameSettings.default
             (bound_on_new_game_setup_event 1%nat) None in
  let w := Scenario.world (ANewGameSetup s) ["2"] in
  ∃ w',
    NewGameSetup_update 2%nat w = Return tt w'
    ∧ _states w' = [0%nat; 1%nat]
    ∧ files w' = ∅
    ∧ heap w' !! 1%nat
      = Some (ALobby (Lobby.mk (LobbyState.mk 0) (Some LobbyAction.NEW_GAME)
                        (GameSettings.mk Difficulty.HARD) true false)).
Proof.
  intros s w.
  destruct (setup_validates_once_and_leaves w 2%nat s [0%nat; 1%nat]
              (NewGameSetup.mk (GameSettings.mk Difficulty.HARD)
                 (bound_on_new_game_setup_event 1%nat)
                 (Some NewGameSetupAction.VALIDATE))
              (HumanController.new []))
    as (w' & seen & es & Hrun & _ & _ & Hfiles & Hvalidate & _).
  - reflexivity.
  - reflexivity.
  - reflexivity.
  - reflexivity.
  - destruct Hvalidate as (_ & Hst & Hlobby); [reflexivity |].
    exists w'. repeat split; try assumption.
    apply (Hlobby 1%nat (Scenario.lobby 0)); reflexivity.
Defined.

(** A lobby on top that has staged a hard game. *)
Lemma lobby_creates_the_staged_game_witness :
  let lb := Lobby.mk (LobbyState.mk 0) (Some LobbyAction.NEW_GAME)
              (GameSettings.mk Difficulty.HARD) true false in
  let w := Scenario.world (ALobby lb) ["7"] in
  ∃ w' game g,
    Lobby_update 2%nat w = Return tt w'
    ∧ heap w' !! game = Some (AGame g)
    ∧ Game.settings g = GameSettings.mk Difficulty.HARD
    ∧ Game._event_handler g = bound_on_game_event 2%nat
    ∧ _states w' = [0%nat; 1%nat; 2%nat; game]
    ∧ controller w' = HumanController.new ["7"].
Proof.
  intros lb w.
  destruct (lobby_creates_the_staged_game w 2%nat lb)
    as (w' & game & secret & Hrun & _ & Hgame & _ & Hst & Hc & _).
  - reflexivity.
  - reflexivity.
  - eexists w', game, _. split; [exact Hrun |]. split; [exact Hgame |].
    repeat split; assumption.
Defined.

(** The setup screen over its lobby, the player choosing 0, the easy
    difficulty: two updates later a game with a secret number within 100 is
    on top of the lobby. *)
Lemma validated_settings_reach_the_game_witness :
  let s := NewGameSetup.mk GameSettings.default
             (bound_on_new_game_setup_event 1%nat) None in
  let w := Scenario.world (ANewGameSetup s) ["0"] in
  ∃ w1 w2 game g,
    NewGameSetup_update 2%nat w = Return tt w1
    ∧ Lobby_update 1%nat w1 = Return tt w2
    ∧ _states w2 = [0%nat; 1%nat; game]
    ∧ heap w2 !! game = Some (AGame g)
    ∧ Game.settings g = GameSettings.mk Difficulty.EASY
    ∧ 0 ≤ Game.secret_number g ≤ 100.
Proof.
  intros s w.
  destruct (validated_settings_reach_the_game w 2%nat s [0%nat] 1%nat
              (Scenario.lobby 0)
              (NewGameSetup.mk (GameSettings.mk Difficulty.EASY)
                 (bound_on_new_game_setup_event 1%nat)
                 (Some NewGameSetupAction.VALIDATE))
              (HumanController.new []))
    as (w1 & w2 & game & g & Hrun1 & _ & Hrun2 & Hst & _ & Hgame & Hset
        & Hsecret & _).
  - exact Sample_randint_in_range.
  - reflexivity.
  - reflexivity.
  - reflexivity.
  - reflexivity.
  - reflexivity.
  - reflexivity.
  - exists w1, w2, game, g. repeat split; try assumption; apply Hsecret.
Defined.

(** The menu alone on the stack, as [main] starts it, and [QUIT]: the
    stack is empty and the loop is over. *)
Lemma main_menu_actions_navigate_witness :
  let m := MainMenu.mk (Some MainMenuAction.QUIT) in
  let w := @mkWorld Sample.platform HumanController.t
             {[ 0%nat := AMainMenu m ]} [0%nat] ∅ (HumanController.new [])
             0 [] in
  ∃ w',
    MainMenu_handle_actions 0%nat w = Return tt w'
    ∧ _states w' = []
    ∧ MainLoop_run 3 w' = Return (Some tt) w'.
Proof.
  intros m w.
  destruct (main_menu_actions_navigate w 0%nat m []) as (_ & _ & Hquit & _).
  - reflexivity.
  - reflexivity.
  - destruct Hquit as (w' & Hrun & Hst & _ & _ & _ & Hend); [reflexivity |].
    exists w'. repeat split; [exact Hrun | exact Hst |].
    apply Hend. reflexivity.
Defined.

(** A lobby on top with [NEW_GAME] chosen: a setup screen for a medium
    game is pushed, with the staging handler of that lobby. *)
Lemma lobby_actions_navigate_witness :
  let w := Scenario.world (ALobby (Scenario.lobby 5)) [] in
  ∃ w' setup,
    Lobby_handle_actions 2%nat w = Return tt w'
    ∧ heap w' !! setup
      = Some (ANewGameSetup
                (NewGameSetup.mk (GameSettings.mk Difficulty.MEDIUM)
                   (bound_on_new_game_setup_event 2%nat) None))
    ∧ _states w' = [0%nat; 1%nat; 2%nat; setup].
Proof.
  intros w.
  destruct (lobby_actions_navigate w 2%nat (Scenario.lobby 5) [0%nat; 1%nat])
    as (Hnew & _).
  - reflexivity.
  - reflexivity.
  - destruct Hnew as (w' & setup & Hrun & _ & Hsetup & _ & Hst & _);
      [reflexivity |].
    exists w', setup. repeat split; assumption.
Defined.

(** A lobby with score 35 quits; a main menu on the files it leaves loads
    a lobby with score 35. *)
Lemma lobby_snapshot_round_trip_witness :
  let lb := Lobby.mk (LobbyState.mk 35) (Some LobbyAction.QUIT)
              GameSettings.default false true in
  let w := Scenario.world (ALobby lb) [] in
  let menu_on (w1 : @World Sample.platform HumanController.t) :=
    mkWorld {[ 0%nat := AMainMenu (MainMenu.mk (Some MainMenuAction.LOAD_LOBBY)) ]}
      [0%nat] (files w1) (controller w1) (rng w1) (log w1) in
  ∃ w1 w3 lobby,
    Lobby_handle_actions 2%nat w = Return tt w1
    ∧ MainMenu_handle_actions 0%nat (menu_on w1) = Return tt w3
    ∧ heap w3 !! lobby
      = Some (ALobby (Lobby.mk (LobbyState.mk 35) None GameSettings.default
                        false true))
    ∧ _states w3 = [0%nat; lobby].
Proof.
  intros lb w menu_on.
  destruct (lobby_snapshot_round_trip w 2%nat lb [0%nat; 1%nat])
    as (w1 & Hrun1 & Hload).
  - exact Sample_pickle_round_trip.
  - reflexivity.
  - reflexivity.
  - reflexivity.
  - destruct (Hload (menu_on w1) 0%nat
                (MainMenu.mk (Some MainMenuAction.LOAD_LOBBY)))
      as (w3 & lobby & Hrun3 & _ & Hlobby & Hst & _).
    + reflexivity.
    + reflexivity.
    + reflexivity.
    + exists w1, w3, lobby. repeat split; assumption.
Defined.

(** A hard round, secret number 4242, five guesses made, quits; a lobby on
    the files it leaves resumes it, five guesses counted. *)
Lemma saved_round_resumes_in_the_lobby_witness :
  let g := Scenario.round 4242 (Scenario.quitting 17) Difficulty.HARD 5 in
  let w := Scenario.world (AGame g) [] in
  let lb := Lobby.mk (LobbyState.mk 0) (Some LobbyAction.LOAD_GAME)
              GameSettings.default false true in
  let lobby_on (w1 : @World Sample.platform HumanController.t) :=
    mkWorld {[ 0%nat := ALobby lb ]} [0%nat] (files w1) (controller w1)
      (rng w1) (log w1) in
  ∃ w1 w3 resumed,
    Game_handle_action 2%nat w = Return tt w1
    ∧ _states w1 = [0%nat; 1%nat]
    ∧ Lobby_handle_actions 0%nat (lobby_on w1) = Return tt w3
    ∧ heap w3 !! resumed
      = Some (AGame (Game.mk (Game._state g) (bound_on_game_event 0%nat) None))
    ∧ _states w3 = [0%nat; resumed].
Proof.
  intros g w lb lobby_on.
  destruct (saved_round_resumes_in_the_lobby w 2%nat g [0%nat; 1%nat])
    as (w1 & Hrun1 & Hst1 & Hload).
  - exact Sample_pickle_round_trip.
  - reflexivity.
  - reflexivity.
  - reflexivity.
  - destruct (Hload (lobby_on w1) 0%nat lb)
      as (w3 & resumed & Hrun3 & _ & Hgame & _ & Hst & _).
    + reflexivity.
    + reflexivity.
    + reflexivity.
    + exists w1, w3, resumed. repeat split; assumption.
Defined.

(** The program started on an input that has ended: the first turn of the
    loop raises [EOFError] at the main menu. *)
Lemma controller_exception_ends_the_run_witness :
  main 5 (HumanController.new []) ∅ (6 : @Rng Sample.platform)
  = Raise EOFError.
Proof.
  destruct (controller_exception_ends_the_run
              (main_world (HumanController.new []) ∅
                 (6 : @Rng Sample.platform))
              0%nat (AMainMenu MainMenu.new)
              (AMainMenu (MainMenu.with_action None MainMenu.new))
              EOFError [])
    as [_ Hrun].
  - reflexivity.
  - reflexivity.
  - reflexivity.
  - reflexivity.
  - exact (Hrun 4%nat).
Defined.

(** * The human controller *)

Section HumanControllerProperties.
Context `{Platform}.

Lemma HumanController_ask_inr {T} (type_ : string → option T)
    (validator : T → bool) console value rest :
  HumanController._ask type_ validator console = inr (value, rest) →
  ∃ skipped line,
    console = skipped ++ line :: rest
    ∧ Forall (refused type_ validator) skipped
    ∧ type_ line = Some value
    ∧ validator value = true.
Proof.
  induction console as [| input console IH]; simpl; [done |].
  assert (Hskip : refused type_ validator input →
            HumanController._ask type_ validator console = inr (value, rest) →
            ∃ skipped line,
              input :: console = skipped ++ line :: rest
              ∧ Forall (refused type_ validator) skipped
              ∧ type_ line = Some value
              ∧ validator value = true).
  { intros Hin (skipped & line & -> & Hs & Hl)%IH.
    exists (input :: skipped), line. split; [done |].
    split; [by constructor | done]. }
  destruct (type_ input) as [v|] eqn:Ht.
  - destruct (validator v) eqn:Hv.
    + intros [= -> ->]. by exists [], input.
    + apply Hskip. unfold refused. by rewrite Ht.
  - apply Hskip. unfold refused. by rewrite Ht.
Qed.

Lemma HumanController_ask_skips {T} (type_ : string → option T)
    (validator : T → bool) skipped console :
  Forall (refused type_ validator) skipped →
  HumanController._ask type_ validator (skipped ++ console)
  = HumanController._ask type_ validator console.
Proof.
  induction 1 as [| input skipped Hin _ IH]; simpl; [done |].
  unfold refused in Hin. destruct (type_ input) as [v|]; [| exact IH].
  by rewrite Hin.
Qed.

Lemma HumanController_ask_inl {T} (type_ : string → option T)
    (validator : T → bool) console e :
  HumanController._ask type_ validator console = inl e →
  Forall (refused type_ validator) console.
Proof.
  induction console as [| input console IH]; simpl; [by constructor |].
  destruct (type_ input) as [v|] eqn:Ht.
  - destruct (validator v) eqn:Hv; [done |].
    intros Hrest. constructor; [| by apply IH].
    unfold refused. by rewrite Ht.
  - intros Hrest. constructor; [| by apply IH].
    unfold refused. by rewrite Ht.
Qed.

(** X13. [_ask] answers with the first line that converts and validates.
    It returns a value exactly when the console holds such a line, the
    lines before it having all been passed over, and what is left to read
    is what follows that line; it raises exactly when every line is passed
    over, and what it raises then is [EOFError], whatever the conversion
    and the validator. *)
Theorem ask_returns_the_first_accepted_line {T} (type_ : string → option T)
    (validator : T → bool) (console : list string) :
  (∀ value rest,
     HumanController._ask type_ validator console = inr (value, rest)
     ↔ ∃ skipped line,
         console = skipped ++ line :: rest
         ∧ Forall (refused type_ validator) skipped
         ∧ type_ line = Some value
         ∧ validator value = true)
  ∧ (∀ e,
       HumanController._ask type_ validator console = inl e
       ↔ e = EOFError ∧ Forall (refused type_ validator) console).
Proof.
  split.
  - intros value rest. split; [apply HumanController_ask_inr |].
    intros (skipped & line & -> & Hs & Hl & Hv).
    rewrite HumanController_ask_skips by done. simpl. by rewrite Hl, Hv.
  - intros e. split.
    + intros Hrun. split; [by eapply HumanController_ask_raises |].
      by eapply HumanController_ask_inl.
    + intros [-> Hall].
      rewrite <- (app_nil_r console).
      by rewrite HumanController_ask_skips.
Qed.

Lemma HumanController_select_inr {T} (choices : gmap Z T) console a rest :
  HumanController._select choices console = inr (a, rest) →
  ∃ skipped line key,
    console = skipped ++ line :: rest
    ∧ int line = Some key
    ∧ choices !! key = Some a.
Proof.
  unfold HumanController._select.
  destruct (HumanController._ask _ _ console) as [e | [key rest']] eqn:E;
    [done |].
  apply HumanController_ask_inr in E
    as (skipped & line & -> & _ & Hline & Hkey).
  destruct (choices !! key) as [a'|] eqn:Hchoice; [| done].
  intros [= -> ->]. by exists skipped, line, key.
Qed.

Lemma HumanController_select_inl {T} (choices : gmap Z T) console e :
  HumanController._select choices console = inl e → e = EOFError.
Proof.
  unfold HumanController._select.
  destruct (HumanController._ask _ _ console) as [e' | [key rest]] eqn:E.
  - intros [= <-]. by eapply HumanController_ask_raises.
  - apply HumanController_ask_inr in E as (_ & _ & _ & _ & _ & Hkey).
    apply bool_decide_eq_true_1 in Hkey as [a Hkey]. by rewrite Hkey.
Qed.

(** X14. [_select] answers with an entry of the menu it was given: the
    value of [choices] under the key that the accepted line converts to.
    The subscript [choices[value]] never raises [KeyError], since the
    validator has checked the key: the only exception is [EOFError]; and
    on an empty menu no line is accepted, so that it reads the console to
    its end. *)
Theorem select_returns_an_offered_choice {T} (choices : gmap Z T)
    (console : list string) :
  (∀ a rest,
     HumanController._select choices console = inr (a, rest) →
     ∃ skipped line key,
       console = skipped ++ line :: rest
       ∧ int line = Some key
       ∧ choices !! key = Some a)
  ∧ (∀ e, HumanController._select choices console = inl e → e = EOFError)
  ∧ (choices = ∅ → HumanController._select choices console = inl EOFError).
Proof.
  split; [apply HumanController_select_inr |].
  split; [apply HumanController_select_inl |].
  intros ->.
  destruct (HumanController._select (T := T) ∅ console)
    as [e | [a rest]] eqn:E.
  - by rewrite (HumanController_select_inl _ _ _ E).
  - apply HumanController_select_inr in E as (_ & _ & key & _ & _ & Hkey).
    by rewrite lookup_empty in Hkey.
Qed.


Lemma HumanController_never_quits :
  controller_never_quits (C := HumanController.t).
Proof.
  intros g fs c g' c'. cbn. unfold HumanController.update_Game.
  destruct (HumanController._ask _ _ _) as [| [value console']]; [done |].
  by intros [= <- <-].
Qed.



(** X16. With the human controller the game snapshot is never written.
    [update_Game] always comes back with the intent [GUESS], so that
    [Game._handle_action] never takes its [QUIT] branch, the only caller of
    [Game.save_state]: whenever a run of the main loop returns, [game.json]
    is as it was at the start, present or not, whatever intent the games
    of the store held. *)
Theorem human_play_never_writes_the_game_snapshot fuel
    (w : @World _ HumanController.t) res w' :
  MainLoop_run fuel w = Return res w' →
  files w' !! SAVED_GAME_PATH = files w !! SAVED_GAME_PATH.
Proof.
  apply MainLoop_run_keeps_snapshot, HumanController_never_quits.
Qed.

End HumanControllerProperties.

(** ** The score *)

(** X17. The score of a round.  [compute_score] raises
    [ZeroDivisionError] exactly on a count of 0.  On a count of at least 1
    the score is between 0 and the win score of the difficulty; it is the
    whole win score exactly for a win at the first guess, and 0 exactly
    when there were more guesses than the win score; and a round won in
    more guesses never scores more.  The score already in the report plays
    no part. *)
Theorem compute_score_bounds (settings : GameSettings.t)
    (report : GameReport.t) :
  let win := DIFFICULTY_WIN_SCORE (GameSettings.difficulty settings) in
  let n := GameReport.guess_count report in
  (compute_score settings report = inl ZeroDivisionError ↔ n = 0)
  ∧ (∀ score,
       compute_score settings report = inr score → 1 ≤ n →
       0 ≤ score ≤ win ∧ (score = win ↔ n = 1) ∧ (score = 0 ↔ win < n))
  ∧ (∀ report' score score',
       compute_score settings report = inr score →
       compute_score settings report' = inr score' →
       1 ≤ n ≤ GameReport.guess_count report' →
       score' ≤ score)
  ∧ (∀ other,
       compute_score settings (GameReport.mk n other)
       = compute_score settings report).
Proof.
  intros win n.
  pose proof (DIFFICULTY_WIN_SCORE_pos (GameSettings.difficulty settings))
    as Hwin.
  fold win in Hwin.
  split; [| split; [| split]].
  - unfold compute_score. fold n. destruct (decide (n = 0)); split; done.
  - intros score. unfold compute_score. fold n win.
    destruct (decide (n = 0)); [done |]. intros [= <-] Hn.
    split; [| split].
    + split; [apply Z.div_pos; lia |].
      apply Z.div_le_upper_bound; [lia | nia].
    + split.
      * intros Heq. destruct (decide (n = 1)) as [| Hne]; [done |].
        pose proof (Z.div_lt win n). lia.
      * intros ->. apply Z.div_1_r.
    + rewrite Z.div_small_iff by done. lia.
  - intros report' score score'. unfold compute_score. fold n win.
    destruct (decide (n = 0)); [done |].
    destruct (decide (GameReport.guess_count report' = 0)); [done |].
    intros [= <-] [= <-] Hn. apply Z.div_le_compat_l; lia.
  - intros other. reflexivity.
Qed.

(** * The human controller on concrete runs *)

(** A round that holds the intent to quit, as a snapshot written under
    another controller would give it back: the human player is asked,
    enters 50, and the turn ends with no file written. *)
Lemma human_play_never_writes_the_game_snapshot_witness :
  let g := Scenario.round 42 (Scenario.quitting 7) Difficulty.MEDIUM 3 in
  let w := Scenario.world (AGame g) ["50"] in
  ∃ w', MainLoop_run 1 w = Return None w'
        ∧ files w' !! SAVED_GAME_PATH = None.
Proof.
  intros g w.
  assert (Hrun : ∃ w', MainLoop_run 1 w = Return None w').
  { eexists. vm_compute. reflexivity. }
  destruct Hrun as [w' Hrun]. exists w'. split; [exact Hrun |].
  rewrite (human_play_never_writes_the_game_snapshot 1 w None w' Hrun).
  reflexivity.
Defined.

(** The player types a word, then a number that is refused, then 7: the
    answer is 7 and the line after it is still to be read. *)
Lemma ask_returns_the_first_accepted_line_witness :
  HumanController._ask (@int Sample.platform) (λ v, bool_decide (v < 10))
    ["abc"; "12"; "7"; "3"]
  = inr (7, ["3"]).
Proof.
  apply (ask_returns_the_first_accepted_line (@int Sample.platform)
           (λ v, bool_decide (v < 10)) ["abc"; "12"; "7"; "3"]).
  exists ["abc"; "12"], "7". split; [reflexivity |].
  split; [| split; reflexivity].
  repeat constructor.
Defined.

(** The menu of difficulties, and the player typing 9 and then 1. *)
Lemma select_returns_an_offered_choice_witness :
  let difficulties : gmap Z Difficulty.t :=
    {[ 0 := Difficulty.EASY; 1 := Difficulty.MEDIUM; 2 := Difficulty.HARD ]} in
  ∃ skipped line key,
    ["9"; "1"; "again"] = skipped ++ line :: ["again"]
    ∧ @int Sample.platform line = Some key
    ∧ difficulties !! key = Some Difficulty.MEDIUM.
Proof.
  intros difficulties.
  destruct (select_returns_an_offered_choice (H := Sample.platform)
              difficulties ["9"; "1"; "again"]) as [Hchoice _].
  apply Hchoice. vm_compute. reflexivity.
Defined.


(** Medium, won at the fourth guess: 100 // 4 = 25. *)
Lemma compute_score_bounds_witness :
  compute_score (GameSettings.mk Difficulty.MEDIUM) (GameReport.mk 4 0)
  = inr 25
  ∧ 0 ≤ 25 ≤ 100.
Proof.
  split; [reflexivity |].
  destruct (compute_score_bounds (GameSettings.mk Difficulty.MEDIUM)
              (GameReport.mk 4 0)) as (_ & Hscore & _).
  destruct (Hscore 25) as [Hbounds _]; [reflexivity | cbn; lia |].
  exact Hbounds.
Defined.
